(** * Sequence status aggregation (flows/v1 sequence_lifecycle.go)

    A shallow embedding of the status-propagation operations of the
    Sequence resource, and the properties its specification states about
    them.  The operations mutate a [SequenceStatus] through a pointer
    receiver and read the wall clock; here every operation is a function
    on a [World]: the status record together with the stream of readings
    that successive calls of [time.Now()] return. *)

From Stdlib Require Import ZArith String List Bool Lia Permutation.
From Stdlib Require OrderedTypeEx.
From stdpp Require Import base decidable list strings.

Open Scope string_scope.
Open Scope list_scope.
Open Scope nat_scope.

(** ** The wall clock *)

(** A [metav1.Time], as an instant on the integer time line; the zero
    value of the Go type is [zeroTime]. *)
Definition Time := Z.
Definition zeroTime : Time := 0%Z.

(** The readings that the successive calls of [time.Now()] will return. *)
Definition Clock := nat -> Time.

Definition time_Now (clk : Clock) : Time * Clock :=
  (clk 0, fun n => clk (S n)).

(** Go's [sort.Slice] on a slice of at most twelve elements is this
    insertion sort: element [i] is swapped towards the front while
    [less data[j] data[j-1]].  [bubble] works on the already sorted prefix
    held in reverse. *)
Fixpoint bubble {A} (less : A -> A -> bool) (x : A) (rprefix : list A) : list A :=
  match rprefix with
  | [] => [x]
  | y :: rest => if less x y then y :: bubble less x rest else x :: y :: rest
  end.

Definition sort_Slice {A} (less : A -> A -> bool) (data : list A) : list A :=
  rev (fold_left (fun rprefix x => bubble less x rprefix) data []).

(** ** knative.dev/pkg/apis: conditions and the condition set *)

Module apis.

(** Modelled from the spec: the names of the conditions
    ([apis.ConditionType], declared outside src/): a condition is named by
    a string, and [Ready] names the aggregate. *)
Definition ConditionType := string.
Definition ConditionReady : ConditionType := "Ready".

(** Modelled from the spec: the three statuses of a condition, True,
    False and Unknown (the constants of [corev1.ConditionStatus], declared
    outside src/), and the severities of [apis.ConditionSeverity]; both
    are string types, the severity Error being the empty string. *)
Definition ConditionTrue := "True".
Definition ConditionFalse := "False".
Definition ConditionUnknown := "Unknown".
Definition ConditionSeverityError := "".
Definition ConditionSeverityInfo := "Info".

(** Modelled from the spec: [apis.Condition] (declared outside src/), a
    named condition with type, status, reason, message and
    lastTransitionTime; [CondType] is its field [Type]. *)
Record Condition := mkCondition {
  CondType : ConditionType;
  Status : string;
  Severity : string;
  LastTransitionTime : Time;
  Reason : string;
  Message : string }.

#[global] Instance Condition_eq_dec : EqDecision Condition.
Proof. solve_decision. Defined.

(** The zero value of the struct, which [make] fills a slice with. *)
Definition zeroCondition : Condition :=
  mkCondition "" "" "" zeroTime "" "".

(** The assignment [c.LastTransitionTime = t] on a copy of [c]. *)
Definition withTime (c : Condition) (t : Time) : Condition :=
  mkCondition (CondType c) (Status c) (Severity c) t (Reason c) (Message c).

(** Modelled from the spec: the status tests [IsTrue], [IsFalse] and
    [IsUnknown] of a condition (methods of the absent [apis.Condition]
    on a pointer); a child "exposes no Ready condition" as nil, on which
    they answer false. *)
Definition IsTrue (c : option Condition) : bool :=
  match c with Some c => String.eqb (Status c) ConditionTrue | None => false end.
Definition IsFalse (c : option Condition) : bool :=
  match c with Some c => String.eqb (Status c) ConditionFalse | None => false end.
Definition IsUnknown (c : option Condition) : bool :=
  match c with Some c => String.eqb (Status c) ConditionUnknown | None => false end.

(** Modelled from the spec: the condition-set primitive of
    knative.dev/pkg/apis is not under src/.  The spec (sections 1, 3 and
    4.1) describes it as the provided bookkeeping of named tri-state
    conditions "with a happy aggregate": get returns the condition of a
    type or nothing; a mark sets the named condition to True, Unknown or
    False with the supplied reason and message; [Ready] is recomputed by
    the primitive whenever a tracked condition is marked, and is True
    exactly when every other tracked condition is True; initialisation
    seeds the tracked types that are not yet present and leaves the others
    alone.  What the spec leaves open follows the documented contract of
    the package: the collection is stored sorted by type with one entry
    per type, a condition keeps its [LastTransitionTime] when a set changes
    nothing else, a failed dependent outranks an unknown one, and the
    aggregate carries the reason of the most recently changed unhappy
    dependent. *)
Record ConditionSet := mkConditionSet {
  happy : ConditionType;
  dependents : list ConditionType }.

(** Modelled from the spec: [NewLivingConditionSet] of the absent
    primitive, which "declares the five tracked types": [Ready] is the
    aggregate and the other types, each once, are its dependents. *)
Definition contains (l : list ConditionType) (t : ConditionType) : bool :=
  existsb (String.eqb t) l.

Definition newConditionSet (h : ConditionType) (ds : list ConditionType) : ConditionSet :=
  mkConditionSet h
    (fold_left (fun deps d => if String.eqb d h || contains deps d then deps else deps ++ [d]) ds []).

Definition NewLivingConditionSet (ds : list ConditionType) : ConditionSet :=
  newConditionSet ConditionReady ds.

(** Modelled from the spec: [GetCondition] of the absent primitive, the
    first condition of the collection with the given type, or nothing. *)
Definition GetCondition (t : ConditionType) (cs : list Condition) : option Condition :=
  List.find (fun c => String.eqb (CondType c) t) cs.

(** The state a manager works on: the conditions of the managed status
    and the clock. *)
Definition CS := (list Condition * Clock)%type.

(** Modelled from the spec: the scan of [SetCondition] (absent primitive).
    It keeps the conditions of the other types and gives up ([None]) when
    the stored condition of this type differs from the new one in its
    transition time at most. *)
Fixpoint SetCondition_scan (cond : Condition) (cs kept : list Condition) : option (list Condition) :=
  match cs with
  | [] => Some kept
  | c :: cs' =>
      if negb (String.eqb (CondType c) (CondType cond)) then SetCondition_scan cond cs' (kept ++ [c])
      else if bool_decide (withTime cond (LastTransitionTime c) = c) then None
      else SetCondition_scan cond cs' kept
  end.

(** Modelled from the spec: [SetCondition] of the absent primitive: set or
    update the condition of [cond]'s type, stamp the change with the
    current time and store the collection sorted by type. *)
Definition SetCondition (cond : Condition) (s : CS) : CS :=
  match SetCondition_scan cond (fst s) [] with
  | None => s
  | Some kept =>
      let (now, clk) := time_Now (snd s) in
      (sort_Slice (fun a b => String.ltb (CondType a) (CondType b)) (kept ++ [withTime cond now]), clk)
  end.

(** Modelled from the spec: the tracked types of a set, of the absent
    primitive; a condition of a tracked type has the severity Error. *)
Definition isTerminal (r : ConditionSet) (t : ConditionType) : bool :=
  existsb (fun cond => String.eqb cond t) (dependents r) || String.eqb t (happy r).

Definition severity (r : ConditionSet) (t : ConditionType) : string :=
  if isTerminal r t then ConditionSeverityError else ConditionSeverityInfo.

(** Modelled from the spec: the search, in the absent primitive, for a
    tracked condition that keeps the aggregate from being True: a False
    one first, then an Unknown one, the most recently changed first; a
    tracked type that is not present counts as Unknown. *)
Definition findUnhappyDependent (r : ConditionSet) (cs : list Condition) : option Condition :=
  if Nat.eqb (length (dependents r)) 0 then None else
  let conditions :=
    sort_Slice (fun a b => Z.ltb (LastTransitionTime b) (LastTransitionTime a))
      (List.filter (fun c => isTerminal r (CondType c) && negb (String.eqb (CondType c) (happy r))) cs) in
  match List.find (fun c => IsFalse (Some c)) conditions with
  | Some c => Some c
  | None =>
      match List.find (fun c => IsUnknown (Some c)) conditions with
      | Some c => Some c
      | None =>
          if Nat.ltb (length conditions) (length (dependents r))
          then Some (mkCondition "" ConditionUnknown "" zeroTime "" "")
          else None
      end
  end.

(** Modelled from the spec: the recomputation of the aggregate after a
    mark (absent primitive). *)
Definition recomputeHappiness (r : ConditionSet) (t : ConditionType) (s : CS) : CS :=
  match findUnhappyDependent r (fst s) with
  | Some c =>
      SetCondition (mkCondition (happy r) (Status c) (severity r (happy r)) zeroTime (Reason c) (Message c)) s
  | None =>
      if negb (String.eqb t (happy r))
      then SetCondition (mkCondition (happy r) ConditionTrue (severity r (happy r)) zeroTime "" "") s
      else s
  end.

(** Modelled from the spec: the marks of the absent primitive.  The
    message is the text already formatted from the format string and its
    arguments. *)
Definition MarkTrue (r : ConditionSet) (t : ConditionType) (s : CS) : CS :=
  recomputeHappiness r t
    (SetCondition (mkCondition t ConditionTrue (severity r t) zeroTime "" "") s).

(** Modelled from the spec: [MarkTrueWithReason] of the absent primitive,
    [MarkTrue] with a reason and a message. *)
Definition MarkTrueWithReason (r : ConditionSet) (t : ConditionType) (reason message : string) (s : CS) : CS :=
  recomputeHappiness r t
    (SetCondition (mkCondition t ConditionTrue (severity r t) zeroTime reason message) s).

(** Modelled from the spec: [MarkFalse] of the absent primitive: the
    named condition is set to False, and with a tracked one the aggregate
    too, since it is the conjunction of the tracked conditions. *)
Definition MarkFalse (r : ConditionSet) (t : ConditionType) (reason message : string) (s : CS) : CS :=
  let types := t :: List.flat_map (fun cond => if String.eqb cond t then [happy r] else []) (dependents r) in
  fold_left (fun s t => SetCondition (mkCondition t ConditionFalse (severity r t) zeroTime reason message) s)
    types s.

(** Modelled from the spec: the recomputation of the aggregate in
    [MarkUnknown] of the absent primitive: False when a tracked condition
    is False, Unknown otherwise, with the reason and message of the
    mark. *)
Fixpoint MarkUnknown_loop (r : ConditionSet) (t : ConditionType) (reason message : string)
    (deps : list ConditionType) (isDependent : bool) (s : CS) : CS :=
  match deps with
  | [] =>
      if isDependent
      then SetCondition (mkCondition (happy r) ConditionUnknown (severity r (happy r)) zeroTime reason message) s
      else s
  | cond :: deps' =>
      if IsFalse (GetCondition cond (fst s)) then
        if negb (IsFalse (GetCondition (happy r) (fst s)))
        then MarkFalse r (happy r) reason message s
        else s
      else MarkUnknown_loop r t reason message deps' (isDependent || String.eqb cond t) s
  end.

(** Modelled from the spec: [MarkUnknown] of the absent primitive: the
    named condition is set to Unknown with the supplied reason and
    message, then the aggregate is recomputed. *)
Definition MarkUnknown (r : ConditionSet) (t : ConditionType) (reason message : string) (s : CS) : CS :=
  MarkUnknown_loop r t reason message (dependents r) false
    (SetCondition (mkCondition t ConditionUnknown (severity r t) zeroTime reason message) s).

(** Modelled from the spec: the seeding of one tracked type in
    [InitializeConditions] of the absent primitive: a condition that is
    present is not touched. *)
Definition initializeTerminalCondition (r : ConditionSet) (t : ConditionType)
    (reason message status : string) (s : CS) : CS :=
  match GetCondition t (fst s) with
  | Some _ => s
  | None => SetCondition (mkCondition t status (severity r t) zeroTime reason message) s
  end.

(** Modelled from the spec: [InitializeConditions] of the absent
    primitive: "sets every tracked condition type not yet present to
    Unknown", the aggregate first; the others are left as they are. *)
Definition InitializeConditions (r : ConditionSet) (s : CS) : CS :=
  let s1 :=
    match GetCondition (happy r) (fst s) with
    | Some _ => s
    | None => SetCondition (mkCondition (happy r) ConditionUnknown ConditionSeverityError zeroTime "" "") s
    end in
  fold_left (fun s t => initializeTerminalCondition r t "" "" ConditionUnknown s) (dependents r) s1.

(** Modelled from the spec: [IsHappy] of the absent primitive: the
    aggregate condition is present and True. *)
Definition IsHappy (r : ConditionSet) (cs : list Condition) : bool :=
  IsTrue (GetCondition (happy r) cs).

End apis.

Module apis_manager.
Import apis.

(** Modelled from the spec: the interface [apis.ConditionManager]
    (declared outside src/), as far as this file calls it.  The reads take
    the conditions of the managed status, the writes take them together
    with the clock. *)
Record ConditionManager := mkConditionManager {
  mgr_IsHappy : list Condition -> bool;
  mgr_GetCondition : ConditionType -> list Condition -> option Condition;
  mgr_InitializeConditions : CS -> CS;
  mgr_MarkTrue : ConditionType -> CS -> CS;
  mgr_MarkTrueWithReason : ConditionType -> string -> string -> CS -> CS;
  mgr_MarkUnknown : ConditionType -> string -> string -> CS -> CS;
  mgr_MarkFalse : ConditionType -> string -> string -> CS -> CS }.

(** Modelled from the spec: [ConditionSet.Manage] of the absent
    primitive, the manager of a condition set. *)
Definition Manage (r : ConditionSet) : ConditionManager :=
  mkConditionManager (IsHappy r) GetCondition (InitializeConditions r)
    (MarkTrue r) (MarkTrueWithReason r) (MarkUnknown r) (MarkFalse r).

End apis_manager.

(** ** The types this file works on *)

Module corev1.
(** Modelled from the spec: [corev1.ObjectReference] (declared outside
    src/), the "lightweight object reference (API group/version, kind,
    name, namespace)"; the fields the file does not set keep their zero
    value and are left out. *)
Record ObjectReference := mkObjectReference {
  APIVersion : string;
  Kind : string;
  Name : string;
  Namespace : string }.
Definition zeroObjectReference := mkObjectReference "" "" "" "".
End corev1.

Module duckv1.
(** Modelled from the spec: [duckv1.Addressable] (declared outside
    src/), the "externally-reachable endpoint (URL or empty)"; its fields
    are pointers, nil as [None], and [URL_] is its field [URL]. *)
Definition URL := string.
Record Addressable := mkAddressable {
  Name : option string;
  URL_ : option URL;
  CACerts : option string;
  Audience : option string }.
Definition zeroAddressable := mkAddressable None None None None.

(** Modelled from the spec: [Status.GetCondition] of a child snapshot
    (declared outside src/): the snapshot exposes [status.conditions[]]
    and its [Ready] condition is read as an optional condition. *)
Definition Status_GetCondition (conditions : list apis.Condition) (t : apis.ConditionType)
  : option apis.Condition :=
  apis.GetCondition t conditions.
End duckv1.

Module messagingv1.
Definition SubscriptionConditionReady := apis.ConditionReady.
(** Modelled from the spec: [messagingv1.Subscription] (declared outside
    src/), a child snapshot "exposing {apiVersion, kind, name, namespace,
    status.conditions[]}". *)
Record Subscription := mkSubscription {
  APIVersion : string;
  Kind : string;
  Name : string;
  Namespace : string;
  Status_Conditions : list apis.Condition }.
End messagingv1.

Module eventingduckv1.
(** Modelled from the spec: [eventingduckv1.Channelable] (declared
    outside src/), a child snapshot like the subscription's with "an
    optional address-bearing field": the pointer [Status.Address], nil as
    [None]. *)
Record Channelable := mkChannelable {
  APIVersion : string;
  Kind : string;
  Name : string;
  Namespace : string;
  Status_Conditions : list apis.Condition;
  Status_Address : option duckv1.Addressable }.
End eventingduckv1.

Import apis apis_manager.

(** Modelled from the spec: the types of the status record (declared in
    sequence_types.go, outside src/): per child "{ref: {apiVersion, kind,
    name, namespace}, readyCondition}", and the record with its
    conditions, the two ordered sequences and the address. *)
Record SequenceSubscriptionStatus := mkSequenceSubscriptionStatus {
  Subscription : corev1.ObjectReference;
  Subscription_ReadyCondition : Condition }.

Record SequenceChannelStatus := mkSequenceChannelStatus {
  Channel : corev1.ObjectReference;
  Channel_ReadyCondition : Condition }.

Record SequenceStatus := mkSequenceStatus {
  Conditions : list Condition;
  SubscriptionStatuses : list SequenceSubscriptionStatus;
  ChannelStatuses : list SequenceChannelStatus;
  Address : duckv1.Addressable }.

(** The status of a freshly created Sequence. *)
Definition emptyStatus : SequenceStatus := mkSequenceStatus [] [] [] duckv1.zeroAddressable.

(** The receiver [ss] together with the clock. *)
Definition World := (SequenceStatus * Clock)%type.

Definition set_Conditions (cs : list Condition) (ss : SequenceStatus) : SequenceStatus :=
  mkSequenceStatus cs (SubscriptionStatuses ss) (ChannelStatuses ss) (Address ss).
Definition set_SubscriptionStatuses (l : list SequenceSubscriptionStatus) (ss : SequenceStatus) : SequenceStatus :=
  mkSequenceStatus (Conditions ss) l (ChannelStatuses ss) (Address ss).
Definition set_ChannelStatuses (l : list SequenceChannelStatus) (ss : SequenceStatus) : SequenceStatus :=
  mkSequenceStatus (Conditions ss) (SubscriptionStatuses ss) l (Address ss).
Definition set_Address (a : duckv1.Addressable) (ss : SequenceStatus) : SequenceStatus :=
  mkSequenceStatus (Conditions ss) (SubscriptionStatuses ss) (ChannelStatuses ss) a.

(** A write of the manager on the receiver: it reads the conditions of
    [ss] and stores the new collection back. *)
Definition managing (f : CS -> CS) (w : World) : World :=
  let s := f (Conditions (fst w), snd w) in
  (set_Conditions (fst s) (fst w), snd s).

Definition SequenceConditionReady : ConditionType := ConditionReady.
Definition SequenceConditionChannelsReady : ConditionType := "ChannelsReady".
Definition SequenceConditionSubscriptionsReady : ConditionType := "SubscriptionsReady".
Definition SequenceConditionAddressable : ConditionType := "Addressable".
Definition SequenceConditionOIDCIdentityCreated : ConditionType := "OIDCIdentityCreated".

Definition sCondSet : ConditionSet :=
  NewLivingConditionSet
    [SequenceConditionReady; SequenceConditionChannelsReady; SequenceConditionSubscriptionsReady;
     SequenceConditionAddressable; SequenceConditionOIDCIdentityCreated].

(** [GetConditionSet] retrieves the condition set for this resource. *)
Definition GetConditionSet : ConditionSet := sCondSet.

(** ** The operations of sequence_lifecycle.go *)

Section Lifecycle.

(** [sCondSet.Manage(ss)], the manager every operation goes through. *)
Variable sCondSet_Manage : ConditionManager.

(** [GetCondition] returns the condition currently associated with the
    given type, or nil. *)
Definition GetCondition (t : ConditionType) (ss : SequenceStatus) : option Condition :=
  mgr_GetCondition sCondSet_Manage t (Conditions ss).

(** [IsReady] returns true if the resource is ready overall. *)
Definition IsReady (ss : SequenceStatus) : bool :=
  mgr_IsHappy sCondSet_Manage (Conditions ss).

(** [InitializeConditions] sets relevant unset conditions to Unknown
    state. *)
Definition InitializeConditions (w : World) : World :=
  managing (mgr_InitializeConditions sCondSet_Manage) w.

(** The not-ready markers.  [message] is the text formatted from
    [messageFormat] and [messageA]. *)
Definition MarkChannelsNotReady (reason message : string) (w : World) : World :=
  managing (mgr_MarkUnknown sCondSet_Manage SequenceConditionChannelsReady reason message) w.

Definition MarkSubscriptionsNotReady (reason message : string) (w : World) : World :=
  managing (mgr_MarkUnknown sCondSet_Manage SequenceConditionSubscriptionsReady reason message) w.

Definition MarkAddressableNotReady (reason message : string) (w : World) : World :=
  managing (mgr_MarkUnknown sCondSet_Manage SequenceConditionAddressable reason message) w.

(** [setAddress]: a nil address or a nil URL clears [Address] and marks
    [Addressable] Unknown; otherwise the URL alone is kept and
    [Addressable] is marked True. *)
Definition setAddress (address : option duckv1.Addressable) (w : World) : World :=
  match address with
  | Some (duckv1.mkAddressable _ (Some url) _ _) =>
      managing (mgr_MarkTrue sCondSet_Manage SequenceConditionAddressable)
        (set_Address (duckv1.mkAddressable None (Some url) None None) (fst w), snd w)
  | _ =>
      managing (mgr_MarkUnknown sCondSet_Manage SequenceConditionAddressable "emptyAddress" "addressable is nil")
        (set_Address duckv1.zeroAddressable (fst w), snd w)
  end.

(** The condition stored for a child without a [Ready] condition. *)
Definition noReady (message : string) (now : Time) : Condition :=
  mkCondition ConditionReady ConditionUnknown "" now "NoReady" message.

(** The body of [for i, s := range subscriptions], from index [i] on. *)
Fixpoint PropagateSubscriptionStatuses_range (i : nat) (subscriptions : list messagingv1.Subscription)
    (allReady : bool) (w : World) : bool * World :=
  match subscriptions with
  | [] => (allReady, w)
  | s :: rest =>
      let entry :=
        mkSequenceSubscriptionStatus
          (corev1.mkObjectReference (messagingv1.APIVersion s) (messagingv1.Kind s)
             (messagingv1.Name s) (messagingv1.Namespace s))
          zeroCondition in
      let ss := set_SubscriptionStatuses (<[i := entry]> (SubscriptionStatuses (fst w))) (fst w) in
      let store (c : Condition) (ss : SequenceStatus) :=
        set_SubscriptionStatuses
          (alter (fun e => mkSequenceSubscriptionStatus (Subscription e) c) i (SubscriptionStatuses ss)) ss in
      match duckv1.Status_GetCondition (messagingv1.Status_Conditions s) messagingv1.SubscriptionConditionReady with
      | Some readyCondition =>
          PropagateSubscriptionStatuses_range (S i) rest
            (if negb (IsTrue (Some readyCondition)) then false else allReady)
            (store readyCondition ss, snd w)
      | None =>
          let (now, clk) := time_Now (snd w) in
          PropagateSubscriptionStatuses_range (S i) rest false
            (store (noReady "Subscription does not have Ready condition" now) ss, clk)
      end
  end.

(** [PropagateSubscriptionStatuses] sets the [SubscriptionStatuses] and
    [SequenceConditionSubscriptionsReady] based on the status of the
    incoming subscriptions.  The slice is made anew with the length of
    the input; the indexed writes of the loop are always in range. *)
Definition PropagateSubscriptionStatuses (subscriptions : list messagingv1.Subscription) (w : World) : World :=
  let ss :=
    set_SubscriptionStatuses
      (repeat (mkSequenceSubscriptionStatus corev1.zeroObjectReference zeroCondition) (length subscriptions))
      (fst w) in
  let allReady := true in
  let allReady := if Nat.eqb (length subscriptions) 0 then false else allReady in
  let (allReady, w) := PropagateSubscriptionStatuses_range 0 subscriptions allReady (ss, snd w) in
  if allReady
  then managing (mgr_MarkTrue sCondSet_Manage SequenceConditionSubscriptionsReady) w
  else MarkSubscriptionsNotReady "SubscriptionsNotReady" "Subscriptions are not ready yet, or there are none" w.

(** The body of [for i, c := range channels], from index [i] on. *)
Fixpoint PropagateChannelStatuses_range (i : nat) (channels : list eventingduckv1.Channelable)
    (allReady : bool) (w : World) : bool * World :=
  match channels with
  | [] => (allReady, w)
  | c :: rest =>
      let w := if Nat.eqb i 0 then setAddress (eventingduckv1.Status_Address c) w else w in
      let entry :=
        mkSequenceChannelStatus
          (corev1.mkObjectReference (eventingduckv1.APIVersion c) (eventingduckv1.Kind c)
             (eventingduckv1.Name c) (eventingduckv1.Namespace c))
          zeroCondition in
      let ss := set_ChannelStatuses (<[i := entry]> (ChannelStatuses (fst w))) (fst w) in
      let store (rc : Condition) (ss : SequenceStatus) :=
        set_ChannelStatuses
          (alter (fun e => mkSequenceChannelStatus (Channel e) rc) i (ChannelStatuses ss)) ss in
      match duckv1.Status_GetCondition (eventingduckv1.Status_Conditions c) ConditionReady with
      | Some ready =>
          PropagateChannelStatuses_range (S i) rest
            (if negb (IsTrue (Some ready)) then false else allReady)
            (store ready ss, snd w)
      | None =>
          let (now, clk) := time_Now (snd w) in
          PropagateChannelStatuses_range (S i) rest false
            (store (noReady "Channel does not have Ready condition" now) ss, clk)
      end
  end.

(** [PropagateChannelStatuses] sets the [ChannelStatuses] and
    [SequenceConditionChannelsReady] based on the status of the incoming
    channels. *)
Definition PropagateChannelStatuses (channels : list eventingduckv1.Channelable) (w : World) : World :=
  let ss :=
    set_ChannelStatuses
      (repeat (mkSequenceChannelStatus corev1.zeroObjectReference zeroCondition) (length channels))
      (fst w) in
  let allReady := true in
  let allReady := if Nat.eqb (length channels) 0 then false else allReady in
  let (allReady, w) := PropagateChannelStatuses_range 0 channels allReady (ss, snd w) in
  if allReady
  then managing (mgr_MarkTrue sCondSet_Manage SequenceConditionChannelsReady) w
  else MarkChannelsNotReady "ChannelsNotReady" "Channels are not ready yet, or there are none" w.

(** The marks of the [OIDCIdentityCreated] condition. *)
Definition MarkOIDCIdentityCreatedSucceeded (w : World) : World :=
  managing (mgr_MarkTrue sCondSet_Manage SequenceConditionOIDCIdentityCreated) w.

Definition MarkOIDCIdentityCreatedSucceededWithReason (reason message : string) (w : World) : World :=
  managing (mgr_MarkTrueWithReason sCondSet_Manage SequenceConditionOIDCIdentityCreated reason message) w.

Definition MarkOIDCIdentityCreatedFailed (reason message : string) (w : World) : World :=
  managing (mgr_MarkFalse sCondSet_Manage SequenceConditionOIDCIdentityCreated reason message) w.

Definition MarkOIDCIdentityCreatedUnknown (reason message : string) (w : World) : World :=
  managing (mgr_MarkUnknown sCondSet_Manage SequenceConditionOIDCIdentityCreated reason message) w.

(** The exported operations that change the status, as the reconciler may
    call them, in any order and any number of times. *)
Inductive Op :=
| OpInitializeConditions
| OpPropagateSubscriptionStatuses (subscriptions : list messagingv1.Subscription)
| OpPropagateChannelStatuses (channels : list eventingduckv1.Channelable)
| OpMarkChannelsNotReady (reason message : string)
| OpMarkSubscriptionsNotReady (reason message : string)
| OpMarkAddressableNotReady (reason message : string)
| OpMarkOIDCIdentityCreatedSucceeded
| OpMarkOIDCIdentityCreatedSucceededWithReason (reason message : string)
| OpMarkOIDCIdentityCreatedFailed (reason message : string)
| OpMarkOIDCIdentityCreatedUnknown (reason message : string).

Definition exec (o : Op) (w : World) : World :=
  match o with
  | OpInitializeConditions => InitializeConditions w
  | OpPropagateSubscriptionStatuses subscriptions => PropagateSubscriptionStatuses subscriptions w
  | OpPropagateChannelStatuses channels => PropagateChannelStatuses channels w
  | OpMarkChannelsNotReady reason message => MarkChannelsNotReady reason message w
  | OpMarkSubscriptionsNotReady reason message => MarkSubscriptionsNotReady reason message w
  | OpMarkAddressableNotReady reason message => MarkAddressableNotReady reason message w
  | OpMarkOIDCIdentityCreatedSucceeded => MarkOIDCIdentityCreatedSucceeded w
  | OpMarkOIDCIdentityCreatedSucceededWithReason reason message =>
      MarkOIDCIdentityCreatedSucceededWithReason reason message w
  | OpMarkOIDCIdentityCreatedFailed reason message => MarkOIDCIdentityCreatedFailed reason message w
  | OpMarkOIDCIdentityCreatedUnknown reason message => MarkOIDCIdentityCreatedUnknown reason message w
  end.

End Lifecycle.

(** The manager of the file's own condition set. *)
Definition M : ConditionManager := Manage sCondSet.

(** ** Vocabulary of the properties *)

(** The conditions of one type, in the order of the collection. *)
Definition typed (t : ConditionType) (cs : list Condition) : list Condition :=
  List.filter (fun c => String.eqb (CondType c) t) cs.

(** [c] is [cond] but for its transition time. *)
Definition matches (cond c : Condition) : bool :=
  bool_decide (withTime cond (LastTransitionTime c) = c).

(** A collection holds at most one condition of each type: the conditions
    are named.  The empty collection is of this kind and every operation
    keeps a collection so. *)
Definition wf_conditions (cs : list Condition) : Prop :=
  List.NoDup (map CondType cs).

(** The status of the condition of type [t], if there is one. *)
Definition statusOf (t : ConditionType) (cs : list Condition) : option string :=
  option_map Status (apis.GetCondition t cs).

(** The order in which [SetCondition] stores the collection. *)
Definition byType (a b : Condition) : bool := String.ltb (CondType a) (CondType b).

(** The tracked conditions of the collection have one of the three
    statuses. *)
Definition tri_state (r : ConditionSet) (cs : list Condition) : Prop :=
  forall c, In c cs -> In (CondType c) (dependents r) ->
    Status c = ConditionTrue \/ Status c = ConditionFalse \/ Status c = ConditionUnknown.

(** Every tracked condition is present with status True. *)
Definition allTrue (r : ConditionSet) (cs : list Condition) : Prop :=
  forall t, In t (dependents r) -> statusOf t cs = Some ConditionTrue.

(** What a function on the managed state may touch: only the conditions
    of the types [ts]; and it keeps the conditions named. *)
Definition touches_only (ts : list ConditionType) (f : CS -> CS) : Prop :=
  forall s t', ~ In t' ts -> typed t' (fst (f s)) = typed t' (fst s).

Definition keeps_wf (f : CS -> CS) : Prop :=
  forall s, wf_conditions (fst s) -> wf_conditions (fst (f s)).

(** The condition that [MarkFalse] sets for the type [t]. *)
Definition falseCondition (r : ConditionSet) (reason message : string) (t : ConditionType) : Condition :=
  mkCondition t ConditionFalse (severity r t) zeroTime reason message.

(** The conditions that the marks set for the type [t]. *)
Definition unknownCondition (r : ConditionSet) (reason message : string) (t : ConditionType) : Condition :=
  mkCondition t ConditionUnknown (severity r t) zeroTime reason message.

Definition trueCondition (r : ConditionSet) (reason message : string) (t : ConditionType) : Condition :=
  mkCondition t ConditionTrue (severity r t) zeroTime reason message.

(** The condition with which [InitializeConditions] seeds the type [t]. *)
Definition seedCondition (r : ConditionSet) (status : string) (t : ConditionType) : Condition :=
  mkCondition t status (severity r t) zeroTime "" "".

(** The invariant of the managed collection: the conditions are named,
    the tracked ones are tri-state, and the aggregate is True exactly when
    every tracked condition is. *)
Definition Inv (r : ConditionSet) (cs : list Condition) : Prop :=
  wf_conditions cs /\ tri_state r cs /\ (IsHappy r cs = true <-> allTrue r cs).

(** The first step of [InitializeConditions]: the aggregate is seeded
    Unknown when it is not present. *)
Definition seedHappy (r : ConditionSet) (s : CS) : CS :=
  match apis.GetCondition (happy r) (fst s) with
  | Some _ => s
  | None => SetCondition (mkCondition (happy r) ConditionUnknown ConditionSeverityError zeroTime "" "") s
  end.

(** The object reference and the [Ready] condition read off a child
    snapshot, and the entries that the loops store for a list of
    snapshots: the condition of a child that has one, a [noReady]
    condition stamped with the next reading of the clock otherwise. *)
Definition subscriptionRef (s : messagingv1.Subscription) : corev1.ObjectReference :=
  corev1.mkObjectReference (messagingv1.APIVersion s) (messagingv1.Kind s)
    (messagingv1.Name s) (messagingv1.Namespace s).

Definition subscriptionReady (s : messagingv1.Subscription) : option Condition :=
  duckv1.Status_GetCondition (messagingv1.Status_Conditions s) messagingv1.SubscriptionConditionReady.

Fixpoint subscriptionEntries (subscriptions : list messagingv1.Subscription) (clk : Clock)
  : list SequenceSubscriptionStatus * Clock :=
  match subscriptions with
  | [] => ([], clk)
  | s :: rest =>
      match subscriptionReady s with
      | Some rc =>
          let (es, clk') := subscriptionEntries rest clk in
          (mkSequenceSubscriptionStatus (subscriptionRef s) rc :: es, clk')
      | None =>
          let (es, clk') := subscriptionEntries rest (snd (time_Now clk)) in
          (mkSequenceSubscriptionStatus (subscriptionRef s)
             (noReady "Subscription does not have Ready condition" (fst (time_Now clk))) :: es, clk')
      end
  end.

Definition channelRef (c : eventingduckv1.Channelable) : corev1.ObjectReference :=
  corev1.mkObjectReference (eventingduckv1.APIVersion c) (eventingduckv1.Kind c)
    (eventingduckv1.Name c) (eventingduckv1.Namespace c).

Definition channelReady (c : eventingduckv1.Channelable) : option Condition :=
  duckv1.Status_GetCondition (eventingduckv1.Status_Conditions c) ConditionReady.

Fixpoint channelEntries (channels : list eventingduckv1.Channelable) (clk : Clock)
  : list SequenceChannelStatus * Clock :=
  match channels with
  | [] => ([], clk)
  | c :: rest =>
      match channelReady c with
      | Some rc =>
          let (es, clk') := channelEntries rest clk in
          (mkSequenceChannelStatus (channelRef c) rc :: es, clk')
      | None =>
          let (es, clk') := channelEntries rest (snd (time_Now clk)) in
          (mkSequenceChannelStatus (channelRef c)
             (noReady "Channel does not have Ready condition" (fst (time_Now clk))) :: es, clk')
      end
  end.

(** The verdict of the loops: there is a child and every child has a
    [Ready] condition that is True. *)
Definition subscriptionsAllReady (subscriptions : list messagingv1.Subscription) : bool :=
  negb (Nat.eqb (length subscriptions) 0)
  && forallb (fun s => IsTrue (subscriptionReady s)) subscriptions.

Definition channelsAllReady (channels : list eventingduckv1.Channelable) : bool :=
  negb (Nat.eqb (length channels) 0)
  && forallb (fun c => IsTrue (channelReady c)) channels.

(** An entry of the per-child statuses mirrors a snapshot: it carries the
    snapshot's object reference and its [Ready] condition, or the
    [noReady] condition stamped with some reading of the clock. *)
Definition mirrors_subscription (s : messagingv1.Subscription) (e : SequenceSubscriptionStatus) : Prop :=
  Subscription e = subscriptionRef s /\
  match subscriptionReady s with
  | Some rc => Subscription_ReadyCondition e = rc
  | None => exists tm, Subscription_ReadyCondition e
                       = noReady "Subscription does not have Ready condition" tm
  end.

Definition mirrors_channel (c : eventingduckv1.Channelable) (e : SequenceChannelStatus) : Prop :=
  Channel e = channelRef c /\
  match channelReady c with
  | Some rc => Channel_ReadyCondition e = rc
  | None => exists tm, Channel_ReadyCondition e
                       = noReady "Channel does not have Ready condition" tm
  end.

(** The mark with which a propagation operation ends, and the mark of
    [setAddress], on the managed state. *)
Definition finalMark (t : ConditionType) (reason message : string) (allReady : bool) : CS -> CS :=
  if allReady then MarkTrue sCondSet t else MarkUnknown sCondSet t reason message.

Definition addressMark (address : option duckv1.Addressable) : CS -> CS :=
  match address with
  | Some (duckv1.mkAddressable _ (Some _) _ _) => MarkTrue sCondSet SequenceConditionAddressable
  | _ => MarkUnknown sCondSet SequenceConditionAddressable "emptyAddress" "addressable is nil"
  end.

(** The address that [setAddress] stores. *)
Definition derivedAddress (address : option duckv1.Addressable) : duckv1.Addressable :=
  match address with
  | Some (duckv1.mkAddressable _ (Some url) _ _) => duckv1.mkAddressable None (Some url) None None
  | _ => duckv1.zeroAddressable
  end.

(** The states of a status record in its life: created empty, then
    changed by the exported operations only, at any readings of the
    clock. *)
Inductive reachable : World -> Prop :=
| reachable_fresh (clk : Clock) : reachable (emptyStatus, clk)
| reachable_exec (o : Op) (w : World) : reachable w -> reachable (exec M o w).

(** The four tracked sub-conditions. *)
Definition tracked : list ConditionType :=
  [SequenceConditionChannelsReady; SequenceConditionSubscriptionsReady;
   SequenceConditionAddressable; SequenceConditionOIDCIdentityCreated].


(** Two entries of the per-child statuses that differ in the transition
    time of their condition at most. *)
Definition same_subscription_entry (e1 e2 : SequenceSubscriptionStatus) : Prop :=
  Subscription e1 = Subscription e2 /\
  withTime (Subscription_ReadyCondition e1) (LastTransitionTime (Subscription_ReadyCondition e2))
  = Subscription_ReadyCondition e2.

Definition same_channel_entry (e1 e2 : SequenceChannelStatus) : Prop :=
  Channel e1 = Channel e2 /\
  withTime (Channel_ReadyCondition e1) (LastTransitionTime (Channel_ReadyCondition e2))
  = Channel_ReadyCondition e2.

(** The clock that reads [n], [n+1], ... *)
Definition ticking (n : Z) : Clock := fun k => (n + Z.of_nat k)%Z.

(** The shape of the marks of a tracked type: a set of the condition
    [cond], then writes of the aggregate only. *)
Definition mark_of (cond : Condition) (f : CS -> CS) : Prop :=
  exists h, touches_only [happy sCondSet] h /\ forall s, f s = h (SetCondition cond s).

(** The conditions that the final mark and the mark of [setAddress]
    set. *)
Definition finalCondition (t : ConditionType) (reason message : string) (allReady : bool) : Condition :=
  if allReady then trueCondition sCondSet "" "" t else unknownCondition sCondSet reason message t.

Definition addressCondition (address : option duckv1.Addressable) : Condition :=
  match address with
  | Some (duckv1.mkAddressable _ (Some _) _ _) =>
      trueCondition sCondSet "" "" SequenceConditionAddressable
  | _ => unknownCondition sCondSet "emptyAddress" "addressable is nil" SequenceConditionAddressable
  end.

(** ** A Sequence of two steps, for the examples *)

Definition readyIs (status : string) : list Condition :=
  [mkCondition ConditionReady status "" 5%Z "" ""].

Definition stepChannel (name : string) (conditions : list Condition)
    (address : option duckv1.Addressable) : eventingduckv1.Channelable :=
  eventingduckv1.mkChannelable "messaging.knative.dev/v1" "InMemoryChannel" name "default"
    conditions address.

Definition stepSubscription (name : string) (conditions : list Condition) : messagingv1.Subscription :=
  messagingv1.mkSubscription "messaging.knative.dev/v1" "Subscription" name "default" conditions.

Definition addressAt (url : string) : option duckv1.Addressable :=
  Some (duckv1.mkAddressable (Some "entry") (Some url) None None).

Definition readyChannels : list eventingduckv1.Channelable :=
  [stepChannel "step-0" (readyIs ConditionTrue) (addressAt "http://step-0.default.svc");
   stepChannel "step-1" (readyIs ConditionTrue) None].

Definition readySubscriptions : list messagingv1.Subscription :=
  [stepSubscription "step-0" (readyIs ConditionTrue);
   stepSubscription "step-1" (readyIs ConditionTrue)].

Definition oneFailedChannels : list eventingduckv1.Channelable :=
  [stepChannel "step-0" (readyIs ConditionTrue) (addressAt "http://step-0.default.svc");
   stepChannel "step-1" (readyIs ConditionFalse) None].

Definition oneFailedSubscriptions : list messagingv1.Subscription :=
  [stepSubscription "step-0" (readyIs ConditionFalse);
   stepSubscription "step-1" (readyIs ConditionTrue)].

(** A status record after [InitializeConditions], the clock reading 100,
    101, ... *)
Definition initialized : World := InitializeConditions M (emptyStatus, ticking 100).

(** The record after a full reconciliation pass over ready children. *)
Definition reconciled : World :=
  exec M OpMarkOIDCIdentityCreatedSucceeded
    (exec M (OpPropagateSubscriptionStatuses readySubscriptions)
       (exec M (OpPropagateChannelStatuses readyChannels)
          (exec M OpInitializeConditions (emptyStatus, ticking 100)))).

(** The five types the condition set declares: the aggregate and the
    four tracked ones. *)
Definition declared : list ConditionType := SequenceConditionReady :: tracked.

(** The coherence of a status record: the conditions are named, an
    [Addressable] condition that is True comes with an address that has a
    URL, and an aggregate condition that is True comes with per-child
    statuses, at least one, whose ready conditions are all True. *)
Definition Coherent (ss : SequenceStatus) : Prop :=
  wf_conditions (Conditions ss) /\
  (statusOf SequenceConditionAddressable (Conditions ss) = Some ConditionTrue ->
   duckv1.URL_ (Address ss) <> None) /\
  (statusOf SequenceConditionChannelsReady (Conditions ss) = Some ConditionTrue ->
   ChannelStatuses ss <> [] /\
   Forall (fun e => Status (Channel_ReadyCondition e) = ConditionTrue) (ChannelStatuses ss)) /\
  (statusOf SequenceConditionSubscriptionsReady (Conditions ss) = Some ConditionTrue ->
   SubscriptionStatuses ss <> [] /\
   Forall (fun e => Status (Subscription_ReadyCondition e) = ConditionTrue) (SubscriptionStatuses ss)).

(** Some tracked condition is False; and the aggregate is False exactly
    in that case. *)
Definition someFalse (cs : list Condition) : Prop :=
  exists t, In t tracked /\ statusOf t cs = Some ConditionFalse.

Definition FalseIffFailed (cs : list Condition) : Prop :=
  statusOf SequenceConditionReady cs = Some ConditionFalse <-> someFalse cs.

(** A condition read from the record, its transition time set aside. *)
Definition untimed (c : option Condition) : option Condition :=
  option_map (fun c => withTime c zeroTime) c.

(** The part of a record that its manager works on: the conditions,
    with the clock. *)
Definition managed (w : World) : CS := (Conditions (fst w), snd w).

(** [by_manager m s s']: the conditions and the clock [s'] come from [s]
    by writes of the manager [m] on types other than [Ready] and by
    readings of the clock, and by nothing else.  The manager is any
    implementation of the interface, with its own reads and writes. *)
Inductive by_manager (m : ConditionManager) (s : CS) : CS -> Prop :=
| by_manager_refl : by_manager m s s
| by_manager_Now (s' : CS) :
    by_manager m s s' -> by_manager m s (fst s', snd (time_Now (snd s')))
| by_manager_InitializeConditions (s' : CS) :
    by_manager m s s' -> by_manager m s (mgr_InitializeConditions m s')
| by_manager_MarkTrue (t : ConditionType) (s' : CS) :
    t <> SequenceConditionReady ->
    by_manager m s s' -> by_manager m s (mgr_MarkTrue m t s')
| by_manager_MarkTrueWithReason (t : ConditionType) (reason message : string) (s' : CS) :
    t <> SequenceConditionReady ->
    by_manager m s s' -> by_manager m s (mgr_MarkTrueWithReason m t reason message s')
| by_manager_MarkUnknown (t : ConditionType) (reason message : string) (s' : CS) :
    t <> SequenceConditionReady ->
    by_manager m s s' -> by_manager m s (mgr_MarkUnknown m t reason message s')
| by_manager_MarkFalse (t : ConditionType) (reason message : string) (s' : CS) :
    t <> SequenceConditionReady ->
    by_manager m s s' -> by_manager m s (mgr_MarkFalse m t reason message s').

(** * Properties *)

(** ** The insertion sort *)

Section Sorting.
Context {A : Type} (less : A -> A -> bool).

Lemma bubble_perm (x : A) (l : list A) : Permutation (bubble less x l) (x :: l).
Proof.
  induction l as [|y l IH]; simpl; [reflexivity|].
  destruct (less x y); [|reflexivity].
  rewrite IH. apply perm_swap.
Qed.

Lemma sort_Slice_perm (l : list A) : Permutation (sort_Slice less l) l.
Proof.
  unfold sort_Slice.
  assert (H : forall acc, Permutation (fold_left (fun rp x => bubble less x rp) l acc) (rev l ++ acc)).
  { induction l as [|x l IH]; intros acc; simpl; [reflexivity|].
    rewrite IH, bubble_perm, <- app_assoc. reflexivity. }
  rewrite <- Permutation_rev, H, app_nil_r. symmetry. apply Permutation_rev.
Qed.

(** An element only moves in front of elements it is [less] than: a class
    of elements that are never [less] than one another keeps its order. *)
Lemma bubble_filter (p : A -> bool) (x : A) (l : list A) :
  (forall a b, less a b = true -> p a = true -> p b = true -> False) ->
  List.filter p (rev (bubble less x l)) = List.filter p (rev l) ++ List.filter p [x].
Proof.
  intros Hp. induction l as [|y l IH]; simpl; [reflexivity|].
  destruct (less x y) eqn:E; simpl.
  - rewrite !List.filter_app, IH. simpl.
    destruct (p x) eqn:Ex, (p y) eqn:Ey; simpl; rewrite ?app_nil_r; try reflexivity.
    destruct (Hp _ _ E Ex Ey).
  - rewrite !List.filter_app. simpl. rewrite <- !app_assoc. reflexivity.
Qed.

Lemma sort_Slice_filter (p : A -> bool) (l : list A) :
  (forall a b, less a b = true -> p a = true -> p b = true -> False) ->
  List.filter p (sort_Slice less l) = List.filter p l.
Proof.
  intros Hp. unfold sort_Slice.
  assert (H : forall acc,
    List.filter p (rev (fold_left (fun rp x => bubble less x rp) l acc))
    = List.filter p (rev acc) ++ List.filter p l).
  { induction l as [|x l IH]; intros acc; [simpl; now rewrite app_nil_r|].
    cbn [fold_left]. change (x :: l) with ([x] ++ l).
    rewrite IH, bubble_filter, (List.filter_app p [x] l), <- app_assoc by exact Hp.
    reflexivity. }
  apply H.
Qed.

End Sorting.

(** ** The condition collection *)

Lemma GetCondition_typed (t : ConditionType) (cs : list Condition) :
  apis.GetCondition t cs = head (typed t cs).
Proof.
  unfold apis.GetCondition, typed.
  induction cs as [|c cs IH]; simpl; [reflexivity|].
  destruct (String.eqb (CondType c) t); [reflexivity | exact IH].
Qed.

Lemma matches_type (cond c : Condition) : matches cond c = true -> CondType c = CondType cond.
Proof.
  unfold matches. intros H. apply bool_decide_eq_true in H. rewrite <- H. reflexivity.
Qed.

Lemma matches_eq (cond c : Condition) :
  matches cond c = true -> c = withTime cond (LastTransitionTime c).
Proof. unfold matches. intros H. apply bool_decide_eq_true in H. now symmetry. Qed.


Lemma SetCondition_scan_spec (cond : Condition) (cs kept : list Condition) :
  SetCondition_scan cond cs kept =
  if existsb (matches cond) cs then None
  else Some (kept ++ List.filter (fun c => negb (String.eqb (CondType c) (CondType cond))) cs).
Proof.
  revert kept. induction cs as [|c cs IH]; intros kept; simpl.
  - now rewrite app_nil_r.
  - destruct (String.eqb (CondType c) (CondType cond)) eqn:E; simpl.
    + fold (matches cond c). destruct (matches cond c); simpl; [reflexivity | apply IH].
    + assert (matches cond c = false) as ->.
      { destruct (matches cond c) eqn:Em; [|reflexivity].
        apply matches_type in Em. rewrite Em, String.eqb_refl in E. discriminate. }
      simpl. rewrite IH, <- app_assoc. reflexivity.
Qed.

Lemma SetCondition_spec (cond : Condition) (s : CS) :
  SetCondition cond s =
  if existsb (matches cond) (fst s) then s
  else (sort_Slice byType
          (List.filter (fun c => negb (String.eqb (CondType c) (CondType cond))) (fst s)
           ++ [withTime cond (snd s 0)]),
        fun n => snd s (S n)).
Proof.
  unfold SetCondition. rewrite SetCondition_scan_spec.
  destruct (existsb (matches cond) (fst s)); reflexivity.
Qed.

Lemma ltb_irrefl (a : string) : String.ltb a a = false.
Proof.
  unfold String.ltb. assert (String.compare a a = Eq) as ->; [|reflexivity].
  induction a as [|x a IH]; simpl; [reflexivity|].
  unfold Ascii.compare. now rewrite N.compare_refl.
Qed.

Lemma typed_sort (t : ConditionType) (cs : list Condition) :
  typed t (sort_Slice byType cs) = typed t cs.
Proof.
  apply sort_Slice_filter. intros a b Hlt Ha Hb.
  apply String.eqb_eq in Ha, Hb. unfold byType in Hlt.
  rewrite Ha, Hb, ltb_irrefl in Hlt. discriminate.
Qed.

Lemma typed_filter_other (t t' : ConditionType) (cs : list Condition) :
  t' <> t ->
  typed t' (List.filter (fun c => negb (String.eqb (CondType c) t)) cs) = typed t' cs.
Proof.
  intros Hne. unfold typed. induction cs as [|c cs IH]; simpl; [reflexivity|].
  destruct (String.eqb (CondType c) t) eqn:E; simpl.
  - apply String.eqb_eq in E.
    assert (String.eqb (CondType c) t' = false) as -> by (apply String.eqb_neq; congruence).
    exact IH.
  - destruct (String.eqb (CondType c) t'); [f_equal|]; exact IH.
Qed.

Lemma typed_filter_same (t : ConditionType) (cs : list Condition) :
  typed t (List.filter (fun c => negb (String.eqb (CondType c) t)) cs) = [].
Proof.
  unfold typed. induction cs as [|c cs IH]; simpl; [reflexivity|].
  destruct (String.eqb (CondType c) t) eqn:E; simpl; [exact IH|].
  rewrite E. exact IH.
Qed.

(** Setting a condition leaves the conditions of every other type as
    they are. *)
Lemma SetCondition_typed_other (cond : Condition) (s : CS) (t' : ConditionType) :
  t' <> CondType cond ->
  typed t' (fst (SetCondition cond s)) = typed t' (fst s).
Proof.
  intros Hne. rewrite SetCondition_spec.
  destruct (existsb (matches cond) (fst s)); [reflexivity|]. cbn [fst].
  rewrite typed_sort. unfold typed at 1. rewrite List.filter_app.
  fold (typed t' (List.filter (fun c => negb (String.eqb (CondType c) (CondType cond))) (fst s))).
  rewrite typed_filter_other by exact Hne. simpl.
  assert (String.eqb (CondType cond) t' = false) as -> by (apply String.eqb_neq; congruence).
  apply app_nil_r.
Qed.

(** After a set the collection holds a condition that is the one set, but
    for its transition time; either nothing changed or it is the only one
    of its type. *)
Lemma SetCondition_typed_same (cond : Condition) (s : CS) :
  (SetCondition cond s = s /\ exists c, In c (fst s) /\ matches cond c = true) \/
  typed (CondType cond) (fst (SetCondition cond s)) = [withTime cond (snd s 0)].
Proof.
  rewrite SetCondition_spec.
  destruct (existsb (matches cond) (fst s)) eqn:E.
  - left. split; [reflexivity|]. apply existsb_exists in E. exact E.
  - right. cbn [fst]. rewrite typed_sort. unfold typed at 1. rewrite List.filter_app.
    fold (typed (CondType cond)
            (List.filter (fun c => negb (String.eqb (CondType c) (CondType cond))) (fst s))).
    rewrite typed_filter_same. simpl. now rewrite String.eqb_refl.
Qed.

Lemma typed_In (t : ConditionType) (cs : list Condition) (c : Condition) :
  In c (typed t cs) <-> In c cs /\ CondType c = t.
Proof. unfold typed. rewrite List.filter_In, String.eqb_eq. reflexivity. Qed.

Lemma wf_typed (cs : list Condition) (c : Condition) :
  wf_conditions cs -> In c cs -> typed (CondType c) cs = [c].
Proof.
  unfold wf_conditions, typed. induction cs as [|a cs IH]; simpl; [tauto|].
  intros Hnd Hin. apply List.NoDup_cons_iff in Hnd as [Hnotin Hnd].
  destruct Hin as [->|Hin].
  - rewrite String.eqb_refl. f_equal.
    destruct (List.filter (fun c0 => String.eqb (CondType c0) (CondType c)) cs) as [|b l] eqn:E;
      [reflexivity|].
    exfalso. apply Hnotin.
    assert (Hb : In b (List.filter (fun c0 => String.eqb (CondType c0) (CondType c)) cs))
      by (rewrite E; now left).
    apply List.filter_In in Hb as [Hb Ht]. apply String.eqb_eq in Ht. rewrite <- Ht.
    now apply in_map.
  - assert (String.eqb (CondType a) (CondType c) = false) as ->.
    { apply String.eqb_neq. intros Heq. apply Hnotin. rewrite Heq. now apply in_map. }
    now apply IH.
Qed.

Lemma wf_GetCondition (cs : list Condition) (c : Condition) :
  wf_conditions cs -> In c cs -> apis.GetCondition (CondType c) cs = Some c.
Proof. intros Hwf Hin. rewrite GetCondition_typed, wf_typed by assumption. reflexivity. Qed.

Lemma GetCondition_In (t : ConditionType) (cs : list Condition) (c : Condition) :
  apis.GetCondition t cs = Some c -> In c cs /\ CondType c = t.
Proof.
  unfold apis.GetCondition. intros H. apply List.find_some in H as [Hin Ht].
  apply String.eqb_eq in Ht. now split.
Qed.

Lemma GetCondition_None (t : ConditionType) (cs : list Condition) (c : Condition) :
  apis.GetCondition t cs = None -> In c cs -> CondType c <> t.
Proof.
  unfold apis.GetCondition. intros H Hin Ht.
  apply (List.find_none _ _ H) in Hin. apply String.eqb_neq in Hin. contradiction.
Qed.

Lemma SetCondition_perm (cond : Condition) (s : CS) :
  SetCondition cond s = s \/
  Permutation (fst (SetCondition cond s))
    (List.filter (fun c => negb (String.eqb (CondType c) (CondType cond))) (fst s)
     ++ [withTime cond (snd s 0)]).
Proof.
  rewrite SetCondition_spec.
  destruct (existsb (matches cond) (fst s)); [now left|right].
  cbn [fst]. apply sort_Slice_perm.
Qed.

Lemma SetCondition_In (cond : Condition) (s : CS) (c : Condition) :
  In c (fst (SetCondition cond s)) ->
  In c (fst s) \/ c = withTime cond (snd s 0).
Proof.
  destruct (SetCondition_perm cond s) as [->|Hp]; [now left|].
  intros Hin. apply (Permutation_in _ Hp) in Hin.
  apply in_app_or in Hin as [Hin|[<-|[]]]; [|now right].
  apply List.filter_In in Hin as [Hin _]. now left.
Qed.

Lemma SetCondition_wf (cond : Condition) (s : CS) :
  wf_conditions (fst s) -> wf_conditions (fst (SetCondition cond s)).
Proof.
  intros Hwf. destruct (SetCondition_perm cond s) as [->|Hp]; [exact Hwf|].
  unfold wf_conditions in *.
  apply (Permutation_NoDup (l := map CondType
    (List.filter (fun c => negb (String.eqb (CondType c) (CondType cond))) (fst s)
     ++ [withTime cond (snd s 0)]))).
  { symmetry. now apply Permutation_map. }
  rewrite map_app. simpl. apply List.NoDup_app; [| |].
  - clear Hp. induction (fst s) as [|a l IH]; simpl; [constructor|].
    apply List.NoDup_cons_iff in Hwf as [Hnotin Hwf].
    destruct (negb (String.eqb (CondType a) (CondType cond))); [|now apply IH].
    simpl. constructor; [|now apply IH].
    intros Hin. apply Hnotin. apply in_map_iff in Hin as (x & Hx & Hin).
    apply List.filter_In in Hin as [Hin _]. apply in_map_iff. eauto.
  - constructor; [intros []|constructor].
  - intros t Hin [<-|[]]. apply in_map_iff in Hin as (x & Hx & Hin).
    apply List.filter_In in Hin as [_ Hne]. apply negb_true_iff, String.eqb_neq in Hne.
    contradiction.
Qed.

(** With named conditions, the condition read back after a set is the one
    set, stamped with some time. *)
Lemma SetCondition_get_same (cond : Condition) (s : CS) :
  wf_conditions (fst s) ->
  exists tm, apis.GetCondition (CondType cond) (fst (SetCondition cond s)) = Some (withTime cond tm).
Proof.
  intros Hwf. destruct (SetCondition_typed_same cond s) as [[-> (c & Hin & Hm)]|Ht].
  - exists (LastTransitionTime c). rewrite <- (matches_type _ _ Hm).
    rewrite (wf_GetCondition _ _ Hwf Hin). f_equal. now apply matches_eq.
  - eexists. rewrite GetCondition_typed, Ht. reflexivity.
Qed.

Lemma SetCondition_get_other (cond : Condition) (s : CS) (t' : ConditionType) :
  t' <> CondType cond ->
  apis.GetCondition t' (fst (SetCondition cond s)) = apis.GetCondition t' (fst s).
Proof. intros Hne. now rewrite !GetCondition_typed, SetCondition_typed_other. Qed.

(** ** The marks *)

Section ManagerFacts.
Variable r : ConditionSet.
Hypothesis happy_not_dependent : ~ In (happy r) (dependents r).
Hypothesis dependents_NoDup : List.NoDup (dependents r).
Hypothesis dependents_nonempty : dependents r <> [].

Lemma touches_only_id (ts : list ConditionType) : touches_only ts (fun s => s).
Proof. intros s t' _. reflexivity. Qed.

Lemma touches_only_comp (ts : list ConditionType) (f g : CS -> CS) :
  touches_only ts f -> touches_only ts g -> touches_only ts (fun s => g (f s)).
Proof. intros Hf Hg s t' Hn. now rewrite Hg, Hf. Qed.

Lemma touches_only_mono (ts ts' : list ConditionType) (f : CS -> CS) :
  incl ts ts' -> touches_only ts f -> touches_only ts' f.
Proof. intros Hi Hf s t' Hn. apply Hf. intros Hin. apply Hn, Hi, Hin. Qed.

Lemma SetCondition_touches (cond : Condition) : touches_only [CondType cond] (SetCondition cond).
Proof.
  intros s t' Hn. apply SetCondition_typed_other. intros ->. apply Hn. now left.
Qed.

Lemma isTerminal_dependent (c : Condition) :
  isTerminal r (CondType c) && negb (String.eqb (CondType c) (happy r)) = true
  <-> In (CondType c) (dependents r).
Proof.
  unfold isTerminal. split.
  - intros H. apply andb_true_iff in H as [H1 H2].
    apply negb_true_iff in H2. rewrite H2, orb_false_r in H1.
    apply existsb_exists in H1 as (x & Hin & Hx). apply String.eqb_eq in Hx. now subst.
  - intros Hin. apply andb_true_iff. split.
    + apply orb_true_iff. left. apply existsb_exists. eexists. split; [exact Hin|].
      apply String.eqb_refl.
    + apply negb_true_iff, String.eqb_neq. intros Heq. apply happy_not_dependent.
      now rewrite <- Heq.
Qed.

Lemma findUnhappyDependent_status (cs : list Condition) (c : Condition) :
  findUnhappyDependent r cs = Some c ->
  Status c = ConditionFalse \/ Status c = ConditionUnknown.
Proof.
  unfold findUnhappyDependent.
  destruct (Nat.eqb (length (dependents r)) 0); [discriminate|].
  set (conditions := sort_Slice _ _).
  destruct (List.find (fun c => IsFalse (Some c)) conditions) as [c1|] eqn:E1.
  { intros [= <-]. apply List.find_some in E1 as [_ E1]. left. now apply String.eqb_eq in E1. }
  destruct (List.find (fun c => IsUnknown (Some c)) conditions) as [c2|] eqn:E2.
  { intros [= <-]. apply List.find_some in E2 as [_ E2]. right. now apply String.eqb_eq in E2. }
  destruct (Nat.ltb (length conditions) (length (dependents r))); [|discriminate].
  intros [= <-]. now right.
Qed.

Lemma findUnhappyDependent_None (cs : list Condition) :
  wf_conditions cs -> tri_state r cs ->
  findUnhappyDependent r cs = None -> allTrue r cs.
Proof.
  intros Hwf Htri. unfold findUnhappyDependent.
  destruct (Nat.eqb (length (dependents r)) 0) eqn:E0.
  { apply Nat.eqb_eq in E0. destruct (dependents r); [congruence|discriminate]. }
  set (D := List.filter _ cs). set (conditions := sort_Slice _ D).
  assert (Hperm : Permutation conditions D) by apply sort_Slice_perm.
  destruct (List.find (fun c => IsFalse (Some c)) conditions) eqn:E1; [discriminate|].
  destruct (List.find (fun c => IsUnknown (Some c)) conditions) eqn:E2; [discriminate|].
  destruct (Nat.ltb (length conditions) (length (dependents r))) eqn:E3; [discriminate|].
  intros _ t Ht. apply Nat.ltb_ge in E3. rewrite (Permutation_length Hperm) in E3.
  assert (HD : forall c, In c D <-> In c cs /\ In (CondType c) (dependents r)).
  { intros c. unfold D. rewrite List.filter_In, isTerminal_dependent. reflexivity. }
  assert (Hnd : List.NoDup (map CondType D)).
  { unfold D. clear -Hwf. unfold wf_conditions in Hwf.
    induction cs as [|a l IH]; simpl; [constructor|].
    apply List.NoDup_cons_iff in Hwf as [Hn Hwf].
    destruct (_ && _); [|now apply IH]. simpl. constructor; [|now apply IH].
    intros Hin. apply Hn. apply in_map_iff in Hin as (x & Hx & Hin).
    apply List.filter_In in Hin as [Hin _]. apply in_map_iff. eauto. }
  assert (Hincl : incl (dependents r) (map CondType D)).
  { apply List.NoDup_length_incl; [exact Hnd | now rewrite length_map |].
    intros x Hx. apply in_map_iff in Hx as (c & <- & Hc). now apply HD in Hc. }
  apply Hincl in Ht. apply in_map_iff in Ht as (c & <- & Hc).
  pose proof (proj1 (HD c) Hc) as [Hin Hdep].
  unfold statusOf. rewrite (wf_GetCondition _ _ Hwf Hin). simpl. f_equal.
  assert (Hc' : In c conditions) by (now apply (Permutation_in _ (Permutation_sym Hperm))).
  pose proof (List.find_none _ _ E1 _ Hc') as N1. pose proof (List.find_none _ _ E2 _ Hc') as N2.
  simpl in N1, N2. apply String.eqb_neq in N1, N2.
  destruct (Htri c Hin Hdep) as [H|[H|H]]; [exact H|contradiction|contradiction].
Qed.

Lemma findUnhappyDependent_Some (cs : list Condition) (c : Condition) :
  wf_conditions cs ->
  findUnhappyDependent r cs = Some c -> ~ allTrue r cs.
Proof.
  intros Hwf Hf Hall. unfold findUnhappyDependent in Hf.
  destruct (Nat.eqb (length (dependents r)) 0); [discriminate|].
  set (D := List.filter _ cs) in Hf. set (conditions := sort_Slice _ D) in Hf.
  assert (Hperm : Permutation conditions D) by apply sort_Slice_perm.
  assert (HD : forall c, In c D <-> In c cs /\ In (CondType c) (dependents r)).
  { intros x. unfold D. rewrite List.filter_In, isTerminal_dependent. reflexivity. }
  assert (Htrue : forall x, In x conditions -> Status x = ConditionTrue).
  { intros x Hx. apply (Permutation_in _ Hperm), HD in Hx as [Hin Hdep].
    specialize (Hall _ Hdep). unfold statusOf in Hall.
    rewrite (wf_GetCondition _ _ Hwf Hin) in Hall. now injection Hall. }
  destruct (List.find (fun c => IsFalse (Some c)) conditions) as [c1|] eqn:E1.
  { apply List.find_some in E1 as [Hin E1]. simpl in E1. rewrite (Htrue _ Hin) in E1. discriminate. }
  destruct (List.find (fun c => IsUnknown (Some c)) conditions) as [c2|] eqn:E2.
  { apply List.find_some in E2 as [Hin E2]. simpl in E2. rewrite (Htrue _ Hin) in E2. discriminate. }
  destruct (Nat.ltb (length conditions) (length (dependents r))) eqn:E3; [|discriminate].
  apply Nat.ltb_lt in E3. rewrite (Permutation_length Hperm) in E3.
  assert (Hincl : incl (dependents r) (map CondType D)).
  { intros t Ht. specialize (Hall _ Ht). unfold statusOf in Hall.
    destruct (apis.GetCondition t cs) as [x|] eqn:Eg; [|discriminate].
    apply GetCondition_In in Eg as [Hin <-]. apply in_map. apply HD. now split. }
  apply (List.NoDup_incl_length dependents_NoDup) in Hincl. rewrite length_map in Hincl. lia.
Qed.

Lemma statusOf_typed (t : ConditionType) (cs cs' : list Condition) :
  typed t cs' = typed t cs -> statusOf t cs' = statusOf t cs.
Proof. intros H. unfold statusOf. now rewrite !GetCondition_typed, H. Qed.

Lemma touches_only_dependent (ts : list ConditionType) (f : CS -> CS) (s : CS) (t : ConditionType) :
  touches_only ts f -> ~ In t ts -> statusOf t (fst (f s)) = statusOf t (fst s).
Proof. intros Hf Hn. apply statusOf_typed. now apply Hf. Qed.

Lemma touches_only_get (ts : list ConditionType) (f : CS -> CS) (s : CS) (t : ConditionType) :
  touches_only ts f -> ~ In t ts ->
  apis.GetCondition t (fst (f s)) = apis.GetCondition t (fst s).
Proof. intros Hf Hn. rewrite !GetCondition_typed. now rewrite Hf. Qed.

Lemma touches_happy_allTrue (f : CS -> CS) (s : CS) :
  touches_only [happy r] f -> (allTrue r (fst (f s)) <-> allTrue r (fst s)).
Proof.
  intros Hf. unfold allTrue.
  assert (He : forall t, In t (dependents r) -> statusOf t (fst (f s)) = statusOf t (fst s)).
  { intros t Ht. apply (touches_only_dependent _ _ _ _ Hf).
    intros [<-|[]]. contradiction. }
  split; intros H t Ht; [rewrite <- He | rewrite He]; auto.
Qed.

Lemma touches_happy_tri (f : CS -> CS) (s : CS) :
  touches_only [happy r] f -> tri_state r (fst s) -> tri_state r (fst (f s)).
Proof.
  intros Hf Htri c Hin Hdep.
  assert (Hc : In c (typed (CondType c) (fst (f s)))) by (now apply typed_In).
  rewrite Hf in Hc by (intros [Heq|[]]; apply happy_not_dependent; now rewrite Heq).
  apply typed_In in Hc as [Hc _]. now apply Htri.
Qed.

Lemma SetCondition_tri (cond : Condition) (s : CS) :
  (In (CondType cond) (dependents r) ->
   Status cond = ConditionTrue \/ Status cond = ConditionFalse \/ Status cond = ConditionUnknown) ->
  tri_state r (fst s) -> tri_state r (fst (SetCondition cond s)).
Proof.
  intros Hc Htri c Hin Hdep. apply SetCondition_In in Hin as [Hin| ->]; [now apply Htri|].
  now apply Hc.
Qed.

Lemma SetCondition_status (cond : Condition) (s : CS) :
  wf_conditions (fst s) ->
  statusOf (CondType cond) (fst (SetCondition cond s)) = Some (Status cond).
Proof.
  intros Hwf. unfold statusOf. destruct (SetCondition_get_same cond s Hwf) as [tm ->]. reflexivity.
Qed.

(** *** recomputeHappiness *)

Lemma recomputeHappiness_touches (t : ConditionType) :
  touches_only [happy r] (recomputeHappiness r t).
Proof.
  intros s t' Hn. unfold recomputeHappiness.
  destruct (findUnhappyDependent r (fst s)).
  - now apply (SetCondition_touches (mkCondition (happy r) _ _ _ _ _)).
  - destruct (negb _); [|reflexivity].
    now apply (SetCondition_touches (mkCondition (happy r) _ _ _ _ _)).
Qed.

Lemma recomputeHappiness_wf (t : ConditionType) : keeps_wf (recomputeHappiness r t).
Proof.
  intros s Hwf. unfold recomputeHappiness.
  destruct (findUnhappyDependent r (fst s)); [now apply SetCondition_wf|].
  destruct (negb _); [now apply SetCondition_wf | exact Hwf].
Qed.

Lemma recomputeHappiness_status (t : ConditionType) (s : CS) :
  wf_conditions (fst s) -> tri_state r (fst s) -> t <> happy r ->
  (statusOf (happy r) (fst (recomputeHappiness r t s)) = Some ConditionTrue /\ allTrue r (fst s)) \/
  ((statusOf (happy r) (fst (recomputeHappiness r t s)) = Some ConditionFalse \/
    statusOf (happy r) (fst (recomputeHappiness r t s)) = Some ConditionUnknown) /\
   ~ allTrue r (fst s)).
Proof.
  intros Hwf Htri Hne. unfold recomputeHappiness.
  destruct (findUnhappyDependent r (fst s)) as [c|] eqn:E.
  - right. split; [|now apply (findUnhappyDependent_Some _ _ Hwf E)].
    rewrite (SetCondition_status (mkCondition (happy r) _ _ _ _ _)) by exact Hwf. simpl.
    destruct (findUnhappyDependent_status _ _ E) as [-> | ->]; [now left | now right].
  - left. assert (negb (String.eqb t (happy r)) = true) as ->
      by now apply negb_true_iff, String.eqb_neq.
    split; [|now apply findUnhappyDependent_None].
    now rewrite (SetCondition_status (mkCondition (happy r) _ _ _ _ _)).
Qed.

(** *** MarkFalse *)

Lemma fold_SetCondition_touches (mk : ConditionType -> Condition) (ts : list ConditionType) :
  (forall t, CondType (mk t) = t) ->
  touches_only ts (fun s => fold_left (fun s t => SetCondition (mk t) s) ts s).
Proof.
  intros Hmk. induction ts as [|a ts IH]; intros s t' Hn; simpl; [reflexivity|].
  rewrite (touches_only_mono ts (a :: ts) _ (incl_tl a (incl_refl ts)) IH) by exact Hn.
  apply SetCondition_typed_other. rewrite Hmk. intros ->. apply Hn. now left.
Qed.

Lemma fold_SetCondition_wf (mk : ConditionType -> Condition) (ts : list ConditionType) :
  keeps_wf (fun s => fold_left (fun s t => SetCondition (mk t) s) ts s).
Proof.
  induction ts as [|a ts IH]; intros s Hwf; simpl; [exact Hwf|].
  apply IH. now apply SetCondition_wf.
Qed.

Lemma fold_SetCondition_get (mk : ConditionType -> Condition) (ts : list ConditionType)
    (s : CS) (x : ConditionType) :
  (forall t, CondType (mk t) = t) ->
  wf_conditions (fst s) -> In x ts ->
  exists tm, apis.GetCondition x (fst (fold_left (fun s t => SetCondition (mk t) s) ts s))
             = Some (withTime (mk x) tm).
Proof.
  intros Hmk. revert s. induction ts as [|a ts IH]; intros s Hwf Hin; [destruct Hin|]. simpl.
  destruct (in_dec string_dec x ts) as [Hx|Hx].
  - apply IH; [now apply SetCondition_wf | exact Hx].
  - destruct Hin as [->|Hin]; [|contradiction].
    rewrite (touches_only_get ts _ _ _ (fold_SetCondition_touches mk ts Hmk) Hx).
    pose proof (SetCondition_get_same (mk x) s Hwf) as H. now rewrite Hmk in H.
Qed.

Lemma MarkFalse_unfold (t : ConditionType) (reason message : string) (s : CS) :
  MarkFalse r t reason message s =
  fold_left (fun s t => SetCondition (falseCondition r reason message t) s)
    (t :: List.flat_map (fun cond => if String.eqb cond t then [happy r] else []) (dependents r)) s.
Proof. reflexivity. Qed.

Lemma MarkFalse_types (t : ConditionType) :
  incl (t :: List.flat_map (fun cond => if String.eqb cond t then [happy r] else []) (dependents r))
       [t; happy r].
Proof.
  intros x [<-|Hx]; [now left|]. apply in_flat_map in Hx as (d & _ & Hx).
  destruct (String.eqb d t); [|destruct Hx]. destruct Hx as [<-|[]]. right. now left.
Qed.

Lemma MarkFalse_touches (t : ConditionType) (reason message : string) :
  touches_only [t; happy r] (MarkFalse r t reason message).
Proof.
  eapply touches_only_mono; [apply MarkFalse_types|].
  apply (fold_SetCondition_touches (falseCondition r reason message)). reflexivity.
Qed.

Lemma MarkFalse_wf (t : ConditionType) (reason message : string) :
  keeps_wf (MarkFalse r t reason message).
Proof. apply (fold_SetCondition_wf (falseCondition r reason message)). Qed.

Lemma MarkFalse_get (t : ConditionType) (reason message : string) (s : CS) :
  wf_conditions (fst s) ->
  exists tm, apis.GetCondition t (fst (MarkFalse r t reason message s))
             = Some (withTime (falseCondition r reason message t) tm).
Proof.
  intros Hwf. rewrite MarkFalse_unfold.
  apply (fold_SetCondition_get (falseCondition r reason message)); [reflexivity|exact Hwf|now left].
Qed.

Lemma MarkFalse_happy (t : ConditionType) (reason message : string) (s : CS) :
  wf_conditions (fst s) -> In t (dependents r) ->
  statusOf (happy r) (fst (MarkFalse r t reason message s)) = Some ConditionFalse.
Proof.
  intros Hwf Ht. rewrite MarkFalse_unfold. unfold statusOf.
  destruct (fold_SetCondition_get (falseCondition r reason message)
              (t :: List.flat_map (fun cond => if String.eqb cond t then [happy r] else []) (dependents r))
              s (happy r)) as [tm ->]; [reflexivity|exact Hwf| |reflexivity].
  right. apply in_flat_map. exists t. split; [exact Ht|]. rewrite String.eqb_refl. now left.
Qed.

(** *** MarkUnknown *)

Lemma MarkFalse_happy_touches (reason message : string) :
  touches_only [happy r] (MarkFalse r (happy r) reason message).
Proof.
  eapply touches_only_mono; [|apply MarkFalse_touches].
  intros x [<-|[<-|[]]]; now left.
Qed.

Lemma MarkUnknown_loop_touches (t : ConditionType) (reason message : string)
    (deps : list ConditionType) (isDependent : bool) :
  touches_only [happy r] (MarkUnknown_loop r t reason message deps isDependent).
Proof.
  revert isDependent. induction deps as [|d deps IH]; intros isDependent s t' Hn; simpl.
  - destruct isDependent; [|reflexivity].
    now apply (SetCondition_touches (mkCondition (happy r) _ _ _ _ _)).
  - destruct (IsFalse (apis.GetCondition d (fst s))); [|now apply IH].
    destruct (negb _); [|reflexivity]. now apply MarkFalse_happy_touches.
Qed.

Lemma MarkUnknown_loop_wf (t : ConditionType) (reason message : string)
    (deps : list ConditionType) (isDependent : bool) :
  keeps_wf (MarkUnknown_loop r t reason message deps isDependent).
Proof.
  revert isDependent. induction deps as [|d deps IH]; intros isDependent s Hwf; simpl.
  - destruct isDependent; [now apply SetCondition_wf | exact Hwf].
  - destruct (IsFalse (apis.GetCondition d (fst s))); [|now apply IH].
    destruct (negb _); [now apply MarkFalse_wf | exact Hwf].
Qed.

Lemma IsFalse_status (t : ConditionType) (cs : list Condition) :
  IsFalse (apis.GetCondition t cs) = true <-> statusOf t cs = Some ConditionFalse.
Proof.
  unfold statusOf. destruct (apis.GetCondition t cs) as [c|]; simpl.
  - rewrite String.eqb_eq. split; [congruence | now intros [= ->]].
  - split; discriminate.
Qed.

Lemma IsTrue_status (t : ConditionType) (cs : list Condition) :
  IsTrue (apis.GetCondition t cs) = true <-> statusOf t cs = Some ConditionTrue.
Proof.
  unfold statusOf. destruct (apis.GetCondition t cs) as [c|]; simpl.
  - rewrite String.eqb_eq. split; [congruence | now intros [= ->]].
  - split; discriminate.
Qed.

(** When the marked type is a dependent, the loop leaves the aggregate
    False or Unknown. *)
Lemma MarkUnknown_loop_happy (t : ConditionType) (reason message : string)
    (deps : list ConditionType) (isDependent : bool) (s : CS) :
  wf_conditions (fst s) ->
  isDependent = true \/ In t deps ->
  statusOf (happy r) (fst (MarkUnknown_loop r t reason message deps isDependent s)) = Some ConditionFalse \/
  statusOf (happy r) (fst (MarkUnknown_loop r t reason message deps isDependent s)) = Some ConditionUnknown.
Proof.
  intros Hwf. revert isDependent. induction deps as [|d deps IH]; intros isDependent Hd; simpl.
  - destruct Hd as [->|[]]. right.
    now rewrite (SetCondition_status (mkCondition (happy r) _ _ _ _ _)).
  - destruct (IsFalse (apis.GetCondition d (fst s))).
    + left. destruct (IsFalse (apis.GetCondition (happy r) (fst s))) eqn:E; simpl.
      * now apply IsFalse_status.
      * unfold statusOf. destruct (MarkFalse_get (happy r) reason message s Hwf) as [tm ->].
        reflexivity.
    + apply IH. destruct Hd as [->|[->|Hd]].
      * now left.
      * left. rewrite String.eqb_refl. apply orb_true_r.
      * now right.
Qed.

Lemma MarkUnknown_touches (t : ConditionType) (reason message : string) :
  touches_only [t; happy r] (MarkUnknown r t reason message).
Proof.
  unfold MarkUnknown.
  apply (touches_only_comp _ (SetCondition (unknownCondition r reason message t))).
  - eapply touches_only_mono; [|apply SetCondition_touches]. intros x [<-|[]]. now left.
  - eapply touches_only_mono; [|apply MarkUnknown_loop_touches]. intros x [<-|[]]. right. now left.
Qed.

Lemma MarkUnknown_wf (t : ConditionType) (reason message : string) :
  keeps_wf (MarkUnknown r t reason message).
Proof. intros s Hwf. now apply MarkUnknown_loop_wf, SetCondition_wf. Qed.

Lemma MarkUnknown_get (t : ConditionType) (reason message : string) (s : CS) :
  wf_conditions (fst s) -> t <> happy r ->
  exists tm, apis.GetCondition t (fst (MarkUnknown r t reason message s))
             = Some (withTime (unknownCondition r reason message t) tm).
Proof.
  intros Hwf Hne. unfold MarkUnknown.
  rewrite (touches_only_get _ _ _ _ (MarkUnknown_loop_touches t reason message _ _))
    by (intros [Heq|[]]; congruence).
  apply (SetCondition_get_same (unknownCondition r reason message t) s Hwf).
Qed.

Lemma MarkUnknown_happy (t : ConditionType) (reason message : string) (s : CS) :
  wf_conditions (fst s) -> In t (dependents r) ->
  statusOf (happy r) (fst (MarkUnknown r t reason message s)) = Some ConditionFalse \/
  statusOf (happy r) (fst (MarkUnknown r t reason message s)) = Some ConditionUnknown.
Proof.
  intros Hwf Ht. apply MarkUnknown_loop_happy; [now apply SetCondition_wf | now right].
Qed.

(** *** MarkTrue *)

Lemma MarkTrue_WithReason (t : ConditionType) : MarkTrue r t = MarkTrueWithReason r t "" "".
Proof. reflexivity. Qed.

Lemma MarkTrueWithReason_touches (t : ConditionType) (reason message : string) :
  touches_only [t; happy r] (MarkTrueWithReason r t reason message).
Proof.
  unfold MarkTrueWithReason.
  apply (touches_only_comp _ (SetCondition (trueCondition r reason message t))).
  - eapply touches_only_mono; [|apply SetCondition_touches]. intros x [<-|[]]. now left.
  - eapply touches_only_mono; [|apply recomputeHappiness_touches]. intros x [<-|[]]. right. now left.
Qed.

Lemma MarkTrueWithReason_wf (t : ConditionType) (reason message : string) :
  keeps_wf (MarkTrueWithReason r t reason message).
Proof. intros s Hwf. now apply recomputeHappiness_wf, SetCondition_wf. Qed.

Lemma MarkTrueWithReason_get (t : ConditionType) (reason message : string) (s : CS) :
  wf_conditions (fst s) -> t <> happy r ->
  exists tm, apis.GetCondition t (fst (MarkTrueWithReason r t reason message s))
             = Some (withTime (trueCondition r reason message t) tm).
Proof.
  intros Hwf Hne. unfold MarkTrueWithReason.
  rewrite (touches_only_get _ _ _ _ (recomputeHappiness_touches t))
    by (intros [Heq|[]]; congruence).
  apply (SetCondition_get_same (trueCondition r reason message t) s Hwf).
Qed.

(** *** The invariant *)

Lemma IsHappy_status (cs : list Condition) :
  IsHappy r cs = true <-> statusOf (happy r) cs = Some ConditionTrue.
Proof. apply IsTrue_status. Qed.

Lemma dependent_not_happy (t : ConditionType) : In t (dependents r) -> t <> happy r.
Proof. intros Ht ->. contradiction. Qed.

Lemma not_allTrue (t : ConditionType) (x : string) (cs : list Condition) :
  In t (dependents r) -> statusOf t cs = Some x -> x <> ConditionTrue -> ~ allTrue r cs.
Proof. intros Ht Hs Hx Hall. rewrite (Hall _ Ht) in Hs. congruence. Qed.

Lemma MarkTrueWithReason_Inv (t : ConditionType) (reason message : string) (s : CS) :
  In t (dependents r) -> wf_conditions (fst s) -> tri_state r (fst s) ->
  Inv r (fst (MarkTrueWithReason r t reason message s)).
Proof.
  intros Ht Hwf Htri. unfold MarkTrueWithReason.
  set (s1 := SetCondition _ s).
  assert (Hwf1 : wf_conditions (fst s1)) by now apply SetCondition_wf.
  assert (Htri1 : tri_state r (fst s1)) by (apply SetCondition_tri; [now left | exact Htri]).
  split; [now apply recomputeHappiness_wf|]. split.
  { apply touches_happy_tri; [apply recomputeHappiness_touches | exact Htri1]. }
  rewrite IsHappy_status, (touches_happy_allTrue _ _ (recomputeHappiness_touches t)).
  destruct (recomputeHappiness_status t s1 Hwf1 Htri1 (dependent_not_happy _ Ht))
    as [[H1 H2]|[[H1|H1] H2]]; rewrite H1; split; intros H; try easy; contradiction.
Qed.

Lemma MarkUnknown_Inv (t : ConditionType) (reason message : string) (s : CS) :
  In t (dependents r) -> wf_conditions (fst s) -> tri_state r (fst s) ->
  Inv r (fst (MarkUnknown r t reason message s)).
Proof.
  intros Ht Hwf Htri. split; [now apply MarkUnknown_wf|]. split.
  { unfold MarkUnknown. apply touches_happy_tri; [apply MarkUnknown_loop_touches|].
    apply SetCondition_tri; [now (right; right) | exact Htri]. }
  rewrite IsHappy_status.
  assert (Hn : ~ allTrue r (fst (MarkUnknown r t reason message s))).
  { destruct (MarkUnknown_get t reason message s Hwf (dependent_not_happy _ Ht)) as [tm Hg].
    apply (not_allTrue t ConditionUnknown); [exact Ht | | discriminate].
    unfold statusOf. now rewrite Hg. }
  destruct (MarkUnknown_happy t reason message s Hwf Ht) as [H|H]; rewrite H;
    split; intros H'; try easy; contradiction.
Qed.

Lemma fold_SetCondition_tri (mk : ConditionType -> Condition) (ts : list ConditionType) (s : CS) :
  (forall t, Status (mk t) = ConditionTrue \/ Status (mk t) = ConditionFalse \/
             Status (mk t) = ConditionUnknown) ->
  tri_state r (fst s) ->
  tri_state r (fst (fold_left (fun s t => SetCondition (mk t) s) ts s)).
Proof.
  intros Hmk. revert s. induction ts as [|a l IH]; intros s Htri; simpl; [exact Htri|].
  apply IH. apply SetCondition_tri; [intros _; apply Hmk | exact Htri].
Qed.

Lemma MarkFalse_Inv (t : ConditionType) (reason message : string) (s : CS) :
  In t (dependents r) -> wf_conditions (fst s) -> tri_state r (fst s) ->
  Inv r (fst (MarkFalse r t reason message s)).
Proof.
  intros Ht Hwf Htri. split; [now apply MarkFalse_wf|]. split.
  { rewrite MarkFalse_unfold. apply fold_SetCondition_tri; [|exact Htri].
    intros x. right. now left. }
  rewrite IsHappy_status, (MarkFalse_happy t reason message s Hwf Ht).
  split; [discriminate|]. intros Hall. exfalso. revert Hall.
  destruct (MarkFalse_get t reason message s Hwf) as [tm Hg].
  apply (not_allTrue t ConditionFalse); [exact Ht | | discriminate].
  unfold statusOf. now rewrite Hg.
Qed.

(** *** InitializeConditions *)

Lemma SetCondition_get_absent (cond : Condition) (s : CS) :
  apis.GetCondition (CondType cond) (fst s) = None ->
  apis.GetCondition (CondType cond) (fst (SetCondition cond s)) = Some (withTime cond (snd s 0)).
Proof.
  intros Hn. destruct (SetCondition_typed_same cond s) as [[_ (c & Hin & Hm)]|Ht].
  - exfalso. apply (GetCondition_None _ _ c Hn Hin). now apply matches_type.
  - now rewrite GetCondition_typed, Ht.
Qed.

Lemma initializeTerminalCondition_unfold (t : ConditionType) (status : string) (s : CS) :
  initializeTerminalCondition r t "" "" status s =
  match apis.GetCondition t (fst s) with
  | Some _ => s
  | None => SetCondition (seedCondition r status t) s
  end.
Proof. reflexivity. Qed.

Lemma initialize_fold_present (status : string) (l : list ConditionType) (s : CS)
    (t : ConditionType) (c : Condition) :
  apis.GetCondition t (fst s) = Some c ->
  apis.GetCondition t (fst (fold_left (fun s t => initializeTerminalCondition r t "" "" status s) l s))
  = Some c.
Proof.
  revert s. induction l as [|a l IH]; intros s Hg; simpl; [exact Hg|].
  apply IH. rewrite initializeTerminalCondition_unfold.
  destruct (apis.GetCondition a (fst s)) eqn:Ea; [exact Hg|].
  rewrite SetCondition_get_other; [exact Hg|]. simpl. intros ->. congruence.
Qed.

Lemma initialize_fold_absent (status : string) (l : list ConditionType) (s : CS) (t : ConditionType) :
  apis.GetCondition t (fst s) = None ->
  (In t l -> exists tm,
     apis.GetCondition t (fst (fold_left (fun s t => initializeTerminalCondition r t "" "" status s) l s))
     = Some (withTime (seedCondition r status t) tm)) /\
  (~ In t l ->
     apis.GetCondition t (fst (fold_left (fun s t => initializeTerminalCondition r t "" "" status s) l s))
     = None).
Proof.
  revert s. induction l as [|a l IH]; intros s Hg; simpl.
  - split; [intros []|now intros _].
  - rewrite initializeTerminalCondition_unfold.
    destruct (String.eqb a t) eqn:E.
    + apply String.eqb_eq in E. subst a. rewrite Hg. split; [intros _|intros H; exfalso; auto].
      eexists. apply initialize_fold_present.
      apply (SetCondition_get_absent (seedCondition r status t) s Hg).
    + apply String.eqb_neq in E.
      assert (Hg' : apis.GetCondition t
                (fst match apis.GetCondition a (fst s) with
                     | Some _ => s
                     | None => SetCondition (seedCondition r status a) s
                     end) = None).
      { destruct (apis.GetCondition a (fst s)); [exact Hg|].
        rewrite SetCondition_get_other; [exact Hg|]. simpl. congruence. }
      destruct (IH _ Hg') as [IH1 IH2]. split.
      * intros [Heq|Hin]; [congruence | now apply IH1].
      * intros Hn. apply IH2. intros Hin. apply Hn. now right.
Qed.

Lemma initialize_fold_wf (status : string) (l : list ConditionType) :
  keeps_wf (fun s => fold_left (fun s t => initializeTerminalCondition r t "" "" status s) l s).
Proof.
  induction l as [|a l IH]; intros s Hwf; simpl; [exact Hwf|].
  apply IH. rewrite initializeTerminalCondition_unfold.
  destruct (apis.GetCondition a (fst s)); [exact Hwf | now apply SetCondition_wf].
Qed.

Lemma initialize_fold_tri (status : string) (l : list ConditionType) (s : CS) :
  status = ConditionTrue \/ status = ConditionUnknown ->
  tri_state r (fst s) ->
  tri_state r (fst (fold_left (fun s t => initializeTerminalCondition r t "" "" status s) l s)).
Proof.
  intros Hst. revert s. induction l as [|a l IH]; intros s Htri; simpl; [exact Htri|].
  apply IH. rewrite initializeTerminalCondition_unfold.
  destruct (apis.GetCondition a (fst s)); [exact Htri|].
  apply SetCondition_tri; [|exact Htri]. intros _. simpl. tauto.
Qed.

Lemma InitializeConditions_unfold (s : CS) :
  apis.InitializeConditions r s =
  fold_left (fun s' t => initializeTerminalCondition r t "" "" ConditionUnknown s')
    (dependents r) (seedHappy r s).
Proof. reflexivity. Qed.

Lemma seedHappy_present (s : CS) (t : ConditionType) (c : Condition) :
  apis.GetCondition t (fst s) = Some c -> apis.GetCondition t (fst (seedHappy r s)) = Some c.
Proof.
  intros Hg. unfold seedHappy. destruct (apis.GetCondition (happy r) (fst s)) eqn:E; [exact Hg|].
  rewrite SetCondition_get_other; [exact Hg|]. simpl. intros ->. congruence.
Qed.

Lemma seedHappy_touches : touches_only [happy r] (seedHappy r).
Proof.
  intros s t' Hn. unfold seedHappy. destruct (apis.GetCondition (happy r) (fst s)); [reflexivity|].
  now apply (SetCondition_touches (mkCondition (happy r) _ _ _ _ _)).
Qed.

(** A condition that is present is left as it is. *)
Lemma InitializeConditions_present (s : CS) (t : ConditionType) (c : Condition) :
  apis.GetCondition t (fst s) = Some c ->
  apis.GetCondition t (fst (apis.InitializeConditions r s)) = Some c.
Proof.
  intros Hg. rewrite InitializeConditions_unfold.
  now apply initialize_fold_present, seedHappy_present.
Qed.

(** A condition that appears is Unknown. *)
Lemma InitializeConditions_absent (s : CS) (t : ConditionType) (c : Condition) :
  apis.GetCondition t (fst s) = None ->
  apis.GetCondition t (fst (apis.InitializeConditions r s)) = Some c ->
  Status c = ConditionUnknown.
Proof.
  intros Hn. rewrite InitializeConditions_unfold.
  set (status := ConditionUnknown).
  assert (Hst : status = ConditionUnknown) by reflexivity.
  destruct (apis.GetCondition t (fst (seedHappy r s))) as [c1|] eqn:E1.
  - rewrite (initialize_fold_present status _ _ _ _ E1). intros [= <-].
    unfold seedHappy in E1. destruct (apis.GetCondition (happy r) (fst s)) eqn:Eh; [congruence|].
    destruct (String.eqb t (happy r)) eqn:Et.
    + apply String.eqb_eq in Et. subst t.
      rewrite (SetCondition_get_absent (mkCondition (happy r) _ _ _ _ _) s Eh) in E1.
      injection E1 as <-. reflexivity.
    + apply String.eqb_neq in Et. rewrite SetCondition_get_other in E1 by (simpl; congruence).
      congruence.
  - destruct (initialize_fold_absent status (dependents r) _ _ E1) as [H1 H2].
    destruct (in_dec string_dec t (dependents r)) as [Hin|Hin].
    + destruct (H1 Hin) as [tm ->]. intros [= <-]. exact Hst.
    + rewrite (H2 Hin). discriminate.
Qed.

Lemma InitializeConditions_wf : keeps_wf (apis.InitializeConditions r).
Proof.
  intros s Hwf. rewrite InitializeConditions_unfold. apply initialize_fold_wf.
  unfold seedHappy. destruct (apis.GetCondition (happy r) (fst s)); [exact Hwf|].
  now apply SetCondition_wf.
Qed.

Lemma InitializeConditions_Inv (s : CS) :
  Inv r (fst s) -> Inv r (fst (apis.InitializeConditions r s)).
Proof.
  intros (Hwf & Htri & Hiff).
  split; [now apply InitializeConditions_wf|]. split.
  { rewrite InitializeConditions_unfold. apply initialize_fold_tri.
    - now right.
    - apply touches_happy_tri; [apply seedHappy_touches | exact Htri]. }
  destruct (IsHappy r (fst s)) eqn:Eh.
  - (* the aggregate is True: every tracked condition is present *)
    pose proof (proj1 Hiff eq_refl) as Hall.
    assert (Hp : forall t c, apis.GetCondition t (fst s) = Some c ->
                   apis.GetCondition t (fst (apis.InitializeConditions r s)) = Some c)
      by (intros; now apply InitializeConditions_present).
    split; intros _.
    + intros t Ht. specialize (Hall t Ht). unfold statusOf in *.
      destruct (apis.GetCondition t (fst s)) as [c|] eqn:E; [|discriminate].
      now rewrite (Hp _ _ E).
    + unfold IsHappy in *. destruct (apis.GetCondition (happy r) (fst s)) as [c|] eqn:E;
        [|discriminate]. now rewrite (Hp _ _ E).
  - (* the aggregate is not True and stays so; some tracked condition is
       not True and stays so or is seeded Unknown *)
    assert (Hh1 : IsTrue (apis.GetCondition (happy r) (fst (seedHappy r s))) = false).
    { unfold seedHappy, IsHappy in *. destruct (apis.GetCondition (happy r) (fst s)) eqn:E;
        [now rewrite E|].
      now rewrite (SetCondition_get_absent (mkCondition (happy r) _ _ _ _ _) s E). }
    assert (Hafter : IsHappy r (fst (apis.InitializeConditions r s)) = false).
    { rewrite InitializeConditions_unfold. unfold IsHappy.
      destruct (apis.GetCondition (happy r) (fst (seedHappy r s))) as [c|] eqn:E.
      - now rewrite (initialize_fold_present _ _ _ _ _ E).
      - exfalso. unfold seedHappy in E.
        destruct (apis.GetCondition (happy r) (fst s)) eqn:E'; [congruence|].
        now rewrite (SetCondition_get_absent (mkCondition (happy r) _ _ _ _ _) s E') in E. }
    rewrite Hafter. split; [discriminate|]. intros Hall. exfalso.
    assert (Hs : allTrue r (fst s)).
    { apply (touches_happy_allTrue _ _ seedHappy_touches).
      intros t Ht. specialize (Hall t Ht). revert Hall.
      rewrite InitializeConditions_unfold. unfold statusOf.
      destruct (apis.GetCondition t (fst (seedHappy r s))) as [c|] eqn:E.
      + now rewrite (initialize_fold_present _ _ _ _ _ E).
      + destruct (initialize_fold_absent ConditionUnknown (dependents r) _ _ E) as [H1 _].
        destruct (H1 Ht) as [tm ->]. discriminate. }
    apply Hiff in Hs. congruence.
Qed.

End ManagerFacts.

(** ** The loops of the propagation operations *)

Section Loops.
Variable mgr : ConditionManager.

Lemma managing_fields (f : CS -> CS) (w : World) :
  SubscriptionStatuses (fst (managing f w)) = SubscriptionStatuses (fst w) /\
  ChannelStatuses (fst (managing f w)) = ChannelStatuses (fst w) /\
  Address (fst (managing f w)) = Address (fst w) /\
  Conditions (fst (managing f w)) = fst (f (Conditions (fst w), snd w)).
Proof. unfold managing. simpl. auto. Qed.

Lemma subscriptions_range_spec (subscriptions : list messagingv1.Subscription) :
  forall (i : nat) (allReady : bool) (ss : SequenceStatus) (clk : Clock)
         (done : list SequenceSubscriptionStatus),
  length done = i ->
  SubscriptionStatuses ss =
    done ++ repeat (mkSequenceSubscriptionStatus corev1.zeroObjectReference zeroCondition)
              (length subscriptions) ->
  PropagateSubscriptionStatuses_range i subscriptions allReady (ss, clk) =
  (allReady && forallb (fun s => IsTrue (subscriptionReady s)) subscriptions,
   (set_SubscriptionStatuses (done ++ fst (subscriptionEntries subscriptions clk)) ss,
    snd (subscriptionEntries subscriptions clk))).
Proof.
  induction subscriptions as [|s rest IH]; intros i allReady ss clk done Hlen Hss.
  - simpl in *. rewrite andb_true_r. destruct ss; simpl in *. now subst.
  - cbn [PropagateSubscriptionStatuses_range subscriptionEntries forallb fst snd].
    fold (subscriptionReady s).
    assert (Hins : forall rc,
      alter (fun e => mkSequenceSubscriptionStatus (Subscription e) rc) i
        (<[i := mkSequenceSubscriptionStatus
                  (corev1.mkObjectReference (messagingv1.APIVersion s) (messagingv1.Kind s)
                     (messagingv1.Name s) (messagingv1.Namespace s)) zeroCondition]>
           (SubscriptionStatuses ss))
      = (done ++ [mkSequenceSubscriptionStatus (subscriptionRef s) rc])
        ++ repeat (mkSequenceSubscriptionStatus corev1.zeroObjectReference zeroCondition)
             (length rest)).
    { intros rc. rewrite Hss. cbn [length repeat]. subst i.
      rewrite insert_app_r_alt, Nat.sub_diag by lia. cbn [list_insert insert].
      rewrite alter_app_r_alt, Nat.sub_diag by lia. cbn.
      now rewrite <- app_assoc. }
    destruct (subscriptionReady s) as [rc|] eqn:Er.
    + rewrite (IH (S i) _ _ clk (done ++ [mkSequenceSubscriptionStatus (subscriptionRef s) rc])).
      * destruct (subscriptionEntries rest clk) as [es clk'] eqn:Ee. cbn [fst snd].
        rewrite <- app_assoc. cbn. f_equal.
        destruct (String.eqb _ _), allReady; reflexivity.
      * rewrite length_app. simpl. lia.
      * cbn. apply Hins.
    + cbn [time_Now].
      rewrite (IH (S i) _ _ _ (done ++ [mkSequenceSubscriptionStatus (subscriptionRef s)
                 (noReady "Subscription does not have Ready condition" (clk 0))])).
      * cbn [time_Now snd fst].
        destruct (subscriptionEntries rest (fun n => clk (S n))) as [es clk'] eqn:Ee. cbn [fst snd].
        rewrite <- app_assoc. cbn. f_equal. now rewrite andb_false_r.
      * rewrite length_app. simpl. lia.
      * cbn. apply Hins.
Qed.

Lemma PropagateSubscriptionStatuses_spec (subscriptions : list messagingv1.Subscription) (w : World) :
  PropagateSubscriptionStatuses mgr subscriptions w =
  let w' := (set_SubscriptionStatuses (fst (subscriptionEntries subscriptions (snd w))) (fst w),
             snd (subscriptionEntries subscriptions (snd w))) in
  if subscriptionsAllReady subscriptions
  then managing (mgr_MarkTrue mgr SequenceConditionSubscriptionsReady) w'
  else MarkSubscriptionsNotReady mgr "SubscriptionsNotReady"
         "Subscriptions are not ready yet, or there are none" w'.
Proof.
  unfold PropagateSubscriptionStatuses. cbn [fst snd].
  rewrite (subscriptions_range_spec subscriptions 0 _ _ _ []) by reflexivity.
  unfold subscriptionsAllReady. cbn [app].
  replace (set_SubscriptionStatuses (fst (subscriptionEntries subscriptions (snd w)))
             (set_SubscriptionStatuses _ (fst w)))
    with (set_SubscriptionStatuses (fst (subscriptionEntries subscriptions (snd w))) (fst w))
    by reflexivity.
  destruct (Nat.eqb (length subscriptions) 0); reflexivity.
Qed.

Lemma channels_range_spec (channels : list eventingduckv1.Channelable) :
  forall (i : nat) (allReady : bool) (ss : SequenceStatus) (clk : Clock)
         (done : list SequenceChannelStatus),
  length done = S i ->
  ChannelStatuses ss =
    done ++ repeat (mkSequenceChannelStatus corev1.zeroObjectReference zeroCondition)
              (length channels) ->
  PropagateChannelStatuses_range mgr (S i) channels allReady (ss, clk) =
  (allReady && forallb (fun c => IsTrue (channelReady c)) channels,
   (set_ChannelStatuses (done ++ fst (channelEntries channels clk)) ss,
    snd (channelEntries channels clk))).
Proof.
  induction channels as [|c rest IH]; intros i allReady ss clk done Hlen Hss.
  - simpl in *. rewrite andb_true_r. destruct ss; simpl in *. now subst.
  - cbn [PropagateChannelStatuses_range channelEntries forallb fst snd Nat.eqb].
    fold (channelReady c).
    assert (Hins : forall rc,
      alter (fun e => mkSequenceChannelStatus (Channel e) rc) (S i)
        (<[S i := mkSequenceChannelStatus
                  (corev1.mkObjectReference (eventingduckv1.APIVersion c) (eventingduckv1.Kind c)
                     (eventingduckv1.Name c) (eventingduckv1.Namespace c)) zeroCondition]>
           (ChannelStatuses ss))
      = (done ++ [mkSequenceChannelStatus (channelRef c) rc])
        ++ repeat (mkSequenceChannelStatus corev1.zeroObjectReference zeroCondition)
             (length rest)).
    { intros rc. rewrite Hss. cbn [length repeat]. rewrite <- Hlen.
      rewrite insert_app_r_alt, Nat.sub_diag by lia. cbn [list_insert insert].
      rewrite alter_app_r_alt, Nat.sub_diag by lia. cbn.
      now rewrite <- app_assoc. }
    destruct (channelReady c) as [rc|] eqn:Er.
    + rewrite (IH (S i) _ _ clk (done ++ [mkSequenceChannelStatus (channelRef c) rc])).
      * destruct (channelEntries rest clk) as [es clk'] eqn:Ee. cbn [fst snd].
        rewrite <- app_assoc. cbn. f_equal.
        destruct (String.eqb _ _), allReady; reflexivity.
      * rewrite length_app. simpl. lia.
      * cbn. apply Hins.
    + cbn [time_Now].
      rewrite (IH (S i) _ _ _ (done ++ [mkSequenceChannelStatus (channelRef c)
                 (noReady "Channel does not have Ready condition" (clk 0))])).
      * cbn [time_Now snd fst].
        destruct (channelEntries rest (fun n => clk (S n))) as [es clk'] eqn:Ee. cbn [fst snd].
        rewrite <- app_assoc. cbn. f_equal. now rewrite andb_false_r.
      * rewrite length_app. simpl. lia.
      * cbn. apply Hins.
Qed.

(** [setAddress] writes the address and the conditions, and nothing of
    the per-child statuses. *)
Lemma setAddress_ChannelStatuses (address : option duckv1.Addressable)
    (l : list SequenceChannelStatus) (ss : SequenceStatus) (clk : Clock) :
  setAddress mgr address (set_ChannelStatuses l ss, clk) =
  (set_ChannelStatuses l (fst (setAddress mgr address (ss, clk))),
   snd (setAddress mgr address (ss, clk))).
Proof.
  unfold setAddress. destruct address as [[n [u|] ca au]|]; reflexivity.
Qed.

Lemma setAddress_fields (address : option duckv1.Addressable) (w : World) :
  SubscriptionStatuses (fst (setAddress mgr address w)) = SubscriptionStatuses (fst w) /\
  ChannelStatuses (fst (setAddress mgr address w)) = ChannelStatuses (fst w).
Proof.
  unfold setAddress. destruct address as [[n [u|] ca au]|]; split; reflexivity.
Qed.

Lemma PropagateChannelStatuses_nil (w : World) :
  PropagateChannelStatuses mgr [] w =
  MarkChannelsNotReady mgr "ChannelsNotReady" "Channels are not ready yet, or there are none"
    (set_ChannelStatuses [] (fst w), snd w).
Proof. reflexivity. Qed.

Lemma PropagateChannelStatuses_cons (c : eventingduckv1.Channelable)
    (rest : list eventingduckv1.Channelable) (w : World) :
  PropagateChannelStatuses mgr (c :: rest) w =
  let w1 := setAddress mgr (eventingduckv1.Status_Address c) w in
  let w' := (set_ChannelStatuses (fst (channelEntries (c :: rest) (snd w1))) (fst w1),
             snd (channelEntries (c :: rest) (snd w1))) in
  if channelsAllReady (c :: rest)
  then managing (mgr_MarkTrue mgr SequenceConditionChannelsReady) w'
  else MarkChannelsNotReady mgr "ChannelsNotReady"
         "Channels are not ready yet, or there are none" w'.
Proof.
  unfold PropagateChannelStatuses, channelsAllReady.
  cbn [PropagateChannelStatuses_range length Nat.eqb negb andb fst snd channelEntries forallb repeat].
  fold (channelReady c). rewrite setAddress_ChannelStatuses. cbn [fst snd].
  set (w1 := setAddress mgr (eventingduckv1.Status_Address c) (fst w, snd w)).
  replace (setAddress mgr (eventingduckv1.Status_Address c) w) with w1
    by (unfold w1; now destruct w).
  destruct (channelReady c) as [rc|] eqn:Er.
  - rewrite (channels_range_spec rest 0 _ _ _ [mkSequenceChannelStatus (channelRef c) rc]);
      [|reflexivity|reflexivity].
    destruct (channelEntries rest (snd w1)) as [es clk'] eqn:Ee. cbn [fst snd app].
    destruct (IsTrue (Some rc)); cbn [negb andb]; reflexivity.
  - cbn [time_Now fst snd].
    rewrite (channels_range_spec rest 0 _ _ _ [mkSequenceChannelStatus (channelRef c)
              (noReady "Channel does not have Ready condition" (snd w1 0))]);
      [|reflexivity|reflexivity].
    destruct (channelEntries rest (fun n => snd w1 (S n))) as [es clk'] eqn:Ee.
    cbn [fst snd app andb]. reflexivity.
Qed.

End Loops.

(** ** The manager of the Sequence's condition set *)

Lemma sCondSet_happy_not_dependent : ~ In (happy sCondSet) (dependents sCondSet).
Proof. simpl. intros [H|[H|[H|[H|[]]]]]; discriminate. Qed.

Lemma sCondSet_NoDup : List.NoDup (dependents sCondSet).
Proof.
  simpl. repeat constructor; simpl; intros H;
    repeat (destruct H as [H|H]; [discriminate|]); exact H.
Qed.

Lemma sCondSet_nonempty : dependents sCondSet <> [].
Proof. discriminate. Qed.

Lemma dependent_ChannelsReady : In SequenceConditionChannelsReady (dependents sCondSet).
Proof. simpl. tauto. Qed.
Lemma dependent_SubscriptionsReady : In SequenceConditionSubscriptionsReady (dependents sCondSet).
Proof. simpl. tauto. Qed.
Lemma dependent_Addressable : In SequenceConditionAddressable (dependents sCondSet).
Proof. simpl. tauto. Qed.
Lemma dependent_OIDCIdentityCreated : In SequenceConditionOIDCIdentityCreated (dependents sCondSet).
Proof. simpl. tauto. Qed.

Create HintDb seq.

#[local] Hint Resolve sCondSet_happy_not_dependent sCondSet_NoDup sCondSet_nonempty
  dependent_ChannelsReady dependent_SubscriptionsReady dependent_Addressable
  dependent_OIDCIdentityCreated : seq.

(** ** The per-child statuses *)

Lemma subscriptionEntries_mirror (subscriptions : list messagingv1.Subscription) (clk : Clock) :
  Forall2 mirrors_subscription subscriptions (fst (subscriptionEntries subscriptions clk)).
Proof.
  revert clk. induction subscriptions as [|s rest IH]; intros clk; simpl; [constructor|].
  destruct (subscriptionReady s) as [rc|] eqn:Er.
  - specialize (IH clk). destruct (subscriptionEntries rest clk) as [es clk']. simpl in *.
    constructor; [|exact IH]. split; [reflexivity|]. now rewrite Er.
  - specialize (IH (fun n => clk (S n))).
    destruct (subscriptionEntries rest (fun n => clk (S n))) as [es clk']. simpl in *.
    constructor; [|exact IH]. split; [reflexivity|]. rewrite Er. now eexists.
Qed.

Lemma channelEntries_mirror (channels : list eventingduckv1.Channelable) (clk : Clock) :
  Forall2 mirrors_channel channels (fst (channelEntries channels clk)).
Proof.
  revert clk. induction channels as [|c rest IH]; intros clk; simpl; [constructor|].
  destruct (channelReady c) as [rc|] eqn:Er.
  - specialize (IH clk). destruct (channelEntries rest clk) as [es clk']. simpl in *.
    constructor; [|exact IH]. split; [reflexivity|]. now rewrite Er.
  - specialize (IH (fun n => clk (S n))).
    destruct (channelEntries rest (fun n => clk (S n))) as [es clk']. simpl in *.
    constructor; [|exact IH]. split; [reflexivity|]. rewrite Er. now eexists.
Qed.

Lemma PropagateSubscriptionStatuses_statuses (mgr : ConditionManager)
    (subscriptions : list messagingv1.Subscription) (w : World) :
  SubscriptionStatuses (fst (PropagateSubscriptionStatuses mgr subscriptions w))
  = fst (subscriptionEntries subscriptions (snd w)).
Proof.
  rewrite PropagateSubscriptionStatuses_spec. cbv zeta.
  destruct (subscriptionsAllReady subscriptions); reflexivity.
Qed.

Lemma PropagateChannelStatuses_statuses (mgr : ConditionManager)
    (channels : list eventingduckv1.Channelable) (w : World) :
  exists clk, ChannelStatuses (fst (PropagateChannelStatuses mgr channels w))
              = fst (channelEntries channels clk).
Proof.
  destruct channels as [|c rest].
  - exists (snd w). reflexivity.
  - rewrite PropagateChannelStatuses_cons. cbv zeta. eexists.
    destruct (channelsAllReady (c :: rest)); reflexivity.
Qed.

Lemma mirrors_subscription_refs (subscriptions : list messagingv1.Subscription)
    (es : list SequenceSubscriptionStatus) :
  Forall2 mirrors_subscription subscriptions es ->
  map Subscription es = map subscriptionRef subscriptions.
Proof. induction 1 as [|s e l l' [H _] _ IH]; simpl; [reflexivity|]. now rewrite H, IH. Qed.

Lemma mirrors_channel_refs (channels : list eventingduckv1.Channelable)
    (es : list SequenceChannelStatus) :
  Forall2 mirrors_channel channels es ->
  map Channel es = map channelRef channels.
Proof. induction 1 as [|s e l l' [H _] _ IH]; simpl; [reflexivity|]. now rewrite H, IH. Qed.

(** C7.  Whatever the status record held before, after a propagation
    call the per-child statuses are rebuilt from the input alone: entry
    [i] mirrors snapshot [i] (its object reference, and its [Ready]
    condition or the synthesized one), so the slice has the length and the
    order of the input and nothing of an earlier, longer or shorter, list
    survives. *)
Theorem statuses_rebuilt_from_input (w : World)
    (channels : list eventingduckv1.Channelable) (subscriptions : list messagingv1.Subscription) :
  (Forall2 mirrors_channel channels (ChannelStatuses (fst (PropagateChannelStatuses M channels w))) /\
   length (ChannelStatuses (fst (PropagateChannelStatuses M channels w))) = length channels /\
   map Channel (ChannelStatuses (fst (PropagateChannelStatuses M channels w)))
   = map channelRef channels) /\
  (Forall2 mirrors_subscription subscriptions
     (SubscriptionStatuses (fst (PropagateSubscriptionStatuses M subscriptions w))) /\
   length (SubscriptionStatuses (fst (PropagateSubscriptionStatuses M subscriptions w)))
   = length subscriptions /\
   map Subscription (SubscriptionStatuses (fst (PropagateSubscriptionStatuses M subscriptions w)))
   = map subscriptionRef subscriptions).
Proof.
  split.
  - destruct (PropagateChannelStatuses_statuses M channels w) as [clk ->].
    pose proof (channelEntries_mirror channels clk) as H.
    split; [exact H|]. split; [symmetry; eapply Forall2_length, H | now apply mirrors_channel_refs].
  - rewrite PropagateSubscriptionStatuses_statuses.
    pose proof (subscriptionEntries_mirror subscriptions (snd w)) as H.
    split; [exact H|]. split; [symmetry; eapply Forall2_length, H | now apply mirrors_subscription_refs].
Qed.

(** ** What the operations do to the conditions, the address and the clock *)

Lemma setAddress_spec (address : option duckv1.Addressable) (w : World) :
  setAddress M address w =
  (mkSequenceStatus (fst (addressMark address (Conditions (fst w), snd w)))
     (SubscriptionStatuses (fst w)) (ChannelStatuses (fst w)) (derivedAddress address),
   snd (addressMark address (Conditions (fst w), snd w))).
Proof. unfold setAddress. destruct address as [[n [u|] ca au]|]; reflexivity. Qed.

Lemma PropagateSubscriptionStatuses_eq (subscriptions : list messagingv1.Subscription) (w : World) :
  PropagateSubscriptionStatuses M subscriptions w =
  let s := finalMark SequenceConditionSubscriptionsReady "SubscriptionsNotReady"
             "Subscriptions are not ready yet, or there are none"
             (subscriptionsAllReady subscriptions)
             (Conditions (fst w), snd (subscriptionEntries subscriptions (snd w))) in
  (mkSequenceStatus (fst s) (fst (subscriptionEntries subscriptions (snd w)))
     (ChannelStatuses (fst w)) (Address (fst w)), snd s).
Proof.
  rewrite PropagateSubscriptionStatuses_spec. unfold finalMark. cbv zeta.
  destruct (subscriptionsAllReady subscriptions); reflexivity.
Qed.

Lemma PropagateChannelStatuses_nil_eq (w : World) :
  PropagateChannelStatuses M [] w =
  let s := MarkUnknown sCondSet SequenceConditionChannelsReady "ChannelsNotReady"
             "Channels are not ready yet, or there are none" (Conditions (fst w), snd w) in
  (mkSequenceStatus (fst s) (SubscriptionStatuses (fst w)) [] (Address (fst w)), snd s).
Proof. reflexivity. Qed.

Lemma PropagateChannelStatuses_cons_eq (c : eventingduckv1.Channelable)
    (rest : list eventingduckv1.Channelable) (w : World) :
  PropagateChannelStatuses M (c :: rest) w =
  let s1 := addressMark (eventingduckv1.Status_Address c) (Conditions (fst w), snd w) in
  let s := finalMark SequenceConditionChannelsReady "ChannelsNotReady"
             "Channels are not ready yet, or there are none"
             (channelsAllReady (c :: rest))
             (fst s1, snd (channelEntries (c :: rest) (snd s1))) in
  (mkSequenceStatus (fst s) (SubscriptionStatuses (fst w))
     (fst (channelEntries (c :: rest) (snd s1)))
     (derivedAddress (eventingduckv1.Status_Address c)), snd s).
Proof.
  rewrite PropagateChannelStatuses_cons, setAddress_spec. unfold finalMark. cbv zeta.
  cbn [fst snd]. destruct (channelsAllReady (c :: rest)); reflexivity.
Qed.

Lemma finalMark_touches (t : ConditionType) (reason message : string) (b : bool) :
  touches_only [t; happy sCondSet] (finalMark t reason message b).
Proof.
  unfold finalMark. destruct b.
  - rewrite MarkTrue_WithReason. apply MarkTrueWithReason_touches.
  - apply MarkUnknown_touches.
Qed.

Lemma finalMark_wf (t : ConditionType) (reason message : string) (b : bool) :
  keeps_wf (finalMark t reason message b).
Proof.
  unfold finalMark. destruct b.
  - rewrite MarkTrue_WithReason. apply MarkTrueWithReason_wf.
  - apply MarkUnknown_wf.
Qed.

Lemma addressMark_touches (address : option duckv1.Addressable) :
  touches_only [SequenceConditionAddressable; happy sCondSet] (addressMark address).
Proof.
  unfold addressMark. destruct address as [[n [u|] ca au]|];
    try apply MarkUnknown_touches.
  rewrite MarkTrue_WithReason. apply MarkTrueWithReason_touches.
Qed.

Lemma addressMark_wf (address : option duckv1.Addressable) : keeps_wf (addressMark address).
Proof.
  unfold addressMark. destruct address as [[n [u|] ca au]|];
    try apply MarkUnknown_wf.
  rewrite MarkTrue_WithReason. apply MarkTrueWithReason_wf.
Qed.

(** What is read back after a mark of a tracked type, when the conditions
    are named. *)
Lemma MarkUnknown_read (t : ConditionType) (reason message : string) (s : CS) :
  wf_conditions (fst s) -> In t (dependents sCondSet) ->
  exists c, apis.GetCondition t (fst (MarkUnknown sCondSet t reason message s)) = Some c /\
    CondType c = t /\ Status c = ConditionUnknown /\ Reason c = reason /\ Message c = message.
Proof.
  intros Hwf Ht.
  destruct (MarkUnknown_get sCondSet t reason message s Hwf) as [tm Hg].
  { apply dependent_not_happy; auto with seq. }
  eexists. split; [exact Hg|]. simpl. auto.
Qed.

Lemma MarkTrue_read (t : ConditionType) (s : CS) :
  wf_conditions (fst s) -> In t (dependents sCondSet) ->
  exists c, apis.GetCondition t (fst (MarkTrue sCondSet t s)) = Some c /\
    CondType c = t /\ Status c = ConditionTrue.
Proof.
  intros Hwf Ht. rewrite MarkTrue_WithReason.
  destruct (MarkTrueWithReason_get sCondSet t "" "" s Hwf) as [tm Hg].
  { apply dependent_not_happy; auto with seq. }
  eexists. split; [exact Hg|]. simpl. auto.
Qed.

(** ** The aggregate conditions of the propagation operations *)

Lemma channelsAllReady_true (channels : list eventingduckv1.Channelable) :
  channels <> [] ->
  Forall (fun c => exists rc, channelReady c = Some rc /\ Status rc = ConditionTrue) channels ->
  channelsAllReady channels = true.
Proof.
  intros Hne Hall. unfold channelsAllReady. apply andb_true_iff. split.
  - destruct channels; [congruence|reflexivity].
  - apply forallb_forall. intros c Hc. rewrite List.Forall_forall in Hall.
    destruct (Hall c Hc) as (rc & -> & Hs). simpl. now rewrite Hs.
Qed.

Lemma subscriptionsAllReady_true (subscriptions : list messagingv1.Subscription) :
  subscriptions <> [] ->
  Forall (fun s => exists rc, subscriptionReady s = Some rc /\ Status rc = ConditionTrue)
    subscriptions ->
  subscriptionsAllReady subscriptions = true.
Proof.
  intros Hne Hall. unfold subscriptionsAllReady. apply andb_true_iff. split.
  - destruct subscriptions; [congruence|reflexivity].
  - apply forallb_forall. intros c Hc. rewrite List.Forall_forall in Hall.
    destruct (Hall c Hc) as (rc & -> & Hs). simpl. now rewrite Hs.
Qed.

Lemma channelsAllReady_false (channels : list eventingduckv1.Channelable)
    (c : eventingduckv1.Channelable) :
  In c channels -> IsTrue (channelReady c) = false -> channelsAllReady channels = false.
Proof.
  intros Hin Hc. unfold channelsAllReady. apply andb_false_iff. right.
  destruct (forallb _ channels) eqn:E; [|reflexivity].
  rewrite forallb_forall in E. specialize (E c Hin). simpl in E. congruence.
Qed.

Lemma subscriptionsAllReady_false (subscriptions : list messagingv1.Subscription)
    (s : messagingv1.Subscription) :
  In s subscriptions -> IsTrue (subscriptionReady s) = false ->
  subscriptionsAllReady subscriptions = false.
Proof.
  intros Hin Hc. unfold subscriptionsAllReady. apply andb_false_iff. right.
  destruct (forallb _ subscriptions) eqn:E; [|reflexivity].
  rewrite forallb_forall in E. specialize (E s Hin). simpl in E. congruence.
Qed.

(** The condition of the aggregate type after [PropagateChannelStatuses],
    by the verdict of the loop. *)
Lemma PropagateChannelStatuses_aggregate (channels : list eventingduckv1.Channelable) (w : World) :
  wf_conditions (Conditions (fst w)) ->
  exists c,
    GetCondition M SequenceConditionChannelsReady (fst (PropagateChannelStatuses M channels w)) = Some c /\
    if channelsAllReady channels then Status c = ConditionTrue
    else Status c = ConditionUnknown /\ Reason c = "ChannelsNotReady".
Proof.
  intros Hwf. destruct channels as [|c0 rest].
  - rewrite PropagateChannelStatuses_nil_eq. cbv zeta. unfold GetCondition. cbn [fst Conditions].
    destruct (MarkUnknown_read SequenceConditionChannelsReady "ChannelsNotReady"
                "Channels are not ready yet, or there are none" (Conditions (fst w), snd w))
      as (c & Hg & _ & Hs & Hr & _); auto with seq.
    exists c. split; [exact Hg|]. simpl. auto.
  - rewrite PropagateChannelStatuses_cons_eq. cbv zeta. unfold GetCondition. cbn [fst Conditions].
    set (s1 := addressMark _ _).
    assert (Hwf1 : wf_conditions (fst s1)) by (now apply addressMark_wf).
    unfold finalMark. destruct (channelsAllReady (c0 :: rest)).
    + destruct (MarkTrue_read SequenceConditionChannelsReady
                  (fst s1, snd (channelEntries (c0 :: rest) (snd s1))))
        as (c & Hg & _ & Hs); auto with seq.
      exists c. now split.
    + destruct (MarkUnknown_read SequenceConditionChannelsReady "ChannelsNotReady"
                  "Channels are not ready yet, or there are none"
                  (fst s1, snd (channelEntries (c0 :: rest) (snd s1))))
        as (c & Hg & _ & Hs & Hr & _); auto with seq.
      exists c. split; [exact Hg|]. auto.
Qed.

Lemma PropagateSubscriptionStatuses_aggregate (subscriptions : list messagingv1.Subscription)
    (w : World) :
  wf_conditions (Conditions (fst w)) ->
  exists c,
    GetCondition M SequenceConditionSubscriptionsReady
      (fst (PropagateSubscriptionStatuses M subscriptions w)) = Some c /\
    if subscriptionsAllReady subscriptions then Status c = ConditionTrue
    else Status c = ConditionUnknown /\ Reason c = "SubscriptionsNotReady".
Proof.
  intros Hwf. rewrite PropagateSubscriptionStatuses_eq. cbv zeta. unfold GetCondition.
  cbn [fst Conditions]. unfold finalMark. destruct (subscriptionsAllReady subscriptions).
  - destruct (MarkTrue_read SequenceConditionSubscriptionsReady
                (Conditions (fst w), snd (subscriptionEntries subscriptions (snd w))))
      as (c & Hg & _ & Hs); auto with seq.
    exists c. now split.
  - destruct (MarkUnknown_read SequenceConditionSubscriptionsReady "SubscriptionsNotReady"
                "Subscriptions are not ready yet, or there are none"
                (Conditions (fst w), snd (subscriptionEntries subscriptions (snd w))))
      as (c & Hg & _ & Hs & Hr & _); auto with seq.
    exists c. split; [exact Hg|]. auto.
Qed.

(** C2.  Given a non-empty list of child snapshots that all carry a
    [Ready] condition with status True, the propagation marks the
    aggregate condition True, and the per-child statuses have as many
    entries as the input, with the object references in the order of the
    input.  The status record is any one whose conditions are named
    ([wf_conditions]: one condition per type, as in every record the
    operations produce, [exec_wf]). *)
Theorem all_ready_conjunction (w : World)
    (channels : list eventingduckv1.Channelable) (subscriptions : list messagingv1.Subscription)
    (Hwf : wf_conditions (Conditions (fst w)))
    (Hchannels : channels <> [])
    (Hcready : Forall (fun c => exists rc, channelReady c = Some rc /\ Status rc = ConditionTrue)
                 channels)
    (Hsubscriptions : subscriptions <> [])
    (Hsready : Forall (fun s => exists rc, subscriptionReady s = Some rc /\ Status rc = ConditionTrue)
                 subscriptions) :
  ((exists c, GetCondition M SequenceConditionChannelsReady
                (fst (PropagateChannelStatuses M channels w)) = Some c /\
              Status c = ConditionTrue) /\
   length (ChannelStatuses (fst (PropagateChannelStatuses M channels w))) = length channels /\
   map Channel (ChannelStatuses (fst (PropagateChannelStatuses M channels w)))
   = map channelRef channels) /\
  ((exists c, GetCondition M SequenceConditionSubscriptionsReady
                (fst (PropagateSubscriptionStatuses M subscriptions w)) = Some c /\
              Status c = ConditionTrue) /\
   length (SubscriptionStatuses (fst (PropagateSubscriptionStatuses M subscriptions w)))
   = length subscriptions /\
   map Subscription (SubscriptionStatuses (fst (PropagateSubscriptionStatuses M subscriptions w)))
   = map subscriptionRef subscriptions).
Proof.
  split; (split; [|split]).
  - destruct (PropagateChannelStatuses_aggregate channels w Hwf) as (c & Hg & Hc).
    rewrite (channelsAllReady_true _ Hchannels Hcready) in Hc. eauto.
  - destruct (PropagateChannelStatuses_statuses M channels w) as [clk ->].
    symmetry. eapply Forall2_length, channelEntries_mirror.
  - destruct (PropagateChannelStatuses_statuses M channels w) as [clk ->].
    apply mirrors_channel_refs, channelEntries_mirror.
  - destruct (PropagateSubscriptionStatuses_aggregate subscriptions w Hwf) as (c & Hg & Hc).
    rewrite (subscriptionsAllReady_true _ Hsubscriptions Hsready) in Hc. eauto.
  - rewrite PropagateSubscriptionStatuses_statuses.
    symmetry. eapply Forall2_length, subscriptionEntries_mirror.
  - rewrite PropagateSubscriptionStatuses_statuses.
    apply mirrors_subscription_refs, subscriptionEntries_mirror.
Qed.

(** C3.  Given at least two child snapshots of which exactly one, at
    index [i], has a [Ready] condition with status False while all the
    others have it True, the aggregate condition is set to Unknown with
    reason "ChannelsNotReady" (resp. "SubscriptionsNotReady"): neither
    True nor False.  The status record is any one whose conditions are
    named. *)
Theorem one_false_poisons_all (w : World)
    (channels : list eventingduckv1.Channelable) (subscriptions : list messagingv1.Subscription)
    (i j : nat)
    (Hwf : wf_conditions (Conditions (fst w)))
    (Hcn : 2 <= length channels)
    (Hcfalse : exists c rc, channels !! i = Some c /\ channelReady c = Some rc /\
                            Status rc = ConditionFalse)
    (Hctrue : forall k c, k <> i -> channels !! k = Some c ->
                exists rc, channelReady c = Some rc /\ Status rc = ConditionTrue)
    (Hsn : 2 <= length subscriptions)
    (Hsfalse : exists s rc, subscriptions !! j = Some s /\ subscriptionReady s = Some rc /\
                            Status rc = ConditionFalse)
    (Hstrue : forall k s, k <> j -> subscriptions !! k = Some s ->
                exists rc, subscriptionReady s = Some rc /\ Status rc = ConditionTrue) :
  (exists c, GetCondition M SequenceConditionChannelsReady
               (fst (PropagateChannelStatuses M channels w)) = Some c /\
             Status c = ConditionUnknown /\ Reason c = "ChannelsNotReady" /\
             Status c <> ConditionTrue /\ Status c <> ConditionFalse) /\
  (exists c, GetCondition M SequenceConditionSubscriptionsReady
               (fst (PropagateSubscriptionStatuses M subscriptions w)) = Some c /\
             Status c = ConditionUnknown /\ Reason c = "SubscriptionsNotReady" /\
             Status c <> ConditionTrue /\ Status c <> ConditionFalse).
Proof.
  split.
  - destruct Hcfalse as (c0 & rc & Hl & Hr & Hs).
    destruct (PropagateChannelStatuses_aggregate channels w Hwf) as (c & Hg & Hc).
    rewrite (channelsAllReady_false channels c0) in Hc.
    + destruct Hc as [Hu Hre]. exists c. rewrite Hu. repeat split; auto; discriminate.
    + apply list_elem_of_In. eapply list_elem_of_lookup_2, Hl.
    + rewrite Hr. simpl. now rewrite Hs.
  - destruct Hsfalse as (s0 & rc & Hl & Hr & Hs).
    destruct (PropagateSubscriptionStatuses_aggregate subscriptions w Hwf) as (c & Hg & Hc).
    rewrite (subscriptionsAllReady_false subscriptions s0) in Hc.
    + destruct Hc as [Hu Hre]. exists c. rewrite Hu. repeat split; auto; discriminate.
    + apply list_elem_of_In. eapply list_elem_of_lookup_2, Hl.
    + rewrite Hr. simpl. now rewrite Hs.
Qed.

(** C4.  With an empty input list the propagation marks the aggregate
    condition Unknown, never True, and for an empty channel list the
    [Address] field is left as it was.  The status record is any one whose
    conditions are named. *)
Theorem empty_input_not_ready (w : World)
    (Hwf : wf_conditions (Conditions (fst w))) :
  (exists c, GetCondition M SequenceConditionChannelsReady
               (fst (PropagateChannelStatuses M [] w)) = Some c /\
             Status c = ConditionUnknown /\ Status c <> ConditionTrue) /\
  Address (fst (PropagateChannelStatuses M [] w)) = Address (fst w) /\
  (exists c, GetCondition M SequenceConditionSubscriptionsReady
               (fst (PropagateSubscriptionStatuses M [] w)) = Some c /\
             Status c = ConditionUnknown /\ Status c <> ConditionTrue).
Proof.
  split; [|split].
  - destruct (PropagateChannelStatuses_aggregate [] w Hwf) as (c & Hg & Hu & _).
    exists c. rewrite Hu. repeat split; auto; discriminate.
  - reflexivity.
  - destruct (PropagateSubscriptionStatuses_aggregate [] w Hwf) as (c & Hg & Hu & _).
    exists c. rewrite Hu. repeat split; auto; discriminate.
Qed.

(** C5.  For a child snapshot that exposes no [Ready] condition the
    propagation stores, at the snapshot's index, a synthesized condition
    of type [Ready] with status Unknown, reason "NoReady" and the message
    that the child does not have a Ready condition; and the aggregate
    condition is marked Unknown, not True.  The status record is any one
    whose conditions are named. *)
Theorem missing_condition_synthesis (w : World)
    (channels : list eventingduckv1.Channelable) (subscriptions : list messagingv1.Subscription)
    (i j : nat) (c : eventingduckv1.Channelable) (s : messagingv1.Subscription)
    (Hwf : wf_conditions (Conditions (fst w)))
    (Hc : channels !! i = Some c) (Hcnone : channelReady c = None)
    (Hs : subscriptions !! j = Some s) (Hsnone : subscriptionReady s = None) :
  ((exists e, ChannelStatuses (fst (PropagateChannelStatuses M channels w)) !! i = Some e /\
      Channel e = channelRef c /\
      CondType (Channel_ReadyCondition e) = ConditionReady /\
      Status (Channel_ReadyCondition e) = ConditionUnknown /\
      Reason (Channel_ReadyCondition e) = "NoReady" /\
      Message (Channel_ReadyCondition e) = "Channel does not have Ready condition") /\
   (exists a, GetCondition M SequenceConditionChannelsReady
                (fst (PropagateChannelStatuses M channels w)) = Some a /\
              Status a = ConditionUnknown /\ Status a <> ConditionTrue)) /\
  ((exists e, SubscriptionStatuses (fst (PropagateSubscriptionStatuses M subscriptions w)) !! j
              = Some e /\
      Subscription e = subscriptionRef s /\
      CondType (Subscription_ReadyCondition e) = ConditionReady /\
      Status (Subscription_ReadyCondition e) = ConditionUnknown /\
      Reason (Subscription_ReadyCondition e) = "NoReady" /\
      Message (Subscription_ReadyCondition e) = "Subscription does not have Ready condition") /\
   (exists a, GetCondition M SequenceConditionSubscriptionsReady
                (fst (PropagateSubscriptionStatuses M subscriptions w)) = Some a /\
              Status a = ConditionUnknown /\ Status a <> ConditionTrue)).
Proof.
  split; split.
  - destruct (PropagateChannelStatuses_statuses M channels w) as [clk ->].
    destruct (Forall2_lookup_l _ _ _ _ _ (channelEntries_mirror channels clk) Hc)
      as (e & He & Href & Hrc).
    rewrite Hcnone in Hrc. destruct Hrc as [tm Hrc].
    exists e. rewrite Hrc. simpl. auto 10.
  - destruct (PropagateChannelStatuses_aggregate channels w Hwf) as (a & Hg & Ha).
    rewrite (channelsAllReady_false channels c) in Ha.
    + destruct Ha as [Hu _]. exists a. rewrite Hu. repeat split; auto; discriminate.
    + apply list_elem_of_In. eapply list_elem_of_lookup_2, Hc.
    + now rewrite Hcnone.
  - rewrite PropagateSubscriptionStatuses_statuses.
    destruct (Forall2_lookup_l _ _ _ _ _ (subscriptionEntries_mirror subscriptions (snd w)) Hs)
      as (e & He & Href & Hrc).
    rewrite Hsnone in Hrc. destruct Hrc as [tm Hrc].
    exists e. rewrite Hrc. simpl. auto 10.
  - destruct (PropagateSubscriptionStatuses_aggregate subscriptions w Hwf) as (a & Hg & Ha).
    rewrite (subscriptionsAllReady_false subscriptions s) in Ha.
    + destruct Ha as [Hu _]. exists a. rewrite Hu. repeat split; auto; discriminate.
    + apply list_elem_of_In. eapply list_elem_of_lookup_2, Hs.
    + now rewrite Hsnone.
Qed.

Lemma ChannelsReady_not_Addressable :
  ~ In SequenceConditionAddressable [SequenceConditionChannelsReady; happy sCondSet].
Proof. simpl. intros [H|[H|[]]]; discriminate. Qed.

(** C6.  For a non-empty channel list the address is derived from the
    first channel alone: when its advertised address is nil or has no
    URL, [Address] is the empty Addressable and the [Addressable]
    condition is Unknown with reason "emptyAddress"; otherwise [Address]
    holds that URL and the [Addressable] condition is True.  The
    remaining channels [rest] play no part.  The status record is any one
    whose conditions are named. *)
Theorem address_from_first_channel (w : World)
    (c : eventingduckv1.Channelable) (rest : list eventingduckv1.Channelable)
    (Hwf : wf_conditions (Conditions (fst w))) :
  match eventingduckv1.Status_Address c with
  | Some (duckv1.mkAddressable _ (Some url) _ _) =>
      Address (fst (PropagateChannelStatuses M (c :: rest) w))
      = duckv1.mkAddressable None (Some url) None None /\
      exists a, GetCondition M SequenceConditionAddressable
                  (fst (PropagateChannelStatuses M (c :: rest) w)) = Some a /\
                Status a = ConditionTrue
  | _ =>
      Address (fst (PropagateChannelStatuses M (c :: rest) w)) = duckv1.zeroAddressable /\
      exists a, GetCondition M SequenceConditionAddressable
                  (fst (PropagateChannelStatuses M (c :: rest) w)) = Some a /\
                Status a = ConditionUnknown /\ Reason a = "emptyAddress"
  end.
Proof.
  rewrite PropagateChannelStatuses_cons_eq. cbv zeta. unfold GetCondition.
  cbn [fst Conditions Address mgr_GetCondition M Manage].
  rewrite (touches_only_get _ _ _ _ (finalMark_touches _ _ _ _) ChannelsReady_not_Addressable).
  cbn [fst].
  destruct (eventingduckv1.Status_Address c) as [[n [u|] ca au]|]; cbn [derivedAddress addressMark];
    (split; [reflexivity|]).
  - destruct (MarkTrue_read SequenceConditionAddressable (Conditions (fst w), snd w))
      as (a & Hg & _ & Hs); auto with seq. eauto.
  - destruct (MarkUnknown_read SequenceConditionAddressable "emptyAddress" "addressable is nil"
                (Conditions (fst w), snd w)) as (a & Hg & _ & Hs & Hr & _); auto with seq. eauto.
  - destruct (MarkUnknown_read SequenceConditionAddressable "emptyAddress" "addressable is nil"
                (Conditions (fst w), snd w)) as (a & Hg & _ & Hs & Hr & _); auto with seq. eauto.
Qed.

Lemma not_in_pair (t a b : ConditionType) : t <> a -> t <> b -> ~ In t [a; b].
Proof. intros Ha Hb [H|[H|[]]]; congruence. Qed.

Lemma PropagateSubscriptionStatuses_get (subscriptions : list messagingv1.Subscription)
    (w : World) (t : ConditionType) :
  t <> SequenceConditionSubscriptionsReady -> t <> happy sCondSet ->
  GetCondition M t (fst (PropagateSubscriptionStatuses M subscriptions w)) = GetCondition M t (fst w).
Proof.
  intros H1 H2. rewrite PropagateSubscriptionStatuses_eq. cbv zeta. unfold GetCondition.
  cbn [fst Conditions mgr_GetCondition M Manage].
  rewrite (touches_only_get _ _ _ _ (finalMark_touches _ _ _ _)); [reflexivity|].
  now apply not_in_pair.
Qed.

(** C10.  [PropagateSubscriptionStatuses] leaves [ChannelStatuses],
    [Address] and the [ChannelsReady] and [Addressable] conditions as they
    were; [PropagateChannelStatuses] leaves [SubscriptionStatuses] and the
    [SubscriptionsReady] condition as they were; and neither changes the
    [OIDCIdentityCreated] condition. *)
Theorem propagation_frame (w : World)
    (channels : list eventingduckv1.Channelable) (subscriptions : list messagingv1.Subscription) :
  (ChannelStatuses (fst (PropagateSubscriptionStatuses M subscriptions w)) = ChannelStatuses (fst w) /\
   Address (fst (PropagateSubscriptionStatuses M subscriptions w)) = Address (fst w) /\
   GetCondition M SequenceConditionChannelsReady (fst (PropagateSubscriptionStatuses M subscriptions w))
   = GetCondition M SequenceConditionChannelsReady (fst w) /\
   GetCondition M SequenceConditionAddressable (fst (PropagateSubscriptionStatuses M subscriptions w))
   = GetCondition M SequenceConditionAddressable (fst w) /\
   GetCondition M SequenceConditionOIDCIdentityCreated
     (fst (PropagateSubscriptionStatuses M subscriptions w))
   = GetCondition M SequenceConditionOIDCIdentityCreated (fst w)) /\
  (SubscriptionStatuses (fst (PropagateChannelStatuses M channels w)) = SubscriptionStatuses (fst w) /\
   GetCondition M SequenceConditionSubscriptionsReady (fst (PropagateChannelStatuses M channels w))
   = GetCondition M SequenceConditionSubscriptionsReady (fst w) /\
   GetCondition M SequenceConditionOIDCIdentityCreated (fst (PropagateChannelStatuses M channels w))
   = GetCondition M SequenceConditionOIDCIdentityCreated (fst w)).
Proof.
  split.
  - rewrite PropagateSubscriptionStatuses_eq. cbv zeta. unfold GetCondition.
    cbn [fst Conditions Address ChannelStatuses mgr_GetCondition M Manage].
    repeat split;
      rewrite (touches_only_get _ _ _ _ (finalMark_touches _ _ _ _)); try reflexivity;
      apply not_in_pair; discriminate.
  - destruct channels as [|c rest].
    + rewrite PropagateChannelStatuses_nil_eq. cbv zeta. unfold GetCondition.
      cbn [fst Conditions SubscriptionStatuses mgr_GetCondition M Manage].
      repeat split;
        rewrite (touches_only_get _ _ _ _ (MarkUnknown_touches sCondSet _ _ _)); try reflexivity;
        apply not_in_pair; discriminate.
    + rewrite PropagateChannelStatuses_cons_eq. cbv zeta. unfold GetCondition.
      cbn [fst Conditions SubscriptionStatuses mgr_GetCondition M Manage].
      repeat split;
        (rewrite (touches_only_get _ _ _ _ (finalMark_touches _ _ _ _));
           [cbn [fst]; rewrite (touches_only_get _ _ _ _ (addressMark_touches _));
              [reflexivity|] |]);
        apply not_in_pair; discriminate.
Qed.

(** ** The Ready aggregate *)

Lemma finalMark_Inv (t : ConditionType) (reason message : string) (b : bool) (s : CS) :
  In t (dependents sCondSet) -> wf_conditions (fst s) -> tri_state sCondSet (fst s) ->
  Inv sCondSet (fst (finalMark t reason message b s)).
Proof.
  intros Ht Hwf Htri. unfold finalMark. destruct b.
  - rewrite MarkTrue_WithReason. apply MarkTrueWithReason_Inv; auto with seq.
  - apply MarkUnknown_Inv; auto with seq.
Qed.

Lemma addressMark_Inv (address : option duckv1.Addressable) (s : CS) :
  wf_conditions (fst s) -> tri_state sCondSet (fst s) ->
  Inv sCondSet (fst (addressMark address s)).
Proof.
  intros Hwf Htri. unfold addressMark.
  destruct address as [[n [u|] ca au]|];
    try (apply MarkUnknown_Inv; auto with seq).
  rewrite MarkTrue_WithReason. apply MarkTrueWithReason_Inv; auto with seq.
Qed.

(** Every exported operation keeps the invariant of the collection. *)
Lemma exec_Inv (o : Op) (w : World) :
  Inv sCondSet (Conditions (fst w)) -> Inv sCondSet (Conditions (fst (exec M o w))).
Proof.
  intros HI. pose proof HI as (Hwf & Htri & _).
  destruct o; cbn [exec].
  - apply (InitializeConditions_Inv sCondSet sCondSet_happy_not_dependent
             (Conditions (fst w), snd w) HI).
  - rewrite PropagateSubscriptionStatuses_eq. cbv zeta. cbn [fst Conditions].
    apply finalMark_Inv; auto with seq.
  - destruct channels as [|c rest].
    + rewrite PropagateChannelStatuses_nil_eq. cbv zeta. cbn [fst Conditions].
      apply MarkUnknown_Inv; auto with seq.
    + rewrite PropagateChannelStatuses_cons_eq. cbv zeta. cbn [fst Conditions].
      destruct (addressMark_Inv (eventingduckv1.Status_Address c) (Conditions (fst w), snd w)
                  Hwf Htri) as (Hwf1 & Htri1 & _).
      apply finalMark_Inv; auto with seq.
  - apply (MarkUnknown_Inv sCondSet); auto with seq.
  - apply (MarkUnknown_Inv sCondSet); auto with seq.
  - apply (MarkUnknown_Inv sCondSet); auto with seq.
  - apply (MarkTrueWithReason_Inv sCondSet); auto with seq.
  - apply (MarkTrueWithReason_Inv sCondSet); auto with seq.
  - apply (MarkFalse_Inv sCondSet); auto with seq.
  - apply (MarkUnknown_Inv sCondSet); auto with seq.
Qed.

Lemma emptyStatus_Inv : Inv sCondSet (Conditions emptyStatus).
Proof.
  split; [constructor|]. split; [intros c []|].
  split; [discriminate|]. intros H. specialize (H _ dependent_ChannelsReady). discriminate.
Qed.

Lemma reachable_Inv (w : World) : reachable w -> Inv sCondSet (Conditions (fst w)).
Proof. induction 1; [apply emptyStatus_Inv | now apply exec_Inv]. Qed.

Lemma allTrue_tracked (cs : list Condition) :
  allTrue sCondSet cs <->
  forall t, In t tracked -> exists c, apis.GetCondition t cs = Some c /\ Status c = ConditionTrue.
Proof.
  unfold allTrue, statusOf. change (dependents sCondSet) with tracked.
  split; intros H t Ht; specialize (H t Ht).
  - destruct (apis.GetCondition t cs) as [c|]; [|discriminate]. exists c. split; [reflexivity|].
    now injection H.
  - destruct H as (c & -> & Hs). simpl. now rewrite Hs.
Qed.

(** The conditions go through the manager: whatever implementation of
    the interface an operation is run with, it stores no conditions but
    those its manager returns, and it never hands the type [Ready] to it.
    The loops read the clock and leave the conditions alone. *)
Lemma managed_managing (f : CS -> CS) (w : World) :
  managed (managing f w) = f (managed w).
Proof. unfold managed, managing. cbn [fst snd Conditions set_Conditions]. now destruct (f _). Qed.

Lemma by_manager_subscriptionEntries (m : ConditionManager) (s0 : CS)
    (subscriptions : list messagingv1.Subscription) :
  forall cs clk, by_manager m s0 (cs, clk) ->
    by_manager m s0 (cs, snd (subscriptionEntries subscriptions clk)).
Proof.
  induction subscriptions as [|x rest IH]; intros cs clk H; [exact H|].
  cbn [subscriptionEntries]. destruct (subscriptionReady x).
  - specialize (IH cs clk H). now destruct (subscriptionEntries rest clk).
  - specialize (IH cs (snd (time_Now clk)) (by_manager_Now m s0 (cs, clk) H)).
    now destruct (subscriptionEntries rest (snd (time_Now clk))).
Qed.

Lemma by_manager_channelEntries (m : ConditionManager) (s0 : CS)
    (channels : list eventingduckv1.Channelable) :
  forall cs clk, by_manager m s0 (cs, clk) ->
    by_manager m s0 (cs, snd (channelEntries channels clk)).
Proof.
  induction channels as [|x rest IH]; intros cs clk H; [exact H|].
  cbn [channelEntries]. destruct (channelReady x).
  - specialize (IH cs clk H). now destruct (channelEntries rest clk).
  - specialize (IH cs (snd (time_Now clk)) (by_manager_Now m s0 (cs, clk) H)).
    now destruct (channelEntries rest (snd (time_Now clk))).
Qed.

Lemma by_manager_setAddress (m : ConditionManager) (s0 : CS)
    (address : option duckv1.Addressable) (w : World) :
  by_manager m s0 (managed w) -> by_manager m s0 (managed (setAddress m address w)).
Proof.
  intros H. unfold setAddress.
  destruct address as [[n [u|] ca au]|]; rewrite managed_managing;
    constructor; (discriminate || exact H).
Qed.

Lemma exec_by_manager (m : ConditionManager) (o : Op) (w : World) :
  by_manager m (managed w) (managed (exec m o w)).
Proof.
  pose proof (by_manager_refl m (managed w)) as H0.
  destruct o; cbn [exec].
  - unfold InitializeConditions. rewrite managed_managing. now constructor.
  - rewrite PropagateSubscriptionStatuses_spec. cbv zeta.
    pose proof (by_manager_subscriptionEntries m _ subscriptions _ _ H0) as H1.
    destruct (subscriptionsAllReady subscriptions);
      unfold MarkSubscriptionsNotReady; rewrite managed_managing;
      constructor; (discriminate || exact H1).
  - destruct channels as [|c rest].
    + rewrite PropagateChannelStatuses_nil. unfold MarkChannelsNotReady.
      rewrite managed_managing. constructor; [discriminate | exact H0].
    + rewrite PropagateChannelStatuses_cons. cbv zeta.
      pose proof (by_manager_setAddress m _ (eventingduckv1.Status_Address c) w H0) as H1.
      pose proof (by_manager_channelEntries m _ (c :: rest) _ _ H1) as H2.
      destruct (channelsAllReady (c :: rest));
        unfold MarkChannelsNotReady; rewrite managed_managing;
        constructor; (discriminate || exact H2).
  - unfold MarkChannelsNotReady. rewrite managed_managing. constructor; [discriminate | exact H0].
  - unfold MarkSubscriptionsNotReady. rewrite managed_managing.
    constructor; [discriminate | exact H0].
  - unfold MarkAddressableNotReady. rewrite managed_managing.
    constructor; [discriminate | exact H0].
  - unfold MarkOIDCIdentityCreatedSucceeded. rewrite managed_managing.
    constructor; [discriminate | exact H0].
  - unfold MarkOIDCIdentityCreatedSucceededWithReason. rewrite managed_managing.
    constructor; [discriminate | exact H0].
  - unfold MarkOIDCIdentityCreatedFailed. rewrite managed_managing.
    constructor; [discriminate | exact H0].
  - unfold MarkOIDCIdentityCreatedUnknown. rewrite managed_managing.
    constructor; [discriminate | exact H0].
Qed.

(** C1.  In every state a status record reaches, [IsReady] answers true
    exactly when the four tracked sub-conditions (ChannelsReady,
    SubscriptionsReady, Addressable, OIDCIdentityCreated) are all present
    with status True; one of them being False or Unknown makes it answer
    false, and so does marking any of them not ready; and no operation of
    the file writes [Ready]: run with any manager, the file's own
    [sCondSet.Manage(ss)] included, an operation takes the conditions from
    their state before to their state after by calls of that manager on
    types other than [Ready] alone, so the aggregate is what the manager
    makes of these calls. *)
Theorem ready_aggregate (w : World) (Hreach : reachable w) :
  (IsReady M (fst w) = true <->
   forall t, In t tracked ->
     exists c, GetCondition M t (fst w) = Some c /\ Status c = ConditionTrue) /\
  (forall t c, In t tracked -> GetCondition M t (fst w) = Some c ->
     Status c = ConditionFalse \/ Status c = ConditionUnknown ->
     IsReady M (fst w) = false) /\
  (forall reason message,
     IsReady M (fst (MarkChannelsNotReady M reason message w)) = false /\
     IsReady M (fst (MarkSubscriptionsNotReady M reason message w)) = false /\
     IsReady M (fst (MarkAddressableNotReady M reason message w)) = false /\
     IsReady M (fst (MarkOIDCIdentityCreatedUnknown M reason message w)) = false /\
     IsReady M (fst (MarkOIDCIdentityCreatedFailed M reason message w)) = false) /\
  (forall o w0, by_manager M (managed w0) (managed (exec M o w0))) /\
  (forall (m : ConditionManager) o w0, by_manager m (managed w0) (managed (exec m o w0))).
Proof.
  assert (Hiff : forall w', reachable w' ->
            (IsReady M (fst w') = true <->
             forall t, In t tracked ->
               exists c, GetCondition M t (fst w') = Some c /\ Status c = ConditionTrue)).
  { intros w' Hw'. destruct (reachable_Inv w' Hw') as (_ & _ & Hi).
    exact (iff_trans Hi (allTrue_tracked (Conditions (fst w')))). }
  assert (Hstatic : forall w', reachable w' -> forall t c, In t tracked ->
            GetCondition M t (fst w') = Some c ->
            Status c = ConditionFalse \/ Status c = ConditionUnknown ->
            IsReady M (fst w') = false).
  { intros w' Hw' t c Ht Hg Hs. destruct (IsReady M (fst w')) eqn:E; [|reflexivity].
    destruct (proj1 (Hiff w' Hw') E t Ht) as (c' & Hg' & Hs').
    rewrite Hg in Hg'. injection Hg' as <-. destruct Hs as [Hs|Hs]; rewrite Hs in Hs'; discriminate. }
  assert (Hwf : wf_conditions (Conditions (fst w))) by (now destruct (reachable_Inv w Hreach)).
  assert (Hunknown : forall t reason message, In t tracked ->
            IsReady M (fst (managing (MarkUnknown sCondSet t reason message) w)) = false).
  { intros t reason message Ht.
    assert (Hop : exists o, exec M o w = managing (MarkUnknown sCondSet t reason message) w).
    { destruct Ht as [<-|[<-|[<-|[<-|[]]]]].
      - now exists (OpMarkChannelsNotReady reason message).
      - now exists (OpMarkSubscriptionsNotReady reason message).
      - now exists (OpMarkAddressableNotReady reason message).
      - now exists (OpMarkOIDCIdentityCreatedUnknown reason message). }
    destruct Hop as [o Ho].
    destruct (MarkUnknown_read t reason message (Conditions (fst w), snd w) Hwf Ht)
      as (c & Hg & _ & Hs & _).
    apply (Hstatic _ (eq_ind _ reachable (reachable_exec o w Hreach) _ Ho) t c Ht Hg).
    now right. }
  split; [now apply Hiff|]. split; [now apply Hstatic|].
  split; [|split; [intros o w0|intros m o w0]; apply exec_by_manager].
  intros reason message.
  repeat split; try (apply Hunknown; simpl; tauto).
  destruct (MarkFalse_get sCondSet SequenceConditionOIDCIdentityCreated reason message
              (Conditions (fst w), snd w) Hwf) as (tm & Hg).
  apply (Hstatic _ (reachable_exec (OpMarkOIDCIdentityCreatedFailed reason message) w Hreach)
           SequenceConditionOIDCIdentityCreated _ (or_intror (or_intror (or_intror (or_introl eq_refl))))
           Hg).
  now left.
Qed.

(** ** Marks that change nothing *)







Lemma mark_of_touches (cond : Condition) (f : CS -> CS) :
  mark_of cond f -> touches_only [CondType cond; happy sCondSet] f.
Proof.
  intros (h & Hh & Hf) s t Hn. rewrite Hf, Hh.
  - apply SetCondition_typed_other. intros ->. apply Hn. now left.
  - intros [<-|[]]. apply Hn. right. now left.
Qed.

Lemma MarkTrue_mark_of (t : ConditionType) :
  mark_of (trueCondition sCondSet "" "" t) (MarkTrue sCondSet t).
Proof. exists (recomputeHappiness sCondSet t). split; [apply recomputeHappiness_touches|reflexivity]. Qed.

Lemma MarkUnknown_mark_of (t : ConditionType) (reason message : string) :
  mark_of (unknownCondition sCondSet reason message t) (MarkUnknown sCondSet t reason message).
Proof.
  exists (MarkUnknown_loop sCondSet t reason message (dependents sCondSet) false).
  split; [apply MarkUnknown_loop_touches|reflexivity].
Qed.

Lemma finalMark_mark_of (t : ConditionType) (reason message : string) (b : bool) :
  mark_of (finalCondition t reason message b) (finalMark t reason message b).
Proof.
  unfold finalCondition, finalMark. destruct b;
    [apply MarkTrue_mark_of | apply MarkUnknown_mark_of].
Qed.

Lemma addressMark_mark_of (address : option duckv1.Addressable) :
  mark_of (addressCondition address) (addressMark address).
Proof.
  unfold addressCondition, addressMark. destruct address as [[n [u|] ca au]|];
    [apply MarkTrue_mark_of | apply MarkUnknown_mark_of | apply MarkUnknown_mark_of].
Qed.



(** ** The writers of the address *)


Lemma managing_frame (ts : list ConditionType) (f : CS -> CS) (w : World) (t : ConditionType) :
  touches_only ts f -> ~ In t ts ->
  GetCondition M t (fst (managing f w)) = GetCondition M t (fst w).
Proof. intros Hf Hn. apply (touches_only_get _ _ (Conditions (fst w), snd w) _ Hf Hn). Qed.

Lemma InitializeConditions_never_False (w : World) (t : ConditionType) (a : Condition) :
  GetCondition M t (fst (InitializeConditions M w)) = Some a -> Status a = ConditionFalse ->
  GetCondition M t (fst w) = Some a.
Proof.
  unfold GetCondition, InitializeConditions. cbn [mgr_GetCondition M Manage managing fst Conditions set_Conditions mgr_InitializeConditions].
  intros Hg Hs. destruct (apis.GetCondition t (Conditions (fst w))) as [c|] eqn:E.
  - rewrite (InitializeConditions_present sCondSet (Conditions (fst w), snd w) _ _ E) in Hg.
    exact Hg.
  - rewrite (InitializeConditions_absent sCondSet (Conditions (fst w), snd w) t a E Hg) in Hs.
    discriminate.
Qed.



(** ** Calling a propagation twice *)

Lemma subscriptionEntries_same (subscriptions : list messagingv1.Subscription) (clk clk' : Clock) :
  Forall2 same_subscription_entry
    (fst (subscriptionEntries subscriptions clk)) (fst (subscriptionEntries subscriptions clk')).
Proof.
  revert clk clk'. induction subscriptions as [|s rest IH]; intros clk clk'; simpl; [constructor|].
  destruct (subscriptionReady s) as [rc|].
  - specialize (IH clk clk').
    destruct (subscriptionEntries rest clk), (subscriptionEntries rest clk'). simpl in *.
    constructor; [|exact IH]. split; [reflexivity|]. now destruct rc.
  - specialize (IH (fun n => clk (S n)) (fun n => clk' (S n))).
    destruct (subscriptionEntries rest (fun n => clk (S n))),
             (subscriptionEntries rest (fun n => clk' (S n))). simpl in *.
    constructor; [|exact IH]. split; reflexivity.
Qed.


Lemma channelEntries_same (channels : list eventingduckv1.Channelable) (clk clk' : Clock) :
  Forall2 same_channel_entry
    (fst (channelEntries channels clk)) (fst (channelEntries channels clk')).
Proof.
  revert clk clk'. induction channels as [|c rest IH]; intros clk clk'; simpl; [constructor|].
  destruct (channelReady c) as [rc|].
  - specialize (IH clk clk').
    destruct (channelEntries rest clk), (channelEntries rest clk'). simpl in *.
    constructor; [|exact IH]. split; [reflexivity|]. now destruct rc.
  - specialize (IH (fun n => clk (S n)) (fun n => clk' (S n))).
    destruct (channelEntries rest (fun n => clk (S n))),
             (channelEntries rest (fun n => clk' (S n))). simpl in *.
    constructor; [|exact IH]. split; reflexivity.
Qed.


Lemma tracked_not_happy (t : ConditionType) : In t tracked -> t <> happy sCondSet.
Proof. intros [<-|[<-|[<-|[<-|[]]]]]; discriminate. Qed.



Lemma bool_iff_eq (a b : bool) : (a = true <-> b = true) -> a = b.
Proof.
  destruct a, b; intros [H1 H2]; try reflexivity.
  - symmetry. now apply H1.
  - now apply H2.
Qed.


Lemma PropagateSubscriptionStatuses_Inv (subscriptions : list messagingv1.Subscription) (w : World) :
  wf_conditions (Conditions (fst w)) -> tri_state sCondSet (Conditions (fst w)) ->
  Inv sCondSet (Conditions (fst (PropagateSubscriptionStatuses M subscriptions w))).
Proof.
  intros Hwf Htri. rewrite PropagateSubscriptionStatuses_eq. cbv zeta. cbn [fst Conditions].
  apply finalMark_Inv; auto with seq.
Qed.

Lemma PropagateChannelStatuses_Inv (channels : list eventingduckv1.Channelable) (w : World) :
  wf_conditions (Conditions (fst w)) -> tri_state sCondSet (Conditions (fst w)) ->
  Inv sCondSet (Conditions (fst (PropagateChannelStatuses M channels w))).
Proof.
  intros Hwf Htri. destruct channels as [|c rest].
  - rewrite PropagateChannelStatuses_nil_eq. cbv zeta. cbn [fst Conditions].
    apply MarkUnknown_Inv; auto with seq.
  - rewrite PropagateChannelStatuses_cons_eq. cbv zeta. cbn [fst Conditions].
    destruct (addressMark_Inv (eventingduckv1.Status_Address c) (Conditions (fst w), snd w)
                Hwf Htri) as (Hwf1 & Htri1 & _).
    apply finalMark_Inv; auto with seq.
Qed.


(** Also when every child carries a [Ready] condition the record of the
    second call need not be that of the first: [setAddress] and the final
    mark both write the aggregate, and its transition time moves.  This
    is why the amended claim speaks of the tracked conditions and of the
    verdict of [IsReady], not of the stored [Ready] condition. *)
Example propagation_twice_Ready_restamped :
  let failed := [mkCondition ConditionReady ConditionFalse "" 5%Z "Dead" ""] in
  let channel :=
    eventingduckv1.mkChannelable "messaging.knative.dev/v1" "InMemoryChannel" "first" "default"
      failed (Some (duckv1.mkAddressable None (Some "http://first.default.svc") None None)) in
  let subscription :=
    messagingv1.mkSubscription "messaging.knative.dev/v1" "Subscription" "step-0" "default" failed in
  let w := PropagateSubscriptionStatuses M [subscription]
             (PropagateChannelStatuses M [channel] (emptyStatus, ticking 10)) in
  let v1 := PropagateChannelStatuses M [channel] w in
  let v2 := PropagateChannelStatuses M [channel] v1 in
  option_map LastTransitionTime (GetCondition M SequenceConditionReady (fst v1)) = Some 16%Z /\
  option_map LastTransitionTime (GetCondition M SequenceConditionReady (fst v2)) = Some 18%Z.
Proof. cbv zeta. split; vm_compute; reflexivity. Qed.


(** ** Named conditions are an invariant *)

(** Every exported operation keeps the conditions named, so the records
    a reconciler passes in, which start empty, are all of this kind. *)
Lemma exec_wf (o : Op) (w : World) :
  wf_conditions (Conditions (fst w)) -> wf_conditions (Conditions (fst (exec M o w))).
Proof.
  intros Hwf. destruct o; cbn [exec].
  - now apply (InitializeConditions_wf sCondSet (Conditions (fst w), snd w)).
  - rewrite PropagateSubscriptionStatuses_eq. cbv zeta. cbn [fst Conditions].
    now apply finalMark_wf.
  - destruct channels as [|c rest].
    + now apply (MarkUnknown_wf sCondSet _ _ _ (Conditions (fst w), snd w)).
    + rewrite PropagateChannelStatuses_cons_eq. cbv zeta. cbn [fst Conditions].
      apply finalMark_wf. cbn [fst].
      now apply (addressMark_wf _ (Conditions (fst w), snd w)).
  - now apply (MarkUnknown_wf sCondSet _ _ _ (Conditions (fst w), snd w)).
  - now apply (MarkUnknown_wf sCondSet _ _ _ (Conditions (fst w), snd w)).
  - now apply (MarkUnknown_wf sCondSet _ _ _ (Conditions (fst w), snd w)).
  - now apply (MarkTrueWithReason_wf sCondSet _ "" "" (Conditions (fst w), snd w)).
  - now apply (MarkTrueWithReason_wf sCondSet _ _ _ (Conditions (fst w), snd w)).
  - now apply (MarkFalse_wf sCondSet _ _ _ (Conditions (fst w), snd w)).
  - now apply (MarkUnknown_wf sCondSet _ _ _ (Conditions (fst w), snd w)).
Qed.

Lemma emptyStatus_wf : wf_conditions (Conditions emptyStatus).
Proof. constructor. Qed.

(** ** The theorems at work on a Sequence of two steps *)

Lemma initialized_wf : wf_conditions (Conditions (fst initialized)).
Proof.
  vm_compute. repeat (constructor; [simpl; intuition discriminate|]). constructor.
Defined.

Lemma ready_aggregate_witness :
  reachable reconciled /\
  IsReady M (fst reconciled) = true /\
  forall t, In t tracked ->
    exists c, GetCondition M t (fst reconciled) = Some c /\ Status c = ConditionTrue.
Proof.
  assert (H : reachable reconciled) by (repeat apply reachable_exec; apply reachable_fresh).
  split; [exact H|]. split; [vm_compute; reflexivity|].
  apply (proj1 (proj1 (ready_aggregate reconciled H))). vm_compute. reflexivity.
Defined.

Lemma all_ready_conjunction_witness :
  wf_conditions (Conditions (fst initialized)) /\
  (exists c, GetCondition M SequenceConditionChannelsReady
               (fst (PropagateChannelStatuses M readyChannels initialized)) = Some c /\
             Status c = ConditionTrue) /\
  length (SubscriptionStatuses (fst (PropagateSubscriptionStatuses M readySubscriptions initialized)))
  = 2.
Proof.
  split; [exact initialized_wf|].
  assert (H := all_ready_conjunction initialized readyChannels readySubscriptions initialized_wf
                 ltac:(discriminate)
                 ltac:(repeat constructor; eexists; split; reflexivity)
                 ltac:(discriminate)
                 ltac:(repeat constructor; eexists; split; reflexivity)).
  split; [exact (proj1 (proj1 H)) | exact (proj1 (proj2 (proj2 H)))].
Defined.

Lemma one_false_poisons_all_witness :
  wf_conditions (Conditions (fst initialized)) /\
  (exists c, GetCondition M SequenceConditionChannelsReady
               (fst (PropagateChannelStatuses M oneFailedChannels initialized)) = Some c /\
             Status c = ConditionUnknown /\ Reason c = "ChannelsNotReady" /\
             Status c <> ConditionTrue /\ Status c <> ConditionFalse) /\
  (exists c, GetCondition M SequenceConditionSubscriptionsReady
               (fst (PropagateSubscriptionStatuses M oneFailedSubscriptions initialized)) = Some c /\
             Status c = ConditionUnknown /\ Reason c = "SubscriptionsNotReady" /\
             Status c <> ConditionTrue /\ Status c <> ConditionFalse).
Proof.
  split; [exact initialized_wf|].
  apply (one_false_poisons_all initialized oneFailedChannels oneFailedSubscriptions 1 0
           initialized_wf).
  - simpl. lia.
  - do 2 eexists. split; [reflexivity|]. split; reflexivity.
  - intros [|[|k]] c Hk Hc; try congruence; simpl in Hc; [|discriminate].
    injection Hc as <-. eexists. split; reflexivity.
  - simpl. lia.
  - do 2 eexists. split; [reflexivity|]. split; reflexivity.
  - intros [|[|k]] c Hk Hc; try congruence; simpl in Hc; [|discriminate].
    injection Hc as <-. eexists. split; reflexivity.
Defined.

Lemma empty_input_not_ready_witness :
  wf_conditions (Conditions (fst reconciled)) /\
  (exists c, GetCondition M SequenceConditionChannelsReady
               (fst (PropagateChannelStatuses M [] reconciled)) = Some c /\
             Status c = ConditionUnknown /\ Status c <> ConditionTrue) /\
  Address (fst (PropagateChannelStatuses M [] reconciled)) = Address (fst reconciled) /\
  (exists c, GetCondition M SequenceConditionSubscriptionsReady
               (fst (PropagateSubscriptionStatuses M [] reconciled)) = Some c /\
             Status c = ConditionUnknown /\ Status c <> ConditionTrue).
Proof.
  assert (Hwf : wf_conditions (Conditions (fst reconciled))).
  { vm_compute. repeat (constructor; [simpl; intuition discriminate|]). constructor. }
  split; [exact Hwf|]. apply (empty_input_not_ready reconciled Hwf).
Defined.

Lemma missing_condition_synthesis_witness :
  wf_conditions (Conditions (fst initialized)) /\
  exists e,
    SubscriptionStatuses
      (fst (PropagateSubscriptionStatuses M
              [stepSubscription "step-0" (readyIs ConditionTrue); stepSubscription "step-1" []]
              initialized)) !! 1 = Some e /\
    Status (Subscription_ReadyCondition e) = ConditionUnknown /\
    Reason (Subscription_ReadyCondition e) = "NoReady".
Proof.
  split; [exact initialized_wf|].
  destruct (missing_condition_synthesis initialized
              [stepChannel "step-0" [] None]
              [stepSubscription "step-0" (readyIs ConditionTrue); stepSubscription "step-1" []]
              0 1 (stepChannel "step-0" [] None) (stepSubscription "step-1" [])
              initialized_wf eq_refl eq_refl eq_refl eq_refl)
    as [_ [(e & He & _ & _ & Hs & Hr & _) _]].
  exists e. auto.
Defined.

Lemma address_from_first_channel_witness :
  wf_conditions (Conditions (fst initialized)) /\
  Address (fst (PropagateChannelStatuses M readyChannels initialized))
  = duckv1.mkAddressable None (Some "http://step-0.default.svc") None None /\
  Address (fst (PropagateChannelStatuses M
                  [stepChannel "step-0" (readyIs ConditionTrue) None;
                   stepChannel "step-1" (readyIs ConditionTrue) (addressAt "http://step-1.default.svc")]
                  initialized))
  = duckv1.zeroAddressable.
Proof.
  split; [exact initialized_wf|]. split.
  - exact (proj1 (address_from_first_channel initialized
                    (stepChannel "step-0" (readyIs ConditionTrue) (addressAt "http://step-0.default.svc"))
                    [stepChannel "step-1" (readyIs ConditionTrue) None] initialized_wf)).
  - exact (proj1 (address_from_first_channel initialized
                    (stepChannel "step-0" (readyIs ConditionTrue) None)
                    [stepChannel "step-1" (readyIs ConditionTrue) (addressAt "http://step-1.default.svc")]
                    initialized_wf)).
Defined.

(** * Further properties of the operations *)

(** ** What is read back after a propagation *)

Lemma finalMark_get (t : ConditionType) (reason message : string) (b : bool) (s : CS) :
  wf_conditions (fst s) -> t <> happy sCondSet ->
  exists tm, apis.GetCondition t (fst (finalMark t reason message b s))
             = Some (withTime (finalCondition t reason message b) tm).
Proof.
  intros Hwf Ht. unfold finalMark, finalCondition. destruct b.
  - rewrite MarkTrue_WithReason. now apply MarkTrueWithReason_get.
  - now apply MarkUnknown_get.
Qed.

Lemma addressMark_get (address : option duckv1.Addressable) (s : CS) :
  wf_conditions (fst s) ->
  exists tm, apis.GetCondition SequenceConditionAddressable (fst (addressMark address s))
             = Some (withTime (addressCondition address) tm).
Proof.
  intros Hwf. unfold addressMark, addressCondition.
  destruct address as [[n [u|] ca au]|];
    try (apply MarkUnknown_get; [exact Hwf | discriminate]).
  rewrite MarkTrue_WithReason. apply MarkTrueWithReason_get; [exact Hwf | discriminate].
Qed.

Lemma PropagateChannelStatuses_read (channels : list eventingduckv1.Channelable) (w : World) :
  wf_conditions (Conditions (fst w)) ->
  exists tm,
    GetCondition M SequenceConditionChannelsReady (fst (PropagateChannelStatuses M channels w))
    = Some (withTime (finalCondition SequenceConditionChannelsReady "ChannelsNotReady"
                        "Channels are not ready yet, or there are none"
                        (channelsAllReady channels)) tm).
Proof.
  intros Hwf. destruct channels as [|c rest].
  - rewrite PropagateChannelStatuses_nil_eq. cbv zeta. unfold GetCondition.
    cbn [fst Conditions mgr_GetCondition M Manage].
    apply (MarkUnknown_get sCondSet _ _ _ (Conditions (fst w), snd w) Hwf). discriminate.
  - rewrite PropagateChannelStatuses_cons_eq. cbv zeta. unfold GetCondition.
    cbn [fst Conditions mgr_GetCondition M Manage].
    apply finalMark_get; [|discriminate]. cbn [fst].
    now apply (addressMark_wf _ (Conditions (fst w), snd w)).
Qed.

Lemma PropagateSubscriptionStatuses_read (subscriptions : list messagingv1.Subscription) (w : World) :
  wf_conditions (Conditions (fst w)) ->
  exists tm,
    GetCondition M SequenceConditionSubscriptionsReady
      (fst (PropagateSubscriptionStatuses M subscriptions w))
    = Some (withTime (finalCondition SequenceConditionSubscriptionsReady "SubscriptionsNotReady"
                        "Subscriptions are not ready yet, or there are none"
                        (subscriptionsAllReady subscriptions)) tm).
Proof.
  intros Hwf. rewrite PropagateSubscriptionStatuses_eq. cbv zeta. unfold GetCondition.
  cbn [fst Conditions mgr_GetCondition M Manage].
  apply finalMark_get; [exact Hwf|discriminate].
Qed.

Lemma PropagateChannelStatuses_Addressable_read (c : eventingduckv1.Channelable)
    (rest : list eventingduckv1.Channelable) (w : World) :
  wf_conditions (Conditions (fst w)) ->
  exists tm,
    GetCondition M SequenceConditionAddressable (fst (PropagateChannelStatuses M (c :: rest) w))
    = Some (withTime (addressCondition (eventingduckv1.Status_Address c)) tm).
Proof.
  intros Hwf. rewrite PropagateChannelStatuses_cons_eq. cbv zeta. unfold GetCondition.
  cbn [fst Conditions mgr_GetCondition M Manage].
  rewrite (touches_only_get _ _ _ _ (finalMark_touches _ _ _ _) ChannelsReady_not_Addressable).
  cbn [fst]. now apply addressMark_get.
Qed.

Lemma channelsAllReady_iff (channels : list eventingduckv1.Channelable) :
  channelsAllReady channels = true <->
  channels <> [] /\ Forall (fun c => IsTrue (channelReady c) = true) channels.
Proof.
  unfold channelsAllReady. rewrite andb_true_iff, negb_true_iff, Nat.eqb_neq, forallb_forall,
    List.Forall_forall.
  split; intros [Hne Hall]; (split; [|exact Hall]).
  - intros ->. now apply Hne.
  - intros Hlen. apply Hne. now destruct channels.
Qed.

Lemma subscriptionsAllReady_iff (subscriptions : list messagingv1.Subscription) :
  subscriptionsAllReady subscriptions = true <->
  subscriptions <> [] /\ Forall (fun s => IsTrue (subscriptionReady s) = true) subscriptions.
Proof.
  unfold subscriptionsAllReady. rewrite andb_true_iff, negb_true_iff, Nat.eqb_neq, forallb_forall,
    List.Forall_forall.
  split; intros [Hne Hall]; (split; [|exact Hall]).
  - intros ->. now apply Hne.
  - intros Hlen. apply Hne. now destruct subscriptions.
Qed.

(** X1.  After a propagation the aggregate condition is True exactly when
    there is at least one child and every child has a [Ready] condition
    that is True (a child whose condition is Unknown, False or missing
    counts against it); in every other case it is Unknown with the fixed
    reason and message of the source.  The status record is any one whose
    conditions are named. *)
Theorem aggregate_true_iff_all_ready (w : World)
    (channels : list eventingduckv1.Channelable) (subscriptions : list messagingv1.Subscription)
    (Hwf : wf_conditions (Conditions (fst w))) :
  (exists a, GetCondition M SequenceConditionChannelsReady
               (fst (PropagateChannelStatuses M channels w)) = Some a /\
     (Status a = ConditionTrue <->
      channels <> [] /\ Forall (fun c => IsTrue (channelReady c) = true) channels) /\
     (Status a <> ConditionTrue ->
      Status a = ConditionUnknown /\ Reason a = "ChannelsNotReady" /\
      Message a = "Channels are not ready yet, or there are none")) /\
  (exists a, GetCondition M SequenceConditionSubscriptionsReady
               (fst (PropagateSubscriptionStatuses M subscriptions w)) = Some a /\
     (Status a = ConditionTrue <->
      subscriptions <> [] /\ Forall (fun s => IsTrue (subscriptionReady s) = true) subscriptions) /\
     (Status a <> ConditionTrue ->
      Status a = ConditionUnknown /\ Reason a = "SubscriptionsNotReady" /\
      Message a = "Subscriptions are not ready yet, or there are none")).
Proof.
  split.
  - destruct (PropagateChannelStatuses_read channels w Hwf) as [tm Hg].
    eexists. split; [exact Hg|]. rewrite <- channelsAllReady_iff.
    destruct (channelsAllReady channels); simpl.
    + split; [split; auto|]. intros Hn. now contradiction Hn.
    + split; [split; discriminate|]. intros _. repeat split.
  - destruct (PropagateSubscriptionStatuses_read subscriptions w Hwf) as [tm Hg].
    eexists. split; [exact Hg|]. rewrite <- subscriptionsAllReady_iff.
    destruct (subscriptionsAllReady subscriptions); simpl.
    + split; [split; auto|]. intros Hn. now contradiction Hn.
    + split; [split; discriminate|]. intros _. repeat split.
Qed.

Lemma aggregate_true_iff_all_ready_witness :
  wf_conditions (Conditions (fst initialized)) /\
  exists a, GetCondition M SequenceConditionChannelsReady
              (fst (PropagateChannelStatuses M oneFailedChannels initialized)) = Some a /\
            Status a = ConditionUnknown /\ Reason a = "ChannelsNotReady".
Proof.
  split; [exact initialized_wf|].
  destruct (proj1 (aggregate_true_iff_all_ready initialized oneFailedChannels [] initialized_wf))
    as (a & Hg & Hiff & Hnot).
  exists a. split; [exact Hg|].
  assert (Hn : Status a <> ConditionTrue).
  { intros Ht. apply Hiff in Ht as [_ Hall]. inversion Hall as [|x l _ Hl]. subst.
    inversion Hl as [|y l' Hy _]. subst. vm_compute in Hy. discriminate. }
  destruct (Hnot Hn) as (Hu & Hr & _). now split.
Defined.

(** ** InitializeConditions *)

Lemma initialize_fold_noop (status : string) (l : list ConditionType) (s : CS) :
  (forall t, In t l -> apis.GetCondition t (fst s) <> None) ->
  fold_left (fun s t => initializeTerminalCondition sCondSet t "" "" status s) l s = s.
Proof.
  induction l as [|a l IH]; intros H; simpl; [reflexivity|].
  rewrite initializeTerminalCondition_unfold.
  destruct (apis.GetCondition a (fst s)) eqn:E.
  - apply IH. intros t Ht. apply H. now right.
  - exfalso. apply (H a); [now left | exact E].
Qed.

Lemma InitializeConditions_noop (s : CS) :
  (forall t, In t declared -> apis.GetCondition t (fst s) <> None) ->
  apis.InitializeConditions sCondSet s = s.
Proof.
  intros H. rewrite InitializeConditions_unfold.
  assert (Hs : seedHappy sCondSet s = s).
  { unfold seedHappy. destruct (apis.GetCondition (happy sCondSet) (fst s)) eqn:E; [reflexivity|].
    exfalso. apply (H SequenceConditionReady); [now left | exact E]. }
  rewrite Hs. apply initialize_fold_noop. intros t Ht. apply H. now right.
Qed.

Lemma InitializeConditions_declares (s : CS) (t : ConditionType) :
  In t declared -> apis.GetCondition t (fst s) = None ->
  exists tm, apis.GetCondition t (fst (apis.InitializeConditions sCondSet s))
             = Some (withTime (mkCondition t ConditionUnknown "" zeroTime "" "") tm).
Proof.
  intros Ht Hn. rewrite InitializeConditions_unfold. destruct Ht as [<-|Ht].
  - exists (snd s 0). apply initialize_fold_present. unfold seedHappy.
    change (happy sCondSet) with SequenceConditionReady. rewrite Hn.
    apply (SetCondition_get_absent
             (mkCondition SequenceConditionReady ConditionUnknown ConditionSeverityError zeroTime "" "")
             s Hn).
  - assert (Hn' : apis.GetCondition t (fst (seedHappy sCondSet s)) = None).
    { rewrite GetCondition_typed, (seedHappy_touches sCondSet), <- GetCondition_typed; [exact Hn|].
      intros [Heq|[]]. apply (tracked_not_happy t Ht). now symmetry. }
    destruct (initialize_fold_absent sCondSet ConditionUnknown (dependents sCondSet) _ _ Hn')
      as [H1 _].
    destruct (H1 Ht) as [tm Hg]. exists tm. rewrite Hg.
    destruct Ht as [<-|[<-|[<-|[<-|[]]]]]; reflexivity.
Qed.

Lemma InitializeConditions_undeclared (s : CS) (t : ConditionType) :
  ~ In t declared ->
  apis.GetCondition t (fst (apis.InitializeConditions sCondSet s)) = apis.GetCondition t (fst s).
Proof.
  intros Ht. destruct (apis.GetCondition t (fst s)) as [c|] eqn:E.
  - now apply InitializeConditions_present.
  - rewrite InitializeConditions_unfold.
    assert (Hn' : apis.GetCondition t (fst (seedHappy sCondSet s)) = None).
    { rewrite GetCondition_typed, (seedHappy_touches sCondSet), <- GetCondition_typed; [exact E|].
      intros [Heq|[]]. apply Ht. left. now symmetry. }
    destruct (initialize_fold_absent sCondSet ConditionUnknown (dependents sCondSet) _ _ Hn')
      as [_ H2].
    apply H2. intros Hin. apply Ht. now right.
Qed.

Lemma InitializeConditions_seeds_aux (w : World) :
  (forall t c, GetCondition M t (fst w) = Some c ->
     GetCondition M t (fst (InitializeConditions M w)) = Some c) /\
  (forall t, In t declared -> GetCondition M t (fst w) = None ->
     exists c, GetCondition M t (fst (InitializeConditions M w)) = Some c).
Proof.
  unfold GetCondition, InitializeConditions.
  cbn [mgr_GetCondition M Manage managing fst Conditions set_Conditions mgr_InitializeConditions].
  split.
  - intros t c Hg.
    apply (InitializeConditions_present sCondSet (Conditions (fst w), snd w) t c Hg).
  - intros t Ht Hn.
    destruct (InitializeConditions_declares (Conditions (fst w), snd w) t Ht Hn) as [tm Hg].
    eexists. exact Hg.
Qed.

(** X2.  [InitializeConditions] completes the conditions and loses
    nothing: a condition that is present, of whatever type and status, is
    left exactly as it is; after the call each of the five declared types
    ([Ready] and the four tracked ones) has a condition; the condition of
    every other type, present or not, is as before; the per-child
    statuses and the address are untouched. *)
Theorem InitializeConditions_completes (w : World) :
  (forall t c, GetCondition M t (fst w) = Some c ->
     GetCondition M t (fst (InitializeConditions M w)) = Some c) /\
  (forall t, In t declared ->
     GetCondition M t (fst (InitializeConditions M w)) <> None) /\
  (forall t, ~ In t declared ->
     GetCondition M t (fst (InitializeConditions M w)) = GetCondition M t (fst w)) /\
  SubscriptionStatuses (fst (InitializeConditions M w)) = SubscriptionStatuses (fst w) /\
  ChannelStatuses (fst (InitializeConditions M w)) = ChannelStatuses (fst w) /\
  Address (fst (InitializeConditions M w)) = Address (fst w).
Proof.
  destruct (InitializeConditions_seeds_aux w) as [Hkeep Hadd].
  split; [exact Hkeep|]. split; [|split].
  - intros t Ht. destruct (GetCondition M t (fst w)) as [c|] eqn:E.
    + rewrite (Hkeep t c E). discriminate.
    + destruct (Hadd t Ht E) as [c ->]. discriminate.
  - intros t Ht. unfold GetCondition, InitializeConditions.
    cbn [mgr_GetCondition M Manage managing fst Conditions set_Conditions mgr_InitializeConditions].
    apply (InitializeConditions_undeclared (Conditions (fst w), snd w) t Ht).
  - unfold InitializeConditions.
    cbn [mgr_InitializeConditions M Manage managing fst SubscriptionStatuses ChannelStatuses
         Address set_Conditions].
    auto.
Qed.

(** X3.  [InitializeConditions] is idempotent in the strong sense: a
    second call changes nothing at all, neither the status record nor the
    clock (it does not even read the time), whatever the record was
    before the first call. *)
Theorem InitializeConditions_idempotent (w : World) :
  InitializeConditions M (InitializeConditions M w) = InitializeConditions M w.
Proof.
  unfold InitializeConditions at 1. unfold managing.
  cbn [mgr_InitializeConditions M Manage].
  set (w1 := InitializeConditions M w).
  rewrite InitializeConditions_noop.
  - cbn [fst snd]. destruct w1 as [[cs ss chs a] clk]. reflexivity.
  - cbn [fst]. intros t Ht Hnone.
    destruct (GetCondition M t (fst w)) as [c|] eqn:E.
    + pose proof (proj1 (InitializeConditions_seeds_aux w) t c E) as Hp.
      unfold w1 in Hnone. unfold GetCondition in Hp. cbn [mgr_GetCondition M Manage] in Hp.
      congruence.
    + destruct (proj2 (InitializeConditions_seeds_aux w) t Ht E) as (c & Hg).
      unfold w1 in Hnone. unfold GetCondition in Hg. cbn [mgr_GetCondition M Manage] in Hg.
      congruence.
Qed.

(** ** Statuses that no operation gives to a condition *)

(** A mark of [cond] gives the condition of that type the status of
    [cond] or leaves it alone: a status [x] that [cond] does not have is
    found after the mark only where it was before. *)
Lemma mark_of_never (x : string) (cond : Condition) (f : CS -> CS) (s : CS) (t : ConditionType)
    (a : Condition) :
  mark_of cond f -> Status cond <> x -> t <> happy sCondSet ->
  apis.GetCondition t (fst (f s)) = Some a -> Status a = x ->
  apis.GetCondition t (fst s) = Some a.
Proof.
  intros Hm Hst Hne. destruct (string_dec t (CondType cond)) as [->|Hd].
  - destruct Hm as (h & Hh & Hf). rewrite Hf.
    rewrite (touches_only_get _ _ _ _ Hh) by (intros [H|[]]; congruence).
    destruct (SetCondition_typed_same cond s) as [[-> _]|Ht]; [auto|].
    rewrite GetCondition_typed, Ht. simpl. intros [= <-] Hs. contradiction.
  - rewrite (touches_only_get _ _ _ _ (mark_of_touches _ _ Hm)); [auto|].
    apply not_in_pair; congruence.
Qed.

Lemma finalCondition_status (t : ConditionType) (reason message : string) (b : bool) :
  Status (finalCondition t reason message b) = if b then ConditionTrue else ConditionUnknown.
Proof. now destruct b. Qed.

Lemma addressCondition_status (address : option duckv1.Addressable) :
  Status (addressCondition address) = ConditionTrue /\ duckv1.URL_ (derivedAddress address) <> None \/
  Status (addressCondition address) = ConditionUnknown.
Proof.
  destruct address as [[n [u|] ca au]|]; simpl; [left|right|right]; try reflexivity.
  split; [reflexivity|discriminate].
Qed.

(** The three aggregate-like conditions that the file marks True or
    Unknown only. *)
Lemma exec_never_False (t : ConditionType) (o : Op) (w : World) (a : Condition) :
  In t [SequenceConditionChannelsReady; SequenceConditionSubscriptionsReady;
        SequenceConditionAddressable] ->
  GetCondition M t (fst (exec M o w)) = Some a -> Status a = ConditionFalse ->
  GetCondition M t (fst w) = Some a.
Proof.
  intros Ht.
  assert (Hh : t <> happy sCondSet) by (destruct Ht as [<-|[<-|[<-|[]]]]; discriminate).
  assert (Ho : t <> SequenceConditionOIDCIdentityCreated)
    by (destruct Ht as [<-|[<-|[<-|[]]]]; discriminate).
  assert (Hmark : forall cond f, mark_of cond f -> Status cond <> ConditionFalse ->
            GetCondition M t (fst (managing f w)) = Some a -> Status a = ConditionFalse ->
            GetCondition M t (fst w) = Some a).
  { intros cond f Hm Hs. apply (mark_of_never ConditionFalse cond f (Conditions (fst w), snd w) t a
                                  Hm Hs Hh). }
  assert (Hoidc : forall f, touches_only [SequenceConditionOIDCIdentityCreated; happy sCondSet] f ->
            GetCondition M t (fst (managing f w)) = GetCondition M t (fst w)).
  { intros f Hf. apply (managing_frame _ f w t Hf). now apply not_in_pair. }
  destruct o; cbn [exec].
  - apply InitializeConditions_never_False.
  - rewrite PropagateSubscriptionStatuses_eq. cbv zeta. unfold GetCondition.
    cbn [fst Conditions mgr_GetCondition M Manage].
    intros Hg Hs.
    eapply (mark_of_never ConditionFalse _ _ (Conditions (fst w), _) t a
              (finalMark_mark_of _ _ _ _)); [|exact Hh|exact Hg|exact Hs].
    rewrite finalCondition_status. destruct (subscriptionsAllReady subscriptions); discriminate.
  - destruct channels as [|c rest].
    + apply (Hmark _ _ (MarkUnknown_mark_of SequenceConditionChannelsReady _ _)). discriminate.
    + rewrite PropagateChannelStatuses_cons_eq. cbv zeta. unfold GetCondition.
      cbn [fst Conditions mgr_GetCondition M Manage]. intros Hg Hs.
      apply (mark_of_never ConditionFalse _ _ _ t a (finalMark_mark_of _ _ _ _)) in Hg;
        [|rewrite finalCondition_status; destruct (channelsAllReady (c :: rest)); discriminate
         |exact Hh|exact Hs].
      cbn [fst] in Hg.
      eapply (mark_of_never ConditionFalse _ _ (Conditions (fst w), snd w) t a
                (addressMark_mark_of (eventingduckv1.Status_Address c)));
        [|exact Hh|exact Hg|exact Hs].
      destruct (addressCondition_status (eventingduckv1.Status_Address c)) as [[H _]|H];
        rewrite H; discriminate.
  - apply (Hmark _ _ (MarkUnknown_mark_of SequenceConditionChannelsReady _ _)). discriminate.
  - apply (Hmark _ _ (MarkUnknown_mark_of SequenceConditionSubscriptionsReady _ _)). discriminate.
  - apply (Hmark _ _ (MarkUnknown_mark_of SequenceConditionAddressable _ _)). discriminate.
  - unfold MarkOIDCIdentityCreatedSucceeded. cbn [mgr_MarkTrue M Manage].
    rewrite MarkTrue_WithReason, (Hoidc _ (MarkTrueWithReason_touches sCondSet _ "" "")). auto.
  - unfold MarkOIDCIdentityCreatedSucceededWithReason. cbn [mgr_MarkTrueWithReason M Manage].
    rewrite (Hoidc _ (MarkTrueWithReason_touches sCondSet _ reason message)). auto.
  - unfold MarkOIDCIdentityCreatedFailed. cbn [mgr_MarkFalse M Manage].
    rewrite (Hoidc _ (MarkFalse_touches sCondSet _ reason message)). auto.
  - unfold MarkOIDCIdentityCreatedUnknown. cbn [mgr_MarkUnknown M Manage].
    rewrite (Hoidc _ (MarkUnknown_touches sCondSet _ reason message)). auto.
Qed.

Lemma reachable_never_False (t : ConditionType) (w : World) (a : Condition) :
  In t [SequenceConditionChannelsReady; SequenceConditionSubscriptionsReady;
        SequenceConditionAddressable] ->
  reachable w -> GetCondition M t (fst w) = Some a -> Status a <> ConditionFalse.
Proof.
  intros Ht Hr. revert a. induction Hr as [clk|o w Hr IH]; intros a Hg Hs.
  - discriminate.
  - apply (IH a); [|exact Hs]. now apply (exec_never_False t o w a Ht).
Qed.

(** X4.  No exported operation sets the [ChannelsReady] or the
    [SubscriptionsReady] condition to status False: when one of them is
    False after an operation, it is the very condition that was there
    before.  The file marks these two True or Unknown only; a child that
    reports failure makes the aggregate Unknown, not False. *)
Theorem aggregates_never_set_False (o : Op) (w : World) (a : Condition) :
  (GetCondition M SequenceConditionChannelsReady (fst (exec M o w)) = Some a ->
   Status a = ConditionFalse ->
   GetCondition M SequenceConditionChannelsReady (fst w) = Some a) /\
  (GetCondition M SequenceConditionSubscriptionsReady (fst (exec M o w)) = Some a ->
   Status a = ConditionFalse ->
   GetCondition M SequenceConditionSubscriptionsReady (fst w) = Some a).
Proof.
  split; apply exec_never_False; simpl; tauto.
Qed.

(** ** The coherence of the status record *)

Lemma PropagateChannelStatuses_get (channels : list eventingduckv1.Channelable)
    (w : World) (t : ConditionType) :
  t <> SequenceConditionChannelsReady -> t <> SequenceConditionAddressable ->
  t <> happy sCondSet ->
  GetCondition M t (fst (PropagateChannelStatuses M channels w)) = GetCondition M t (fst w).
Proof.
  intros H1 H2 H3. destruct channels as [|c rest].
  - rewrite PropagateChannelStatuses_nil_eq. cbv zeta. unfold GetCondition.
    cbn [fst Conditions mgr_GetCondition M Manage].
    rewrite (touches_only_get _ _ _ _ (MarkUnknown_touches sCondSet _ _ _)); [reflexivity|].
    now apply not_in_pair.
  - rewrite PropagateChannelStatuses_cons_eq. cbv zeta. unfold GetCondition.
    cbn [fst Conditions mgr_GetCondition M Manage].
    rewrite (touches_only_get _ _ _ _ (finalMark_touches _ _ _ _)) by now apply not_in_pair.
    cbn [fst].
    rewrite (touches_only_get _ _ _ _ (addressMark_touches _)); [reflexivity|].
    now apply not_in_pair.
Qed.

Lemma channelEntries_all_true (channels : list eventingduckv1.Channelable) (clk : Clock) :
  channelsAllReady channels = true ->
  fst (channelEntries channels clk) <> [] /\
  Forall (fun e => Status (Channel_ReadyCondition e) = ConditionTrue)
    (fst (channelEntries channels clk)).
Proof.
  intros H. apply channelsAllReady_iff in H as [Hne Hall].
  pose proof (channelEntries_mirror channels clk) as Hm. split.
  - intros He. rewrite He in Hm. inversion Hm. congruence.
  - clear Hne. induction Hm as [|c e l l' [_ Hrc] _ IH]; [constructor|].
    inversion Hall as [|x y Hc Hrest]; subst. constructor; [|now apply IH].
    destruct (channelReady c) as [rc|]; [|discriminate]. subst.
    simpl in Hc. now apply String.eqb_eq in Hc.
Qed.

Lemma subscriptionEntries_all_true (subscriptions : list messagingv1.Subscription) (clk : Clock) :
  subscriptionsAllReady subscriptions = true ->
  fst (subscriptionEntries subscriptions clk) <> [] /\
  Forall (fun e => Status (Subscription_ReadyCondition e) = ConditionTrue)
    (fst (subscriptionEntries subscriptions clk)).
Proof.
  intros H. apply subscriptionsAllReady_iff in H as [Hne Hall].
  pose proof (subscriptionEntries_mirror subscriptions clk) as Hm. split.
  - intros He. rewrite He in Hm. inversion Hm. congruence.
  - clear Hne. induction Hm as [|c e l l' [_ Hrc] _ IH]; [constructor|].
    inversion Hall as [|x y Hc Hrest]; subst. constructor; [|now apply IH].
    destruct (subscriptionReady c) as [rc|]; [|discriminate]. subst.
    simpl in Hc. now apply String.eqb_eq in Hc.
Qed.

Lemma statusOf_Some (t : ConditionType) (cs : list Condition) (x : string) :
  statusOf t cs = Some x <-> exists a, apis.GetCondition t cs = Some a /\ Status a = x.
Proof.
  unfold statusOf. destruct (apis.GetCondition t cs) as [c|]; simpl.
  - split; [intros [= <-]; eauto | intros (a & [= <-] & <-); reflexivity].
  - split; [discriminate | intros (a & H & _); discriminate].
Qed.

(** An operation that works on the conditions only, and under which a
    condition of the three types is True only if it was, keeps the record
    coherent. *)
Lemma managing_Coherent (f : CS -> CS) (w : World) :
  keeps_wf f ->
  (forall t a, In t [SequenceConditionChannelsReady; SequenceConditionSubscriptionsReady;
                     SequenceConditionAddressable] ->
     apis.GetCondition t (fst (f (Conditions (fst w), snd w))) = Some a ->
     Status a = ConditionTrue ->
     apis.GetCondition t (Conditions (fst w)) = Some a) ->
  Coherent (fst w) -> Coherent (fst (managing f w)).
Proof.
  intros Hwf Hold (Hw & Ha & Hc & Hs).
  assert (Hback : forall t, In t [SequenceConditionChannelsReady;
                                  SequenceConditionSubscriptionsReady;
                                  SequenceConditionAddressable] ->
            statusOf t (fst (f (Conditions (fst w), snd w))) = Some ConditionTrue ->
            statusOf t (Conditions (fst w)) = Some ConditionTrue).
  { intros t Ht H. apply statusOf_Some in H as (a & Hg & Hst).
    apply statusOf_Some. exists a. split; [|exact Hst]. now apply (Hold t a Ht). }
  unfold Coherent, managing. cbn [fst Conditions Address ChannelStatuses SubscriptionStatuses
                                  set_Conditions].
  split; [now apply (Hwf (Conditions (fst w), snd w))|].
  split; [|split]; intros H; [apply Ha|apply Hc|apply Hs]; apply Hback; simpl; auto.
Qed.

Lemma mark_Unknown_Coherent (t' : ConditionType) (reason message : string) (w : World) :
  Coherent (fst w) ->
  Coherent (fst (managing (MarkUnknown sCondSet t' reason message) w)).
Proof.
  apply managing_Coherent; [apply MarkUnknown_wf|].
  intros t a Ht.
  apply (mark_of_never ConditionTrue _ _ (Conditions (fst w), snd w) t a
           (MarkUnknown_mark_of t' reason message)); [discriminate|].
  destruct Ht as [<-|[<-|[<-|[]]]]; discriminate.
Qed.

Lemma mark_OIDC_Coherent (f : CS -> CS) (w : World) :
  keeps_wf f -> touches_only [SequenceConditionOIDCIdentityCreated; happy sCondSet] f ->
  Coherent (fst w) -> Coherent (fst (managing f w)).
Proof.
  intros Hwf Hf. apply managing_Coherent; [exact Hwf|].
  intros t a Ht Hg _. rewrite <- Hg. symmetry.
  apply (touches_only_get _ _ (Conditions (fst w), snd w) _ Hf).
  destruct Ht as [<-|[<-|[<-|[]]]]; apply not_in_pair; discriminate.
Qed.

Lemma PropagateSubscriptionStatuses_Coherent_wf (subscriptions : list messagingv1.Subscription)
    (w : World) :
  wf_conditions (Conditions (fst w)) ->
  wf_conditions (Conditions (fst (PropagateSubscriptionStatuses M subscriptions w))).
Proof. apply (exec_wf (OpPropagateSubscriptionStatuses subscriptions) w). Qed.

Lemma PropagateChannelStatuses_Coherent_wf (channels : list eventingduckv1.Channelable) (w : World) :
  wf_conditions (Conditions (fst w)) ->
  wf_conditions (Conditions (fst (PropagateChannelStatuses M channels w))).
Proof. apply (exec_wf (OpPropagateChannelStatuses channels) w). Qed.

Lemma exec_Coherent (o : Op) (w : World) :
  Coherent (fst w) -> Coherent (fst (exec M o w)).
Proof.
  intros HC. pose proof HC as (Hwf & Ha & Hc & Hs).
  destruct o; cbn [exec].
  - unfold InitializeConditions. cbn [mgr_InitializeConditions M Manage].
    apply managing_Coherent; [apply InitializeConditions_wf | | exact HC].
    intros t a _ Hg Hst.
    destruct (apis.GetCondition t (Conditions (fst w))) as [c|] eqn:E.
    + now rewrite (InitializeConditions_present sCondSet (Conditions (fst w), snd w) _ _ E) in Hg.
    + rewrite (InitializeConditions_absent sCondSet (Conditions (fst w), snd w) t a E Hg) in Hst.
      discriminate.
  - assert (Hwf' := PropagateSubscriptionStatuses_Coherent_wf subscriptions w Hwf).
    pose proof (PropagateSubscriptionStatuses_get subscriptions w SequenceConditionAddressable
                  ltac:(discriminate) ltac:(discriminate)) as Hga.
    pose proof (PropagateSubscriptionStatuses_get subscriptions w SequenceConditionChannelsReady
                  ltac:(discriminate) ltac:(discriminate)) as Hgc.
    destruct (PropagateSubscriptionStatuses_read subscriptions w Hwf) as [tm Hgs].
    unfold GetCondition in Hga, Hgc, Hgs. cbn [mgr_GetCondition M Manage] in Hga, Hgc, Hgs.
    split; [exact Hwf'|]. unfold statusOf. rewrite Hga, Hgc, Hgs.
    rewrite PropagateSubscriptionStatuses_eq. cbv zeta. cbn [fst Address ChannelStatuses
                                                            SubscriptionStatuses].
    split; [exact Ha|]. split; [exact Hc|].
    cbn [option_map withTime Status]. rewrite finalCondition_status.
    destruct (subscriptionsAllReady subscriptions) eqn:E; [|discriminate].
    intros _. now apply subscriptionEntries_all_true.
  - assert (Hwf' := PropagateChannelStatuses_Coherent_wf channels w Hwf).
    pose proof (PropagateChannelStatuses_get channels w SequenceConditionSubscriptionsReady
                  ltac:(discriminate) ltac:(discriminate) ltac:(discriminate)) as Hgs.
    destruct (PropagateChannelStatuses_read channels w Hwf) as [tm Hgc].
    unfold GetCondition in Hgs, Hgc. cbn [mgr_GetCondition M Manage] in Hgs, Hgc.
    split; [exact Hwf'|]. unfold statusOf. rewrite Hgs, Hgc.
    destruct channels as [|c rest].
    + rewrite PropagateChannelStatuses_nil_eq. cbv zeta.
      cbn [fst Conditions Address ChannelStatuses SubscriptionStatuses].
      rewrite (touches_only_get _ _ _ _ (MarkUnknown_touches sCondSet _ _ _))
        by (apply not_in_pair; discriminate).
      split; [exact Ha|]. split; [discriminate | exact Hs].
    + destruct (PropagateChannelStatuses_Addressable_read c rest w Hwf) as [tma Hga].
      unfold GetCondition in Hga. cbn [mgr_GetCondition M Manage] in Hga. rewrite Hga.
      rewrite PropagateChannelStatuses_cons_eq. cbv zeta.
      cbn [fst Address ChannelStatuses SubscriptionStatuses].
      split; [|split; [|exact Hs]].
      * cbn [option_map withTime Status]. destruct (addressCondition_status (eventingduckv1.Status_Address c)) as [[_ H]|H];
          [intros _; exact H | rewrite H; discriminate].
      * cbn [option_map withTime Status]. rewrite finalCondition_status.
        destruct (channelsAllReady (c :: rest)) eqn:E; [|discriminate].
        intros _. now apply channelEntries_all_true.
  - now apply mark_Unknown_Coherent.
  - now apply mark_Unknown_Coherent.
  - now apply mark_Unknown_Coherent.
  - apply mark_OIDC_Coherent; [|apply (MarkTrueWithReason_touches sCondSet _ "" "")|exact HC].
    apply (MarkTrueWithReason_wf sCondSet _ "" "").
  - apply mark_OIDC_Coherent; [apply MarkTrueWithReason_wf|apply MarkTrueWithReason_touches|exact HC].
  - apply mark_OIDC_Coherent; [apply MarkFalse_wf|apply MarkFalse_touches|exact HC].
  - apply mark_OIDC_Coherent; [apply MarkUnknown_wf|apply MarkUnknown_touches|exact HC].
Qed.

Lemma emptyStatus_Coherent : Coherent emptyStatus.
Proof. split; [constructor|]. repeat split; discriminate. Qed.

Lemma reachable_Coherent (w : World) : reachable w -> Coherent (fst w).
Proof. induction 1; [apply emptyStatus_Coherent | now apply exec_Coherent]. Qed.

Lemma reconciled_reachable : reachable reconciled.
Proof. repeat apply reachable_exec. apply reachable_fresh. Defined.

(** X6.  In every state a status record reaches, an [Addressable]
    condition with status True comes with an address that has a URL:
    [setAddress] is the only writer of the address and marks the
    condition True on that branch only; the other writers of the
    condition make it Unknown. *)
Theorem addressable_true_has_url (w : World) (a : Condition)
    (Hreach : reachable w)
    (Hget : GetCondition M SequenceConditionAddressable (fst w) = Some a)
    (Htrue : Status a = ConditionTrue) :
  exists url, duckv1.URL_ (Address (fst w)) = Some url.
Proof.
  destruct (reachable_Coherent w Hreach) as (_ & Ha & _).
  assert (H : duckv1.URL_ (Address (fst w)) <> None).
  { apply Ha. apply statusOf_Some. eauto. }
  destruct (duckv1.URL_ (Address (fst w))) as [u|]; [eauto|congruence].
Qed.

Lemma addressable_true_has_url_witness :
  reachable reconciled /\
  exists url, duckv1.URL_ (Address (fst reconciled)) = Some url.
Proof.
  split; [exact reconciled_reachable|].
  apply (addressable_true_has_url reconciled
           (mkCondition SequenceConditionAddressable ConditionTrue "" 105%Z "" "")
           reconciled_reachable).
  - vm_compute. reflexivity.
  - reflexivity.
Defined.

(** X7.  In every state a status record reaches, an aggregate condition
    ([ChannelsReady], [SubscriptionsReady]) with status True comes with
    per-child statuses of its kind that are not empty and whose ready
    conditions are all True: only the propagation writes the slice and
    marks the aggregate True, and it does both from the same input. *)
Theorem aggregate_true_reflects_statuses (w : World) (Hreach : reachable w) :
  (forall a, GetCondition M SequenceConditionChannelsReady (fst w) = Some a ->
     Status a = ConditionTrue ->
     ChannelStatuses (fst w) <> [] /\
     Forall (fun e => Status (Channel_ReadyCondition e) = ConditionTrue) (ChannelStatuses (fst w))) /\
  (forall a, GetCondition M SequenceConditionSubscriptionsReady (fst w) = Some a ->
     Status a = ConditionTrue ->
     SubscriptionStatuses (fst w) <> [] /\
     Forall (fun e => Status (Subscription_ReadyCondition e) = ConditionTrue)
       (SubscriptionStatuses (fst w))).
Proof.
  destruct (reachable_Coherent w Hreach) as (_ & _ & Hc & Hs).
  split; intros a Hg Ht; [apply Hc|apply Hs]; apply statusOf_Some; eauto.
Qed.

Lemma aggregate_true_reflects_statuses_witness :
  reachable reconciled /\
  length (ChannelStatuses (fst reconciled)) = 2 /\
  Forall (fun e => Status (Channel_ReadyCondition e) = ConditionTrue)
    (ChannelStatuses (fst reconciled)).
Proof.
  split; [exact reconciled_reachable|]. split; [vm_compute; reflexivity|].
  refine (proj2 (proj1 (aggregate_true_reflects_statuses reconciled reconciled_reachable)
                   (mkCondition SequenceConditionChannelsReady ConditionTrue "" 106%Z "" "") _ _)).
  - vm_compute. reflexivity.
  - reflexivity.
Defined.

(** X8.  A Sequence that [IsReady] reports ready, in any state it
    reaches, has at least one channel status and one subscription status,
    all of them with a True ready condition, and an address with a URL. *)
Theorem ready_sequence_is_populated (w : World)
    (Hreach : reachable w) (Hready : IsReady M (fst w) = true) :
  (ChannelStatuses (fst w) <> [] /\
   Forall (fun e => Status (Channel_ReadyCondition e) = ConditionTrue) (ChannelStatuses (fst w))) /\
  (SubscriptionStatuses (fst w) <> [] /\
   Forall (fun e => Status (Subscription_ReadyCondition e) = ConditionTrue)
     (SubscriptionStatuses (fst w))) /\
  exists url, duckv1.URL_ (Address (fst w)) = Some url.
Proof.
  destruct (reachable_Coherent w Hreach) as (_ & Ha & Hc & Hs).
  destruct (reachable_Inv w Hreach) as (_ & _ & Hi).
  pose proof (proj1 Hi Hready) as Hall.
  split; [apply Hc, Hall; auto with seq|].
  split; [apply Hs, Hall; auto with seq|].
  assert (H : duckv1.URL_ (Address (fst w)) <> None) by (apply Ha, Hall; auto with seq).
  destruct (duckv1.URL_ (Address (fst w))) as [u|]; [eauto|congruence].
Qed.

Lemma ready_sequence_is_populated_witness :
  reachable reconciled /\ IsReady M (fst reconciled) = true /\
  exists url, duckv1.URL_ (Address (fst reconciled)) = Some url.
Proof.
  split; [exact reconciled_reachable|]. split; [vm_compute; reflexivity|].
  apply (ready_sequence_is_populated reconciled reconciled_reachable). vm_compute. reflexivity.
Defined.

(** ** When the aggregate is False *)

Lemma someFalse_touches (f : CS -> CS) (s : CS) :
  touches_only [happy sCondSet] f -> (someFalse (fst (f s)) <-> someFalse (fst s)).
Proof.
  intros Hf. unfold someFalse.
  assert (He : forall t, In t tracked -> statusOf t (fst (f s)) = statusOf t (fst s)).
  { intros t Ht. apply (touches_only_dependent _ _ _ _ Hf).
    intros [H|[]]. apply (tracked_not_happy t Ht). now symmetry. }
  split; intros (t & Ht & H); exists t; (split; [exact Ht|]); [rewrite <- He|rewrite He]; auto.
Qed.

Lemma findUnhappyDependent_False (cs : list Condition) :
  wf_conditions cs ->
  (exists c, findUnhappyDependent sCondSet cs = Some c /\ Status c = ConditionFalse)
  <-> someFalse cs.
Proof.
  intros Hwf. unfold findUnhappyDependent.
  change (Nat.eqb (length (dependents sCondSet)) 0) with false. cbv iota.
  set (D := List.filter _ cs). set (conditions := sort_Slice _ D).
  assert (Hperm : Permutation conditions D) by apply sort_Slice_perm.
  assert (HD : forall c, In c D <-> In c cs /\ In (CondType c) tracked).
  { intros c. unfold D.
    rewrite List.filter_In, (isTerminal_dependent sCondSet sCondSet_happy_not_dependent).
    reflexivity. }
  split.
  - intros (c & Hf & Hs).
    destruct (List.find (fun c => IsFalse (Some c)) conditions) as [c1|] eqn:E1.
    + injection Hf as <-. apply List.find_some in E1 as [Hin _].
      apply (Permutation_in _ Hperm), HD in Hin as [Hin Hdep].
      exists (CondType c1). split; [exact Hdep|]. unfold statusOf.
      now rewrite (wf_GetCondition _ _ Hwf Hin), <- Hs.
    + exfalso. destruct (List.find (fun c => IsUnknown (Some c)) conditions) as [c2|] eqn:E2.
      * injection Hf as <-. apply List.find_some in E2 as [_ E2]. simpl in E2.
        apply String.eqb_eq in E2. rewrite E2 in Hs. discriminate.
      * destruct (Nat.ltb _ _); [|discriminate]. injection Hf as <-. discriminate.
  - intros (t & Ht & Hs). apply statusOf_Some in Hs as (a & Hg & Hs).
    apply GetCondition_In in Hg as [Hin Hty].
    assert (Ha : In a conditions).
    { apply (Permutation_in _ (Permutation_sym Hperm)), HD. split; [exact Hin|]. now rewrite Hty. }
    destruct (List.find (fun c => IsFalse (Some c)) conditions) as [c1|] eqn:E1.
    + exists c1. split; [reflexivity|]. apply List.find_some in E1 as [_ E1].
      now apply String.eqb_eq in E1.
    + exfalso. pose proof (List.find_none _ _ E1 a Ha) as Hn. simpl in Hn.
      rewrite Hs in Hn. discriminate.
Qed.

Lemma MarkTrueWithReason_FalseIffFailed (t : ConditionType) (reason message : string) (s : CS) :
  wf_conditions (fst s) -> t <> happy sCondSet ->
  FalseIffFailed (fst (MarkTrueWithReason sCondSet t reason message s)).
Proof.
  intros Hwf Ht. unfold MarkTrueWithReason, FalseIffFailed.
  set (s1 := SetCondition _ s).
  assert (Hwf1 : wf_conditions (fst s1)) by now apply SetCondition_wf.
  rewrite (someFalse_touches _ s1 (recomputeHappiness_touches sCondSet t)).
  rewrite <- (findUnhappyDependent_False _ Hwf1).
  unfold recomputeHappiness.
  destruct (findUnhappyDependent sCondSet (fst s1)) as [c|] eqn:E.
  - change SequenceConditionReady with (CondType (mkCondition (happy sCondSet) (Status c)
       (severity sCondSet (happy sCondSet)) zeroTime (Reason c) (Message c))).
    rewrite SetCondition_status by exact Hwf1. simpl.
    split; [intros [= H]; eauto | intros (c' & [= <-] & H); now rewrite H].
  - assert (negb (String.eqb t (happy sCondSet)) = true) as ->
      by now apply negb_true_iff, String.eqb_neq.
    change SequenceConditionReady with (CondType (mkCondition (happy sCondSet) ConditionTrue
       (severity sCondSet (happy sCondSet)) zeroTime "" "")).
    rewrite SetCondition_status by exact Hwf1. simpl.
    split; [discriminate | intros (c' & H & _); discriminate].
Qed.

Lemma MarkUnknown_loop_False (t : ConditionType) (reason message : string)
    (deps : list ConditionType) (isDependent : bool) (s : CS) :
  wf_conditions (fst s) -> isDependent = true \/ In t deps ->
  (statusOf SequenceConditionReady
     (fst (MarkUnknown_loop sCondSet t reason message deps isDependent s)) = Some ConditionFalse
   <-> exists d, In d deps /\ statusOf d (fst s) = Some ConditionFalse).
Proof.
  intros Hwf. revert isDependent.
  induction deps as [|d deps IH]; intros isDependent Hd; cbn [MarkUnknown_loop].
  - destruct Hd as [->|[]].
    change SequenceConditionReady with (CondType (mkCondition (happy sCondSet) ConditionUnknown
       (severity sCondSet (happy sCondSet)) zeroTime reason message)).
    rewrite SetCondition_status by exact Hwf. simpl.
    split; [discriminate | intros (d & [] & _)].
  - destruct (IsFalse (apis.GetCondition d (fst s))) eqn:Ed.
    + apply IsFalse_status in Ed. split; [intros _; exists d; split; [now left|exact Ed]|].
      intros _.
      destruct (IsFalse (apis.GetCondition (happy sCondSet) (fst s))) eqn:E; cbn [negb].
      * exact (proj1 (IsFalse_status _ _) E).
      * unfold statusOf. change SequenceConditionReady with (happy sCondSet).
        destruct (MarkFalse_get sCondSet (happy sCondSet) reason message s Hwf) as [tm ->].
        reflexivity.
    + rewrite IH.
      * split; intros (d' & Hin & Hs); [exists d'; split; [now right|exact Hs]|].
        destruct Hin as [<-|Hin]; [|exists d'; split; assumption].
        exfalso. apply IsFalse_status in Hs. congruence.
      * destruct Hd as [->|[->|Hd]]; [now left | | now right].
        left. rewrite String.eqb_refl. apply orb_true_r.
Qed.

Lemma MarkUnknown_FalseIffFailed (t : ConditionType) (reason message : string) (s : CS) :
  wf_conditions (fst s) -> In t tracked ->
  FalseIffFailed (fst (MarkUnknown sCondSet t reason message s)).
Proof.
  intros Hwf Ht. unfold MarkUnknown, FalseIffFailed.
  set (s1 := SetCondition _ s).
  assert (Hwf1 : wf_conditions (fst s1)) by now apply SetCondition_wf.
  rewrite (someFalse_touches _ s1 (MarkUnknown_loop_touches sCondSet t reason message _ false)).
  rewrite (MarkUnknown_loop_False t reason message _ false s1 Hwf1) by now right.
  reflexivity.
Qed.

Lemma MarkFalse_FalseIffFailed (t : ConditionType) (reason message : string) (s : CS) :
  wf_conditions (fst s) -> In t tracked ->
  FalseIffFailed (fst (MarkFalse sCondSet t reason message s)).
Proof.
  intros Hwf Ht. unfold FalseIffFailed. split; intros _.
  - exists t. split; [exact Ht|]. unfold statusOf.
    destruct (MarkFalse_get sCondSet t reason message s Hwf) as [tm ->]. reflexivity.
  - now apply (MarkFalse_happy sCondSet).
Qed.

Lemma InitializeConditions_statusOf (s : CS) (t : ConditionType) :
  In t declared ->
  statusOf t (fst (apis.InitializeConditions sCondSet s)) =
  match statusOf t (fst s) with Some x => Some x | None => Some ConditionUnknown end.
Proof.
  intros Ht. unfold statusOf at 2. destruct (apis.GetCondition t (fst s)) as [c|] eqn:E.
  - unfold statusOf. now rewrite (InitializeConditions_present sCondSet s t c E).
  - unfold statusOf. destruct (InitializeConditions_declares s t Ht E) as [tm ->]. reflexivity.
Qed.

Lemma InitializeConditions_FalseIffFailed (s : CS) :
  FalseIffFailed (fst s) -> FalseIffFailed (fst (apis.InitializeConditions sCondSet s)).
Proof.
  unfold FalseIffFailed. intros HJ.
  assert (Hsome : someFalse (fst (apis.InitializeConditions sCondSet s)) <-> someFalse (fst s)).
  { unfold someFalse. split; intros (t & Ht & H); exists t; (split; [exact Ht|]).
    - rewrite InitializeConditions_statusOf in H by now right.
      destruct (statusOf t (fst s)); [exact H|discriminate].
    - rewrite InitializeConditions_statusOf by now right. now rewrite H. }
  rewrite Hsome, <- HJ, InitializeConditions_statusOf by now left.
  destruct (statusOf SequenceConditionReady (fst s)); [reflexivity|].
  split; discriminate.
Qed.

Lemma finalMark_FalseIffFailed (t : ConditionType) (reason message : string) (b : bool) (s : CS) :
  wf_conditions (fst s) -> In t tracked ->
  FalseIffFailed (fst (finalMark t reason message b s)).
Proof.
  intros Hwf Ht. unfold finalMark. destruct b.
  - rewrite MarkTrue_WithReason. apply MarkTrueWithReason_FalseIffFailed; [exact Hwf|].
    now apply tracked_not_happy.
  - now apply MarkUnknown_FalseIffFailed.
Qed.

Lemma exec_FalseIffFailed (o : Op) (w : World) :
  wf_conditions (Conditions (fst w)) -> FalseIffFailed (Conditions (fst w)) ->
  FalseIffFailed (Conditions (fst (exec M o w))).
Proof.
  intros Hwf HJ. destruct o; cbn [exec].
  - apply (InitializeConditions_FalseIffFailed (Conditions (fst w), snd w) HJ).
  - rewrite PropagateSubscriptionStatuses_eq. cbv zeta. cbn [fst Conditions].
    apply finalMark_FalseIffFailed; [exact Hwf | simpl; tauto].
  - destruct channels as [|c rest].
    + apply (MarkUnknown_FalseIffFailed _ _ _ (Conditions (fst w), snd w) Hwf). simpl; tauto.
    + rewrite PropagateChannelStatuses_cons_eq. cbv zeta. cbn [fst Conditions].
      apply finalMark_FalseIffFailed; [|simpl; tauto]. cbn [fst].
      now apply (addressMark_wf _ (Conditions (fst w), snd w)).
  - apply (MarkUnknown_FalseIffFailed _ _ _ (Conditions (fst w), snd w) Hwf). simpl; tauto.
  - apply (MarkUnknown_FalseIffFailed _ _ _ (Conditions (fst w), snd w) Hwf). simpl; tauto.
  - apply (MarkUnknown_FalseIffFailed _ _ _ (Conditions (fst w), snd w) Hwf). simpl; tauto.
  - apply (MarkTrueWithReason_FalseIffFailed _ "" "" (Conditions (fst w), snd w) Hwf). discriminate.
  - apply (MarkTrueWithReason_FalseIffFailed _ _ _ (Conditions (fst w), snd w) Hwf). discriminate.
  - apply (MarkFalse_FalseIffFailed _ _ _ (Conditions (fst w), snd w) Hwf). simpl; tauto.
  - apply (MarkUnknown_FalseIffFailed _ _ _ (Conditions (fst w), snd w) Hwf). simpl; tauto.
Qed.

Lemma reachable_FalseIffFailed (w : World) :
  reachable w -> wf_conditions (Conditions (fst w)) /\ FalseIffFailed (Conditions (fst w)).
Proof.
  induction 1 as [clk|o w Hr [Hwf HJ]].
  - split; [constructor|]. split; [discriminate|]. intros (t & _ & H). discriminate.
  - split; [now apply exec_wf | now apply exec_FalseIffFailed].
Qed.

(** X5.  In every state a status record reaches, the [Ready] condition
    has status False exactly when the [OIDCIdentityCreated] condition
    has: [MarkOIDCIdentityCreatedFailed] is the only mark of the file
    that sets False, so the other three tracked conditions are never
    False, and the aggregate is False exactly when a tracked condition
    is. *)
Theorem ready_false_iff_identity_failed (w : World) (Hreach : reachable w) :
  (exists a, GetCondition M SequenceConditionReady (fst w) = Some a /\ Status a = ConditionFalse)
  <->
  (exists a, GetCondition M SequenceConditionOIDCIdentityCreated (fst w) = Some a /\
             Status a = ConditionFalse).
Proof.
  destruct (reachable_FalseIffFailed w Hreach) as [_ HJ].
  unfold GetCondition. cbn [mgr_GetCondition M Manage].
  rewrite <- !statusOf_Some. unfold FalseIffFailed in HJ. rewrite HJ. unfold someFalse.
  split.
  - intros (t & Ht & Hs).
    destruct (string_dec t SequenceConditionOIDCIdentityCreated) as [->|Hne]; [exact Hs|].
    exfalso. apply statusOf_Some in Hs as (a & Hg & Hs).
    apply (reachable_never_False t w a); [|exact Hreach|exact Hg|exact Hs].
    destruct Ht as [<-|[<-|[<-|[<-|[]]]]]; simpl; auto; contradiction.
  - intros Hs. exists SequenceConditionOIDCIdentityCreated. split; [simpl; tauto|exact Hs].
Qed.

Lemma ready_false_iff_identity_failed_witness :
  reachable (exec M (OpMarkOIDCIdentityCreatedFailed "Unable" "no service account") reconciled) /\
  exists a,
    GetCondition M SequenceConditionReady
      (fst (exec M (OpMarkOIDCIdentityCreatedFailed "Unable" "no service account") reconciled))
    = Some a /\ Status a = ConditionFalse.
Proof.
  assert (H : reachable (exec M (OpMarkOIDCIdentityCreatedFailed "Unable" "no service account")
                           reconciled))
    by (apply reachable_exec; exact reconciled_reachable).
  split; [exact H|].
  apply (proj2 (ready_false_iff_identity_failed _ H)).
  eexists. split; [vm_compute; reflexivity|reflexivity].
Defined.

(** ** The marks of the identity condition *)

Lemma Inv_IsReady (cs : list Condition) :
  Inv sCondSet cs ->
  (IsHappy sCondSet cs = true <->
   forall t, In t tracked -> statusOf t cs = Some ConditionTrue).
Proof. intros (_ & _ & H). exact H. Qed.

Lemma not_OIDC_frame (f : CS -> CS) (w : World) (t : ConditionType) :
  touches_only [SequenceConditionOIDCIdentityCreated; happy sCondSet] f ->
  In t [SequenceConditionChannelsReady; SequenceConditionSubscriptionsReady;
        SequenceConditionAddressable] ->
  GetCondition M t (fst (managing f w)) = GetCondition M t (fst w).
Proof.
  intros Hf Ht. apply (managing_frame _ f w t Hf).
  destruct Ht as [<-|[<-|[<-|[]]]]; apply not_in_pair; discriminate.
Qed.

Lemma succeeded_ready_iff (reason message : string) (w : World) :
  wf_conditions (Conditions (fst w)) -> tri_state sCondSet (Conditions (fst w)) ->
  (IsReady M (fst (managing (MarkTrueWithReason sCondSet SequenceConditionOIDCIdentityCreated
                               reason message) w)) = true <->
   forall t, In t [SequenceConditionChannelsReady; SequenceConditionSubscriptionsReady;
                   SequenceConditionAddressable] ->
     exists a, GetCondition M t (fst w) = Some a /\ Status a = ConditionTrue).
Proof.
  intros Hwf Htri.
  set (f := MarkTrueWithReason sCondSet SequenceConditionOIDCIdentityCreated reason message).
  assert (HI : Inv sCondSet (Conditions (fst (managing f w)))).
  { apply (MarkTrueWithReason_Inv sCondSet sCondSet_happy_not_dependent sCondSet_NoDup
             sCondSet_nonempty _ reason message (Conditions (fst w), snd w)); auto with seq. }
  unfold IsReady. cbn [mgr_IsHappy M Manage]. rewrite (Inv_IsReady _ HI).
  assert (Hoidc : statusOf SequenceConditionOIDCIdentityCreated (Conditions (fst (managing f w)))
                  = Some ConditionTrue).
  { unfold statusOf.
    destruct (MarkTrueWithReason_get sCondSet SequenceConditionOIDCIdentityCreated reason message
                (Conditions (fst w), snd w) Hwf ltac:(discriminate)) as [tm Hg].
    unfold f, managing. cbn [fst Conditions set_Conditions]. now rewrite Hg. }
  assert (Hfr : forall t, In t [SequenceConditionChannelsReady; SequenceConditionSubscriptionsReady;
                               SequenceConditionAddressable] ->
            statusOf t (Conditions (fst (managing f w))) = statusOf t (Conditions (fst w))).
  { intros t Ht. unfold statusOf.
    pose proof (not_OIDC_frame f w t (MarkTrueWithReason_touches sCondSet _ reason message) Ht) as H.
    unfold GetCondition in H. cbn [mgr_GetCondition M Manage] in H. now rewrite H. }
  split.
  - intros H t Ht. apply statusOf_Some. rewrite <- (Hfr t Ht). apply H.
    destruct Ht as [<-|[<-|[<-|[]]]]; simpl; tauto.
  - intros H t Ht. destruct Ht as [<-|[<-|[<-|[<-|[]]]]]; try exact Hoidc;
      (rewrite Hfr by (simpl; tauto)); apply statusOf_Some; apply H; simpl; tauto.
Qed.

(** X9.  The marks of the identity condition, from a record whose
    conditions are named and tri-state.  After
    [MarkOIDCIdentityCreatedSucceeded], with or without a reason, the
    Sequence is ready exactly when the channels, subscriptions and
    addressable conditions are True; after [MarkOIDCIdentityCreatedFailed]
    the identity condition is False with the caller's reason and message
    and the Sequence is not ready, whatever the state of the children; and
    none of these marks changes the other three tracked conditions, the
    per-child statuses or the address. *)
Theorem identity_marks_gate_readiness (w : World) (reason message : string)
    (Hwf : wf_conditions (Conditions (fst w)))
    (Htri : tri_state sCondSet (Conditions (fst w))) :
  (IsReady M (fst (MarkOIDCIdentityCreatedSucceeded M w)) = true <->
   forall t, In t [SequenceConditionChannelsReady; SequenceConditionSubscriptionsReady;
                   SequenceConditionAddressable] ->
     exists a, GetCondition M t (fst w) = Some a /\ Status a = ConditionTrue) /\
  (IsReady M (fst (MarkOIDCIdentityCreatedSucceededWithReason M reason message w)) = true <->
   forall t, In t [SequenceConditionChannelsReady; SequenceConditionSubscriptionsReady;
                   SequenceConditionAddressable] ->
     exists a, GetCondition M t (fst w) = Some a /\ Status a = ConditionTrue) /\
  (IsReady M (fst (MarkOIDCIdentityCreatedFailed M reason message w)) = false /\
   exists a, GetCondition M SequenceConditionOIDCIdentityCreated
               (fst (MarkOIDCIdentityCreatedFailed M reason message w)) = Some a /\
             Status a = ConditionFalse /\ Reason a = reason /\ Message a = message) /\
  (forall t, In t [SequenceConditionChannelsReady; SequenceConditionSubscriptionsReady;
                   SequenceConditionAddressable] ->
     GetCondition M t (fst (MarkOIDCIdentityCreatedSucceeded M w)) = GetCondition M t (fst w) /\
     GetCondition M t (fst (MarkOIDCIdentityCreatedSucceededWithReason M reason message w))
     = GetCondition M t (fst w) /\
     GetCondition M t (fst (MarkOIDCIdentityCreatedFailed M reason message w))
     = GetCondition M t (fst w) /\
     GetCondition M t (fst (MarkOIDCIdentityCreatedUnknown M reason message w))
     = GetCondition M t (fst w)).
Proof.
  split; [|split; [|split]].
  - apply (succeeded_ready_iff "" "" w Hwf Htri).
  - apply (succeeded_ready_iff reason message w Hwf Htri).
  - assert (HI : Inv sCondSet (Conditions (fst (MarkOIDCIdentityCreatedFailed M reason message w)))).
    { apply (MarkFalse_Inv sCondSet); auto with seq. }
    destruct (MarkFalse_get sCondSet SequenceConditionOIDCIdentityCreated reason message
                (Conditions (fst w), snd w) Hwf) as [tm Hg].
    split.
    + destruct (IsReady M (fst (MarkOIDCIdentityCreatedFailed M reason message w))) eqn:E;
        [|reflexivity].
      pose proof (proj1 (Inv_IsReady _ HI) E SequenceConditionOIDCIdentityCreated
                    ltac:(simpl; tauto)) as E'. clear E. rename E' into E.
      unfold statusOf, MarkOIDCIdentityCreatedFailed, managing in E.
      cbn [fst Conditions set_Conditions mgr_MarkFalse M Manage] in E.
      rewrite Hg in E. discriminate.
    + eexists. split; [exact Hg|]. simpl. auto.
  - intros t Ht. repeat split.
    + unfold MarkOIDCIdentityCreatedSucceeded. cbn [mgr_MarkTrue M Manage].
      rewrite MarkTrue_WithReason.
      apply (not_OIDC_frame _ w t (MarkTrueWithReason_touches sCondSet _ "" "") Ht).
    + apply (not_OIDC_frame _ w t (MarkTrueWithReason_touches sCondSet _ reason message) Ht).
    + apply (not_OIDC_frame _ w t (MarkFalse_touches sCondSet _ reason message) Ht).
    + apply (not_OIDC_frame _ w t (MarkUnknown_touches sCondSet _ reason message) Ht).
Qed.

Lemma initialized_tri : tri_state sCondSet (Conditions (fst initialized)).
Proof.
  intros c Hc _. vm_compute in Hc.
  repeat (destruct Hc as [<-|Hc]; [simpl; tauto|]). destruct Hc.
Defined.

Lemma identity_marks_gate_readiness_witness :
  wf_conditions (Conditions (fst initialized)) /\
  tri_state sCondSet (Conditions (fst initialized)) /\
  IsReady M (fst (MarkOIDCIdentityCreatedFailed M "Unable" "no service account" initialized))
  = false.
Proof.
  split; [exact initialized_wf|]. split; [exact initialized_tri|].
  exact (proj1 (proj1 (proj2 (proj2
           (identity_marks_gate_readiness initialized "Unable" "no service account"
              initialized_wf initialized_tri))))).
Defined.

(** ** A reconciliation pass *)

Lemma PropagateChannelStatuses_Address (channels : list eventingduckv1.Channelable) (w : World) :
  Address (fst (PropagateChannelStatuses M channels w)) =
  match channels with
  | [] => Address (fst w)
  | c :: _ => derivedAddress (eventingduckv1.Status_Address c)
  end.
Proof.
  destruct channels as [|c rest]; [reflexivity|]. now rewrite PropagateChannelStatuses_cons_eq.
Qed.

Lemma GetCondition_statusOf (t : ConditionType) (ss : SequenceStatus) (c : Condition) :
  GetCondition M t ss = Some c -> statusOf t (Conditions ss) = Some (Status c).
Proof. unfold GetCondition, statusOf. cbn [mgr_GetCondition M Manage]. now intros ->. Qed.

Lemma GetCondition_eq_statusOf (t : ConditionType) (ss ss' : SequenceStatus) :
  GetCondition M t ss' = GetCondition M t ss ->
  statusOf t (Conditions ss') = statusOf t (Conditions ss).
Proof. unfold GetCondition, statusOf. cbn [mgr_GetCondition M Manage]. now intros ->. Qed.

(** X10.  A pass of the reconciler over healthy children: when every
    channel and every subscription carries a True [Ready] condition,
    there is at least one of each, and the first channel advertises a
    URL, then after the two propagations the Sequence is ready exactly
    when the identity condition was True already; and it is ready once
    [MarkOIDCIdentityCreatedSucceeded] has been called.  Propagation
    alone never makes a Sequence ready whose identity condition has not
    been marked. *)
Theorem reconcile_pass_readiness (w : World)
    (channels : list eventingduckv1.Channelable) (subscriptions : list messagingv1.Subscription)
    (Hwf : wf_conditions (Conditions (fst w)))
    (Htri : tri_state sCondSet (Conditions (fst w)))
    (Hurl : exists c rest a url, channels = c :: rest /\
              eventingduckv1.Status_Address c = Some a /\ duckv1.URL_ a = Some url)
    (Hcready : Forall (fun c => exists rc, channelReady c = Some rc /\ Status rc = ConditionTrue)
                 channels)
    (Hsubscriptions : subscriptions <> [])
    (Hsready : Forall (fun s => exists rc, subscriptionReady s = Some rc /\ Status rc = ConditionTrue)
                 subscriptions) :
  let w' := PropagateSubscriptionStatuses M subscriptions (PropagateChannelStatuses M channels w) in
  (IsReady M (fst w') = true <->
   exists a, GetCondition M SequenceConditionOIDCIdentityCreated (fst w) = Some a /\
             Status a = ConditionTrue) /\
  IsReady M (fst (MarkOIDCIdentityCreatedSucceeded M w')) = true.
Proof.
  cbv zeta.
  set (v := PropagateChannelStatuses M channels w).
  set (u := PropagateSubscriptionStatuses M subscriptions v).
  destruct (PropagateChannelStatuses_Inv channels w Hwf Htri) as (Hwfv & Htriv & _).
  pose proof (PropagateSubscriptionStatuses_Inv subscriptions v Hwfv Htriv) as HIu.
  pose proof HIu as (Hwfu & Htriu & _).
  assert (Hcall : channelsAllReady channels = true).
  { apply channelsAllReady_true; [|exact Hcready].
    destruct Hurl as (c & rest & _ & _ & -> & _). discriminate. }
  assert (Hsall : subscriptionsAllReady subscriptions = true)
    by now apply subscriptionsAllReady_true.
  assert (HCR : statusOf SequenceConditionChannelsReady (Conditions (fst u)) = Some ConditionTrue).
  { unfold u. rewrite (GetCondition_eq_statusOf _ _ _
               (PropagateSubscriptionStatuses_get subscriptions v SequenceConditionChannelsReady
                  ltac:(discriminate) ltac:(discriminate))).
    destruct (PropagateChannelStatuses_read channels w Hwf) as [tm Hg]. unfold v.
    rewrite (GetCondition_statusOf _ _ _ Hg). simpl. now rewrite finalCondition_status, Hcall. }
  assert (HAD : statusOf SequenceConditionAddressable (Conditions (fst u)) = Some ConditionTrue).
  { unfold u. rewrite (GetCondition_eq_statusOf _ _ _
               (PropagateSubscriptionStatuses_get subscriptions v SequenceConditionAddressable
                  ltac:(discriminate) ltac:(discriminate))).
    destruct Hurl as (c & rest & a & url & Hch & Hadr & Hu). unfold v. rewrite Hch.
    destruct (PropagateChannelStatuses_Addressable_read c rest w Hwf) as [tm Hg].
    rewrite (GetCondition_statusOf _ _ _ Hg), Hadr. destruct a as [n url' ca au].
    simpl in Hu. now rewrite Hu. }
  assert (HSR : statusOf SequenceConditionSubscriptionsReady (Conditions (fst u))
                = Some ConditionTrue).
  { unfold u. destruct (PropagateSubscriptionStatuses_read subscriptions v Hwfv) as [tm Hg].
    rewrite (GetCondition_statusOf _ _ _ Hg). simpl. now rewrite finalCondition_status, Hsall. }
  assert (HOI : statusOf SequenceConditionOIDCIdentityCreated (Conditions (fst u))
                = statusOf SequenceConditionOIDCIdentityCreated (Conditions (fst w))).
  { unfold u. rewrite (GetCondition_eq_statusOf _ _ _
               (PropagateSubscriptionStatuses_get subscriptions v
                  SequenceConditionOIDCIdentityCreated ltac:(discriminate) ltac:(discriminate))).
    apply GetCondition_eq_statusOf, PropagateChannelStatuses_get; discriminate. }
  split.
  - unfold IsReady. cbn [mgr_IsHappy M Manage]. fold u in HIu. rewrite (Inv_IsReady _ HIu).
    unfold GetCondition. cbn [mgr_GetCondition M Manage]. rewrite <- statusOf_Some, <- HOI.
    split; [intros H; apply H; simpl; tauto|].
    intros H t [<-|[<-|[<-|[<-|[]]]]]; assumption.
  - apply (succeeded_ready_iff "" "" u Hwfu Htriu).
    intros t [<-|[<-|[<-|[]]]]; apply statusOf_Some; assumption.
Qed.

Lemma reconcile_pass_readiness_witness :
  wf_conditions (Conditions (fst initialized)) /\
  tri_state sCondSet (Conditions (fst initialized)) /\
  IsReady M
    (fst (PropagateSubscriptionStatuses M readySubscriptions
            (PropagateChannelStatuses M readyChannels initialized))) = false /\
  IsReady M
    (fst (MarkOIDCIdentityCreatedSucceeded M
            (PropagateSubscriptionStatuses M readySubscriptions
               (PropagateChannelStatuses M readyChannels initialized)))) = true.
Proof.
  split; [exact initialized_wf|]. split; [exact initialized_tri|].
  split; [vm_compute; reflexivity|].
  refine (proj2 (reconcile_pass_readiness initialized readyChannels readySubscriptions
                   initialized_wf initialized_tri _ _ _ _)).
  - do 4 eexists. split; [reflexivity|]. split; reflexivity.
  - repeat constructor; eexists; split; reflexivity.
  - discriminate.
  - repeat constructor; eexists; split; reflexivity.
Defined.

(** ** The order of the two propagations *)

Lemma PropagateChannelStatuses_nil_get (w : World) (t : ConditionType) :
  t <> SequenceConditionChannelsReady -> t <> happy sCondSet ->
  GetCondition M t (fst (PropagateChannelStatuses M [] w)) = GetCondition M t (fst w).
Proof.
  intros H1 H2. rewrite PropagateChannelStatuses_nil_eq. cbv zeta. unfold GetCondition.
  cbn [fst Conditions mgr_GetCondition M Manage].
  rewrite (touches_only_get _ _ _ _ (MarkUnknown_touches sCondSet _ _ _)); [reflexivity|].
  now apply not_in_pair.
Qed.

Lemma untimed_withTime (c : Condition) (tm tm' : Time) (x y : option Condition) :
  x = Some (withTime c tm) -> y = Some (withTime c tm') -> untimed x = untimed y.
Proof. intros -> ->. reflexivity. Qed.

Lemma untimed_status (x y : option Condition) :
  untimed x = untimed y -> option_map Status x = option_map Status y.
Proof.
  destruct x as [[]|], y as [[]|]; simpl; try discriminate; [|reflexivity].
  intros [= -> -> -> -> ->]. reflexivity.
Qed.

(** The tracked conditions after the two propagations, in either order,
    are the same but for their transition times. *)
Lemma propagation_order_conditions (w : World)
    (channels : list eventingduckv1.Channelable) (subscriptions : list messagingv1.Subscription)
    (t : ConditionType) :
  wf_conditions (Conditions (fst w)) -> In t tracked ->
  untimed (GetCondition M t
             (fst (PropagateSubscriptionStatuses M subscriptions
                     (PropagateChannelStatuses M channels w))))
  = untimed (GetCondition M t
               (fst (PropagateChannelStatuses M channels
                       (PropagateSubscriptionStatuses M subscriptions w)))).
Proof.
  intros Hwf Ht.
  pose proof (PropagateChannelStatuses_Coherent_wf channels w Hwf) as Hwfc.
  pose proof (PropagateSubscriptionStatuses_Coherent_wf subscriptions w Hwf) as Hwfs.
  destruct Ht as [<-|[<-|[<-|[<-|[]]]]].
  - rewrite PropagateSubscriptionStatuses_get by discriminate.
    destruct (PropagateChannelStatuses_read channels w Hwf) as [tm1 H1].
    destruct (PropagateChannelStatuses_read channels _ Hwfs) as [tm2 H2].
    exact (untimed_withTime _ _ _ _ _ H1 H2).
  - rewrite (PropagateChannelStatuses_get channels _ SequenceConditionSubscriptionsReady)
      by discriminate.
    destruct (PropagateSubscriptionStatuses_read subscriptions _ Hwfc) as [tm1 H1].
    destruct (PropagateSubscriptionStatuses_read subscriptions w Hwf) as [tm2 H2].
    exact (untimed_withTime _ _ _ _ _ H1 H2).
  - rewrite PropagateSubscriptionStatuses_get by discriminate.
    destruct channels as [|c rest].
    + rewrite !PropagateChannelStatuses_nil_get by discriminate.
      now rewrite PropagateSubscriptionStatuses_get by discriminate.
    + destruct (PropagateChannelStatuses_Addressable_read c rest w Hwf) as [tm1 H1].
      destruct (PropagateChannelStatuses_Addressable_read c rest _ Hwfs) as [tm2 H2].
      exact (untimed_withTime _ _ _ _ _ H1 H2).
  - rewrite PropagateSubscriptionStatuses_get by discriminate.
    rewrite !(PropagateChannelStatuses_get channels _ SequenceConditionOIDCIdentityCreated)
      by discriminate.
    now rewrite PropagateSubscriptionStatuses_get by discriminate.
Qed.

(** X11.  The two propagations may be called in either order: from a
    record whose conditions are named and tri-state, channels first or
    subscriptions first gives the same address, the same per-child
    statuses and the same four tracked conditions, all but for the
    transition times that the clock supplies, and the same [IsReady]
    verdict. *)
Theorem propagation_order_irrelevant (w : World)
    (channels : list eventingduckv1.Channelable) (subscriptions : list messagingv1.Subscription)
    (Hwf : wf_conditions (Conditions (fst w)))
    (Htri : tri_state sCondSet (Conditions (fst w))) :
  let a := PropagateSubscriptionStatuses M subscriptions (PropagateChannelStatuses M channels w) in
  let b := PropagateChannelStatuses M channels (PropagateSubscriptionStatuses M subscriptions w) in
  Address (fst a) = Address (fst b) /\
  Forall2 same_channel_entry (ChannelStatuses (fst a)) (ChannelStatuses (fst b)) /\
  Forall2 same_subscription_entry (SubscriptionStatuses (fst a)) (SubscriptionStatuses (fst b)) /\
  (forall t, In t tracked -> untimed (GetCondition M t (fst a)) = untimed (GetCondition M t (fst b))) /\
  IsReady M (fst a) = IsReady M (fst b).
Proof.
  cbv zeta. split; [|split; [|split; [|split]]].
  - rewrite PropagateSubscriptionStatuses_eq. cbv zeta. cbn [fst Address].
    rewrite !PropagateChannelStatuses_Address.
    destruct channels; [|reflexivity]. now rewrite PropagateSubscriptionStatuses_eq.
  - rewrite (PropagateSubscriptionStatuses_eq subscriptions (PropagateChannelStatuses M channels w)).
    cbv zeta. cbn [fst ChannelStatuses].
    destruct (PropagateChannelStatuses_statuses M channels w) as [clk ->].
    destruct (PropagateChannelStatuses_statuses M channels
                (PropagateSubscriptionStatuses M subscriptions w)) as [clk' ->].
    apply channelEntries_same.
  - rewrite PropagateSubscriptionStatuses_statuses.
    assert (Hs : SubscriptionStatuses
                   (fst (PropagateChannelStatuses M channels
                           (PropagateSubscriptionStatuses M subscriptions w)))
                 = SubscriptionStatuses (fst (PropagateSubscriptionStatuses M subscriptions w))).
    { destruct channels as [|c rest]; [reflexivity|]. now rewrite PropagateChannelStatuses_cons_eq. }
    rewrite Hs, PropagateSubscriptionStatuses_statuses. apply subscriptionEntries_same.
  - intros t Ht. now apply propagation_order_conditions.
  - pose proof (PropagateChannelStatuses_Inv channels w Hwf Htri) as (Hwfc & Htric & _).
    pose proof (PropagateSubscriptionStatuses_Inv subscriptions w Hwf Htri) as (Hwfs & Htris & _).
    pose proof (PropagateSubscriptionStatuses_Inv subscriptions _ Hwfc Htric) as HIa.
    pose proof (PropagateChannelStatuses_Inv channels _ Hwfs Htris) as HIb.
    unfold IsReady. cbn [mgr_IsHappy M Manage]. apply bool_iff_eq.
    rewrite (Inv_IsReady _ HIa), (Inv_IsReady _ HIb).
    assert (He : forall t, In t tracked ->
              statusOf t (Conditions (fst (PropagateSubscriptionStatuses M subscriptions
                                             (PropagateChannelStatuses M channels w))))
              = statusOf t (Conditions (fst (PropagateChannelStatuses M channels
                                               (PropagateSubscriptionStatuses M subscriptions w))))).
    { intros t Ht. apply (untimed_status _ _ (propagation_order_conditions w channels subscriptions
                                                 t Hwf Ht)). }
    split; intros H t Ht; [rewrite <- He | rewrite He]; auto.
Qed.

Lemma propagation_order_irrelevant_witness :
  wf_conditions (Conditions (fst initialized)) /\
  tri_state sCondSet (Conditions (fst initialized)) /\
  IsReady M (fst (PropagateSubscriptionStatuses M oneFailedSubscriptions
                    (PropagateChannelStatuses M readyChannels initialized)))
  = IsReady M (fst (PropagateChannelStatuses M readyChannels
                      (PropagateSubscriptionStatuses M oneFailedSubscriptions initialized))).
Proof.
  split; [exact initialized_wf|]. split; [exact initialized_tri|].
  exact (proj2 (proj2 (proj2 (proj2
           (propagation_order_irrelevant initialized readyChannels oneFailedSubscriptions
              initialized_wf initialized_tri))))).
Defined.

(** ** The not-ready markers *)

Lemma marker_contract (t : ConditionType) (reason message : string) (w : World) :
  In t tracked -> wf_conditions (Conditions (fst w)) ->
  let w' := managing (MarkUnknown sCondSet t reason message) w in
  (exists a, GetCondition M t (fst w') = Some a /\
     Status a = ConditionUnknown /\ Reason a = reason /\ Message a = message) /\
  (forall t', t' <> t -> t' <> SequenceConditionReady ->
     GetCondition M t' (fst w') = GetCondition M t' (fst w)) /\
  SubscriptionStatuses (fst w') = SubscriptionStatuses (fst w) /\
  ChannelStatuses (fst w') = ChannelStatuses (fst w) /\
  Address (fst w') = Address (fst w).
Proof.
  intros Ht Hwf. cbv zeta. split; [|split; [|auto]].
  - destruct (MarkUnknown_read t reason message (Conditions (fst w), snd w) Hwf Ht)
      as (a & Hg & _ & H). exists a. split; [exact Hg|exact H].
  - intros t' H1 H2.
    apply (managing_frame _ _ w t' (MarkUnknown_touches sCondSet t reason message)).
    now apply not_in_pair.
Qed.

(** X12.  The three exported not-ready markers, on a record whose
    conditions are named: each sets its own condition to Unknown with the
    caller's reason and message, and leaves every condition of another
    type than its own and [Ready], the per-child statuses and the address
    as they were; in particular [MarkAddressableNotReady] does not clear
    the address that [setAddress] stored. *)
Theorem not_ready_markers (w : World) (reason message : string)
    (Hwf : wf_conditions (Conditions (fst w))) :
  ((exists a, GetCondition M SequenceConditionChannelsReady
                (fst (MarkChannelsNotReady M reason message w)) = Some a /\
      Status a = ConditionUnknown /\ Reason a = reason /\ Message a = message) /\
   (forall t', t' <> SequenceConditionChannelsReady -> t' <> SequenceConditionReady ->
      GetCondition M t' (fst (MarkChannelsNotReady M reason message w))
      = GetCondition M t' (fst w)) /\
   SubscriptionStatuses (fst (MarkChannelsNotReady M reason message w)) = SubscriptionStatuses (fst w) /\
   ChannelStatuses (fst (MarkChannelsNotReady M reason message w)) = ChannelStatuses (fst w) /\
   Address (fst (MarkChannelsNotReady M reason message w)) = Address (fst w)) /\
  ((exists a, GetCondition M SequenceConditionSubscriptionsReady
                (fst (MarkSubscriptionsNotReady M reason message w)) = Some a /\
      Status a = ConditionUnknown /\ Reason a = reason /\ Message a = message) /\
   (forall t', t' <> SequenceConditionSubscriptionsReady -> t' <> SequenceConditionReady ->
      GetCondition M t' (fst (MarkSubscriptionsNotReady M reason message w))
      = GetCondition M t' (fst w)) /\
   SubscriptionStatuses (fst (MarkSubscriptionsNotReady M reason message w))
   = SubscriptionStatuses (fst w) /\
   ChannelStatuses (fst (MarkSubscriptionsNotReady M reason message w)) = ChannelStatuses (fst w) /\
   Address (fst (MarkSubscriptionsNotReady M reason message w)) = Address (fst w)) /\
  ((exists a, GetCondition M SequenceConditionAddressable
                (fst (MarkAddressableNotReady M reason message w)) = Some a /\
      Status a = ConditionUnknown /\ Reason a = reason /\ Message a = message) /\
   (forall t', t' <> SequenceConditionAddressable -> t' <> SequenceConditionReady ->
      GetCondition M t' (fst (MarkAddressableNotReady M reason message w))
      = GetCondition M t' (fst w)) /\
   SubscriptionStatuses (fst (MarkAddressableNotReady M reason message w))
   = SubscriptionStatuses (fst w) /\
   ChannelStatuses (fst (MarkAddressableNotReady M reason message w)) = ChannelStatuses (fst w) /\
   Address (fst (MarkAddressableNotReady M reason message w)) = Address (fst w)).
Proof.
  split; [|split].
  - apply (marker_contract SequenceConditionChannelsReady reason message w); [simpl; tauto|exact Hwf].
  - apply (marker_contract SequenceConditionSubscriptionsReady reason message w);
      [simpl; tauto|exact Hwf].
  - apply (marker_contract SequenceConditionAddressable reason message w); [simpl; tauto|exact Hwf].
Qed.

Lemma not_ready_markers_witness :
  wf_conditions (Conditions (fst reconciled)) /\
  Address (fst (MarkAddressableNotReady M "Unreachable" "the entry channel moved" reconciled))
  = duckv1.mkAddressable None (Some "http://step-0.default.svc") None None.
Proof.
  assert (Hwf : wf_conditions (Conditions (fst reconciled))).
  { vm_compute. repeat (constructor; [simpl; intuition discriminate|]). constructor. }
  split; [exact Hwf|].
  rewrite (proj2 (proj2 (proj2 (proj2 (proj2 (proj2
             (not_ready_markers reconciled "Unreachable" "the entry channel moved" Hwf))))))).
  vm_compute. reflexivity.
Defined.

(** ** Conditions of other types *)


